(** * Locale/path resolution and translation orchestration of the blog theme

    A shallow embedding of
    - the locale/path resolver ([extractLocaleFromId], [extractPathFromId],
      [isContentForLocale], [generatePathParams]),
    - the article scanner's path functions ([getTargetArticlePath],
      [targetExists]),
    - the translator ([translateText], [translateMarkdown],
      [translateArticle], [generateWarningBox]) and
    - the per-locale loop of the translation script,
    followed by the properties established about them.

    Strings are byte strings: a JavaScript string is represented by its
    UTF-8 encoding, so concatenation, equality and splitting on the ASCII
    separator [/] are exact. *)

From Stdlib Require Import String Ascii List ZArith QArith Bool Lia.
From Stdlib Require Import Numbers.DecimalString.
From stdpp Require Import base option list gmap sets strings.

Local Open Scope string_scope.
Local Open Scope list_scope.

(** ** JavaScript primitives used by the sources *)

Module Js.

(** [s.split("/")]: never the empty array, [""] splits into [[""]]. *)
Fixpoint split (s : string) : list string :=
  match s with
  | EmptyString => [EmptyString]
  | String c rest =>
      if Ascii.eqb c "/" then EmptyString :: split rest
      else match split rest with
           | seg :: segs => String c seg :: segs
           | [] => [String c EmptyString]
           end
  end.

(** [a.join("/")]. *)
Fixpoint join (segs : list string) : string :=
  match segs with
  | [] => EmptyString
  | [seg] => seg
  | seg :: rest => seg +:+ "/" +:+ join rest
  end.

(** The string has no separator in it: it is one segment. *)
Fixpoint no_slash (s : string) : bool :=
  match s with
  | EmptyString => true
  | String c rest => negb (Ascii.eqb c "/") && no_slash rest
  end.

(** [a.pop()]: the last element, [undefined] on the empty array. *)
Definition pop (segs : list string) : option string := last segs.

(** [a.slice(0, -1)]: all elements but the last. *)
Definition slice_0_m1 (segs : list string) : list string := removelast segs.

(** Truthiness of a string. *)
Definition truthy_str (s : string) : bool :=
  match s with EmptyString => false | _ => true end.

(** [v || d] where [v] is a string or [undefined] and [d] a string. *)
Definition or_else (v : option string) (d : string) : string :=
  match v with
  | Some s => if truthy_str s then s else d
  | None => d
  end.

(** The own properties of an object literal with string values. *)
Fixpoint get_own (record : list (string * string)) (key : string) : option string :=
  match record with
  | [] => None
  | (k, v) :: rest => if String.eqb k key then Some v else get_own rest key
  end.

(** The members an object literal inherits from [Object.prototype]. *)
Definition inherited_members : list string :=
  ["constructor"; "__defineGetter__"; "__defineSetter__"; "hasOwnProperty";
   "__lookupGetter__"; "__lookupSetter__"; "isPrototypeOf"; "propertyIsEnumerable";
   "toString"; "valueOf"; "__proto__"; "toLocaleString"].

Definition inherited (key : string) : bool := existsb (String.eqb key) inherited_members.

(** What [record[key]] finds: an own property, a member of the prototype
    (a built-in function, or the prototype itself for [__proto__]), or
    nothing. *)
Inductive Property :=
| Own (value : string)
| Inherited (member : string)
| Undefined.

(** [record[key]] on an object literal with string values: the own
    properties first, then the prototype chain. *)
Definition get (record : list (string * string)) (key : string) : Property :=
  match get_own record key with
  | Some value => Own value
  | None => if inherited key then Inherited key else Undefined
  end.

(** [`${member}`] for a member of [Object.prototype]: the text node gives
    for a built-in function, and [[object Object]] for the prototype. *)
Definition member_text (member : string) : string :=
  if String.eqb member "__proto__" then "[object Object]"
  else "function " +:+ (if String.eqb member "constructor" then "Object" else member)
       +:+ "() { [native code] }".

(** [p || d] where [p] was looked up in an object literal and [d] is a
    string, as the text a template literal or a concatenation makes of it:
    an inherited member is truthy and is not a string. *)
Definition or_text (p : Property) (d : string) : string :=
  match p with
  | Own s => if truthy_str s then s else d
  | Inherited member => member_text member
  | Undefined => d
  end.

(** Code points for which [String.prototype.trim] strips, in UTF-8:
    TAB LF VT FF CR SP, U+00A0, U+1680, U+2000..U+200A, U+2028, U+2029,
    U+202F, U+205F, U+3000 and U+FEFF. *)
Definition ws1 (c : ascii) : bool :=
  let n := nat_of_ascii c in
  (Nat.leb 9 n && Nat.leb n 13) || Nat.eqb n 32.

Definition ws2 (c1 c2 : ascii) : bool :=
  Nat.eqb (nat_of_ascii c1) 194 && Nat.eqb (nat_of_ascii c2) 160.

Definition ws3 (c1 c2 c3 : ascii) : bool :=
  let a := nat_of_ascii c1 in
  let b := nat_of_ascii c2 in
  let c := nat_of_ascii c3 in
  (Nat.eqb a 225 && Nat.eqb b 154 && Nat.eqb c 128)
  || (Nat.eqb a 226 && Nat.eqb b 128
      && ((Nat.leb 128 c && Nat.leb c 138) || Nat.eqb c 168 || Nat.eqb c 169
          || Nat.eqb c 175))
  || (Nat.eqb a 226 && Nat.eqb b 129 && Nat.eqb c 159)
  || (Nat.eqb a 227 && Nat.eqb b 128 && Nat.eqb c 128)
  || (Nat.eqb a 239 && Nat.eqb b 187 && Nat.eqb c 191).

(** [s.trimStart()] *)
Fixpoint trimStart (s : string) : string :=
  match s with
  | EmptyString => EmptyString
  | String c1 r1 =>
      if ws1 c1 then trimStart r1
      else match r1 with
           | EmptyString => s
           | String c2 r2 =>
               if ws2 c1 c2 then trimStart r2
               else match r2 with
                    | EmptyString => s
                    | String c3 r3 => if ws3 c1 c2 c3 then trimStart r3 else s
                    end
           end
  end.

Fixpoint rev_string (s : string) : string :=
  match s with
  | EmptyString => EmptyString
  | String c rest => rev_string rest +:+ String c EmptyString
  end.

(** Whitespace stripped from a reversed string: the byte order of each
    encoded code point is reversed too. *)
Fixpoint trimStart_rev (s : string) : string :=
  match s with
  | EmptyString => EmptyString
  | String c1 r1 =>
      if ws1 c1 then trimStart_rev r1
      else match r1 with
           | EmptyString => s
           | String c2 r2 =>
               if ws2 c2 c1 then trimStart_rev r2
               else match r2 with
                    | EmptyString => s
                    | String c3 r3 => if ws3 c3 c2 c1 then trimStart_rev r3 else s
                    end
           end
  end.

(** [s.trimEnd()] *)
Definition trimEnd (s : string) : string :=
  rev_string (trimStart_rev (rev_string s)).

(** [s.trim()] *)
Definition trim (s : string) : string := trimEnd (trimStart s).

(** [s.length]: the number of UTF-16 code units of the string encoded
    by the bytes [s]. *)
Definition units (c : ascii) : nat :=
  let n := nat_of_ascii c in
  if Nat.ltb n 128 then 1
  else if Nat.ltb n 192 then 0
  else if Nat.ltb n 240 then 1
  else 2.

Fixpoint length16 (s : string) : nat :=
  match s with
  | EmptyString => 0
  | String c rest => units c + length16 rest
  end.

(** [`${n}`] for a non-negative integer. *)
Definition show_nat (n : nat) : string := NilEmpty.string_of_uint (Nat.to_uint n).

Definition nl : string := String (ascii_of_nat 10) EmptyString.

End Js.

(** ** [node:path] (POSIX flavour) *)

Module Path.

(** [normalizeString] walks the path one segment at a time and keeps a
    result [res]; here [res] is the list of its segments, the most recent
    one first.  An empty segment and [.] are dropped; [..] removes the last
    kept segment unless that is itself [..] or nothing is kept, in which
    case [..] is kept when the path may climb above its start and dropped
    otherwise; any other segment is kept. *)
Definition step (allowAboveRoot : bool) (kept : list string) (seg : string)
  : list string :=
  if String.eqb seg "" then kept
  else if String.eqb seg "." then kept
  else if String.eqb seg ".." then
    match kept with
    | top :: below =>
        if String.eqb top ".." then
          (if allowAboveRoot then seg :: kept else kept)
        else below
    | [] => if allowAboveRoot then [seg] else []
    end
  else seg :: kept.

Definition normalizeString (path : string) (allowAboveRoot : bool) : string :=
  Js.join (rev (fold_left (step allowAboveRoot) (Js.split path) [])).

Definition starts_with_slash (s : string) : bool :=
  match s with
  | String c _ => Ascii.eqb c "/"
  | EmptyString => false
  end.

Fixpoint ends_with_slash (s : string) : bool :=
  match s with
  | EmptyString => false
  | String c EmptyString => Ascii.eqb c "/"
  | String _ rest => ends_with_slash rest
  end.

(** [path.normalize(p)] *)
Definition normalize (path : string) : string :=
  if String.eqb path "" then "."
  else
    let isAbsolute := starts_with_slash path in
    let trailingSeparator := ends_with_slash path in
    let path := normalizeString path (negb isAbsolute) in
    if String.eqb path "" then
      (if isAbsolute then "/" else if trailingSeparator then "./" else ".")
    else
      let path := if trailingSeparator then path +:+ "/" else path in
      if isAbsolute then "/" +:+ path else path.

(** The arguments of [path.join] that take part: the non-empty ones. *)
Definition parts (args : list string) : list string :=
  filter (fun arg => Js.truthy_str arg = true) args.

(** [path.join(...args)] *)
Definition join (args : list string) : string :=
  match parts args with
  | [] => "."
  | parts => normalize (Js.join parts)
  end.

End Path.

(** ** Vocabulary for statements about paths *)

Module PathShape.
Import Path.

(** A proper file or directory name: not empty, no separator in it,
    neither [.] nor [..]. *)
Definition plain (seg : string) : bool :=
  Js.no_slash seg && negb (String.eqb seg "") && negb (String.eqb seg ".")
  && negb (String.eqb seg "..").

(** The kept segments are well formed: proper names on top of a run of
    [..], which is empty unless the path may climb above its start. *)
Fixpoint kept_ok (allowAboveRoot : bool) (kept : list string) : bool :=
  match kept with
  | [] => true
  | seg :: below =>
      if String.eqb seg ".."
      then allowAboveRoot && forallb (fun s => String.eqb s "..") below
      else plain seg && kept_ok allowAboveRoot below
  end.

(** The path [normalize] builds from the kept segments. *)
Definition render (isAbsolute trailingSeparator : bool) (kept : list string) : string :=
  let path := Js.join (rev kept) in
  if String.eqb path "" then
    (if isAbsolute then "/" else if trailingSeparator then "./" else ".")
  else
    let path := if trailingSeparator then path +:+ "/" else path in
    if isAbsolute then "/" +:+ path else path.

(** The segments [normalize] keeps of a path. *)
Definition kept_of (path : string) : list string :=
  fold_left (step (negb (starts_with_slash path))) (Js.split path) [].

(** Arguments that join into a path ending in a proper name (not in a
    separator, and not normalising to the root or to nothing). *)
Definition names_entry (args : list string) : Prop :=
  parts args <> []
  /\ ends_with_slash (Js.join (parts args)) = false
  /\ kept_of (Js.join (parts args)) <> [].

End PathShape.

(** ** site.config.ts *)

Module Config.

Record I18n := { locales : list string; defaultLocale : string }.

Record SiteConfig := { title : string; author_name : string; i18n : I18n }.

Definition config : SiteConfig :=
  {| title := "Noctyl's Blog";
     author_name := "Noctyl";
     i18n := {| locales := ["en"; "zh-cn"; "ja"]; defaultLocale := "zh-cn" |} |}.

(** [Number(config.i18n.locales.length) === 1] *)
Definition monolocale (cfg : SiteConfig) : bool :=
  Nat.eqb (length (locales (i18n cfg))) 1.

End Config.

(** ** The locale/path resolver ([$utils/content]) *)

Module Content.
Import Config.

Record PathParams := { locale : option string; id : string }.

Definition extractLocaleFromId (cfg : SiteConfig) (id : string) : string :=
  Js.or_else (Js.pop (Js.split id)) (defaultLocale (i18n cfg)).

Definition extractPathFromId (cfg : SiteConfig) (id : string) : string :=
  if monolocale cfg then id
  else Js.join (Js.slice_0_m1 (Js.split id)).

Definition isContentForLocale (cfg : SiteConfig) (id locale : string) : bool :=
  if monolocale cfg then true
  else String.eqb (extractLocaleFromId cfg id) locale.

Definition generatePathParams (cfg : SiteConfig) (id : string) : PathParams :=
  if monolocale cfg then {| locale := None; id := id |}
  else
    let locale := extractLocaleFromId cfg id in
    let path := extractPathFromId cfg id in
    {| locale := if String.eqb locale (defaultLocale (i18n cfg)) then None else Some locale;
       id := path |}.

End Content.

(** ** Effects: file system, console and the remote service

    The scripts run sequentially against a world made of the file system,
    the console and the number of requests sent to the text-generation
    service so far.  A computation either returns or throws; what it did
    to the world before throwing stays done. *)

Module Sys.

Inductive Error := mkError (name message : string).

Inductive Result (A : Type) :=
| Ok (a : A)
| Throw (e : Error).
Arguments Ok {A} a.
Arguments Throw {A} e.

Inductive Node := File (content : string) | Dir.

Inductive LogEntry :=
| Log (msg : string)
| LogError (msg : string) (e : Error).

Record World := {
  fs : gmap string Node;
  console : list LogEntry;
  ncalls : nat
}.

Definition M (A : Type) : Type := World -> Result A * World.

Definition ret {A} (a : A) : M A := fun w => (Ok a, w).

Definition throw {A} (e : Error) : M A := fun w => (Throw e, w).

Definition bind {A B} (m : M A) (k : A -> M B) : M B :=
  fun w =>
    match m w with
    | (Ok a, w1) => k a w1
    | (Throw e, w1) => (Throw e, w1)
    end.

(** [try { m } catch (error) { handler error }] *)
Definition try_catch {A} (m : M A) (handler : Error -> M A) : M A :=
  fun w =>
    match m w with
    | (Ok a, w1) => (Ok a, w1)
    | (Throw e, w1) => handler e w1
    end.

Definition lift {A} (r : Result A) : M A := fun w => (r, w).

Definition logged (entry : LogEntry) (w : World) : World :=
  {| fs := fs w; console := console w ++ [entry]; ncalls := ncalls w |}.

Definition console_log (msg : string) : M unit :=
  fun w => (Ok tt, logged (Log msg) w).

Definition console_error (msg : string) (e : Error) : M unit :=
  fun w => (Ok tt, logged (LogError msg e) w).

(** The directories a path goes through, outermost first: its prefixes
    that end right before a separator.  The empty prefix of an absolute path
    is the root. *)
Fixpoint ancestors_from (before path : string) : list string :=
  match path with
  | EmptyString => []
  | String c rest =>
      (if Ascii.eqb c "/" then [before] else [])
      ++ ancestors_from (before +:+ String c EmptyString) rest
  end.

Definition ancestors (path : string) : list string := ancestors_from "" path.

(** The directory a path is an entry of, when the path names one. *)
Definition parent (path : string) : option string := last (ancestors path).

(** The root, the working directory and what lies above it are
    directories whatever the map holds. *)
Definition always_there (path : string) : bool :=
  forallb (fun seg => String.eqb seg "" || String.eqb seg "." || String.eqb seg "..")
          (Js.split path).

(** What a path leads to. *)
Definition node_at (files : gmap string Node) (path : string) : option Node :=
  if always_there path then Some Dir else files !! path.

Definition is_file (node : option Node) : bool :=
  match node with
  | Some (File _) => true
  | _ => false
  end.

(** A regular file is met on the way down to the path. *)
Definition file_above (files : gmap string Node) (path : string) : bool :=
  existsb (fun dir => is_file (node_at files dir)) (ancestors path).

(** The path is an entry of a directory that is not there. *)
Definition parent_missing (files : gmap string Node) (path : string) : bool :=
  match parent path with
  | Some dir => match node_at files dir with
                | None => true
                | Some _ => false
                end
  | None => false
  end.

Definition make_dirs (dirs : list string) (files : gmap string Node) : gmap string Node :=
  fold_right (fun dir made => if always_there dir then made else <[dir := Dir]> made)
             files dirs.

(** The directories down to a directory, itself included. *)
Definition chain (dir : string) : list string := ancestors dir ++ [dir].

(** [fs.mkdirSync(dir, { recursive: true })]: creates the directory and
    every ancestor that is missing, and leaves the ones that exist;
    [ENOTDIR] when an ancestor is a regular file, [EEXIST] when the path
    itself is one, [ENOENT] for the empty path. *)
Definition mkdirSync_recursive (dir : string) : M unit :=
  fun w =>
    if String.eqb dir "" then (Throw (mkError "ENOENT" dir), w)
    else if file_above (fs w) dir then (Throw (mkError "ENOTDIR" dir), w)
    else if is_file (node_at (fs w) dir) then (Throw (mkError "EEXIST" dir), w)
    else (Ok tt, {| fs := make_dirs (chain dir) (fs w);
                    console := console w; ncalls := ncalls w |}).

(** [fs.writeFileSync(file, data, "utf-8")]: creates or replaces the
    file in its directory, which must exist: [ENOTDIR] when an ancestor is a
    regular file, [ENOENT] when the parent directory is missing or the path
    is empty, [EISDIR] when the path is a directory or ends with a
    separator. *)
Definition writeFileSync (file data : string) : M unit :=
  fun w =>
    if String.eqb file "" then (Throw (mkError "ENOENT" file), w)
    else if file_above (fs w) file then (Throw (mkError "ENOTDIR" file), w)
    else if parent_missing (fs w) file then (Throw (mkError "ENOENT" file), w)
    else
      match node_at (fs w) file with
      | Some Dir => (Throw (mkError "EISDIR" file), w)
      | _ =>
          if Path.ends_with_slash file then (Throw (mkError "EISDIR" file), w)
          else (Ok tt, {| fs := <[file := File data]> (fs w);
                          console := console w; ncalls := ncalls w |})
      end.

End Sys.

Notation "'do' x <- m ; k" := (Sys.bind m (fun x => k))
  (at level 10, x name, m at level 100, k at level 200).
Notation "'do' ' pat <- m ; k" := (Sys.bind m (fun x => match x with pat => k end))
  (at level 10, pat pattern, m at level 100, k at level 200).
Notation "'run' m ; k" := (Sys.bind m (fun _ => k))
  (at level 10, m at level 100, k at level 200).

(** ** scripts/lib/article-scanner.ts *)

Module Scanner.
Import Sys.

Inductive ContentType := note | jotting | preface.

Definition type_name (t : ContentType) : string :=
  match t with
  | note => "note"
  | jotting => "jotting"
  | preface => "preface"
  end.

Record Article := {
  id : string;
  type : ContentType;
  locales : gset string;
  hasSubdirectory : gmap string bool
}.

Section WithDirname.
(** [__dirname], the directory of the scanner module. *)
Variable dirname : string.

Definition CONTENT_DIR : string := Path.join [dirname; "../../src/content"].

Definition baseDir (article : Article) : string :=
  Path.join [CONTENT_DIR; type_name (type article); id article].

(** [article.hasSubdirectory.get(locale)] used as a condition. *)
Definition get_truthy (m : gmap string bool) (locale : string) : bool :=
  match m !! locale with
  | Some b => b
  | None => false
  end.

Definition getTargetArticlePath (article : Article) (sourceLocale targetLocale : string)
  : M string :=
  let baseDir := Path.join [CONTENT_DIR; type_name (type article); id article] in
  if get_truthy (hasSubdirectory article) sourceLocale then
    let targetDir := Path.join [baseDir; targetLocale] in
    run mkdirSync_recursive targetDir;
    ret (Path.join [targetDir; "index.md"])
  else
    ret (Path.join [baseDir; targetLocale +:+ ".md"]).

End WithDirname.

Definition targetExists (article : Article) (targetLocale : string) : bool :=
  bool_decide (targetLocale ∈ locales article).

End Scanner.

(** ** scripts/lib/translator.ts *)

Module Translator.
Import Sys.

(** A frontmatter value: a string, or any other YAML value, of which the
    code only uses the truthiness and the conversion to a string. *)
Inductive Value :=
| VStr (s : string)
| VOther (truthy : bool) (shown : string).

Definition truthy (v : Value) : bool :=
  match v with
  | VStr s => Js.truthy_str s
  | VOther t _ => t
  end.

(** [`${v}`] *)
Definition show (v : Value) : string :=
  match v with
  | VStr s => s
  | VOther _ shown => shown
  end.

(** gray-matter: [matter(text)] gives the frontmatter mapping and the
    body or throws on a malformed block; [matter.stringify(body, data)]
    is its inverse direction.  [matter] is the parse of a text; the cache
    gray-matter keeps between calls answers a parsed text with the same
    mapping and body, and is not followed for a text whose parse threw. *)
Class GrayMatter := {
  matter : string -> Result (gmap string Value * string);
  matter_stringify : string -> gmap string Value -> string
}.

Definition LANGUAGE_NAMES : list (string * string) :=
  [("en", "English"); ("zh-cn", "中文"); ("ja", "日本語")].

(** [LANGUAGE_NAMES[locale] || locale].  Every caller puts the result in
    a template literal, so it is given as the text it contributes. *)
Definition getLanguageName (locale : string) : string :=
  Js.or_text (Js.get LANGUAGE_NAMES locale) locale.

Definition generateSourceUrl (cfg : Config.SiteConfig)
    (collection articleId sourceLocale : string) : string :=
  if String.eqb sourceLocale (Config.defaultLocale (Config.i18n cfg)) then
    "/" +:+ collection +:+ "/" +:+ articleId
  else
    "/" +:+ sourceLocale +:+ "/" +:+ collection +:+ "/" +:+ articleId.

Definition warning_en (language sourceUrl : string) : string :=
  "> [!NOTE]" +:+ Js.nl +:+ "> This article is AI-translated from the [" +:+ language
  +:+ " version](" +:+ sourceUrl
  +:+ "). It may contain inaccuracies or hallucinations. Please refer to the original version for accuracy."
  +:+ Js.nl +:+ Js.nl.

Definition warning_zh_cn (language sourceUrl : string) : string :=
  "> [!NOTE]" +:+ Js.nl +:+ "> 此文章由 AI 从 [" +:+ language +:+ "版本](" +:+ sourceUrl
  +:+ ") 自动翻译，可能存在不准确之处或信息幻觉。请参考原文以确保准确性。"
  +:+ Js.nl +:+ Js.nl.

Definition warning_ja (language sourceUrl : string) : string :=
  "> [!NOTE]" +:+ Js.nl +:+ "> この記事は [" +:+ language +:+ "版](" +:+ sourceUrl
  +:+ ") から AI 翻訳されたものです。不正確な情報や幻覚が含まれる可能性があります。正確な情報は原文をご参照ください。"
  +:+ Js.nl +:+ Js.nl.

(** [warnings[targetLocale] || warnings.en].  The only caller
    concatenates the result with the translated body, so it is given as the
    text it contributes. *)
Definition generateWarningBox (cfg : Config.SiteConfig)
    (collection articleId sourceLocale targetLocale : string) : string :=
  let sourceUrl := generateSourceUrl cfg collection articleId sourceLocale in
  let warnings :=
    [("en", warning_en (getLanguageName sourceLocale) sourceUrl);
     ("zh-cn", warning_zh_cn (getLanguageName sourceLocale) sourceUrl);
     ("ja", warning_ja (getLanguageName sourceLocale) sourceUrl)] in
  Js.or_text (Js.get warnings targetLocale)
             (warning_en (getLanguageName sourceLocale) sourceUrl).

(** The chat-completion request and what comes back: the promise is
    rejected, or it resolves to a response whose [choices] carry each a
    [message.content] that may be [null]. *)
Record Request := {
  req_model : string;
  req_system : string;
  req_user : string;
  req_temperature : Q
}.

Inductive Response :=
| Rejected (e : Error)
| Completion (choices : list (option string)).

(** The remote service as the client sees it: the answer to a request,
    given how many requests were sent before it. *)
Definition Client : Type := nat -> Request -> Response.

Record Translator := { client : Client; model : string }.

(** [await this.client.chat.completions.create(request)] *)
Definition create (tr : Translator) (request : Request) : M (list (option string)) :=
  fun w =>
    let w1 := {| fs := fs w; console := console w; ncalls := S (ncalls w) |} in
    match client tr (ncalls w) request with
    | Rejected e => (Throw e, w1)
    | Completion choices => (Ok choices, w1)
    end.

(** [response.choices[0].message.content] *)
Definition first_content (choices : list (option string)) : M (option string) :=
  match choices with
  | [] => throw (mkError "TypeError" "Cannot read properties of undefined (reading 'message')")
  | content :: _ => ret content
  end.

(** What a response yields: the trimmed content of its first choice when
    that is not empty; nothing when the request was rejected, when there is
    no choice, or when the content is [null] or blank. *)
Definition answer (r : Response) : option string :=
  match r with
  | Completion (Some content :: _) =>
      if Js.truthy_str (Js.trim content) then Some (Js.trim content) else None
  | _ => None
  end.

Definition text_request (tr : Translator) (text : Value) (targetLocale : string) : Request :=
  {| req_model := model tr;
     req_system := "You are a professional translator. Translate accurately and naturally. Return only the translated text without any explanation.";
     req_user := "Translate to " +:+ getLanguageName targetLocale +:+ " (" +:+ targetLocale
                 +:+ "): " +:+ show text;
     req_temperature := 3 # 10 |}.

Definition translateText (tr : Translator) (text : Value) (targetLocale : string) : M Value :=
  try_catch
    (do choices <- create tr (text_request tr text targetLocale);
     do content <- first_content choices;
     ret (match option_map Js.trim content with
          | Some trimmed => if Js.truthy_str trimmed then VStr trimmed else text
          | None => text
          end))
    (fun error =>
       run console_error ("Translation error for text: " +:+ show text) error;
       ret text).

Definition systemPrompt : string :=
"You are a professional technical writer and translator. Your task is to translate markdown articles accurately while:
1. Preserving all markdown formatting (links, code blocks, lists, headings, tables, etc.)
2. Keeping code snippets unchanged
3. Maintaining technical accuracy
4. Using natural, fluent language in the target locale
5. Not translating URLs, file paths, or command-line examples
6. Preserving special markdown syntax like [!NOTE], [!WARNING], etc.
7. Return only the translated markdown without any explanation or prefix".

Definition userPrompt (content sourceLocale targetLocale : string) : string :=
  "Translate the following markdown article from " +:+ getLanguageName sourceLocale
  +:+ " to " +:+ getLanguageName targetLocale +:+
".

Important rules:
- Keep all markdown syntax intact
- Do NOT translate code blocks (```), inline code (`), URLs, file paths, or technical commands
- Translate headings, paragraphs, list items, and table content
- Maintain the same level of technical detail
- Use natural expressions in " +:+ getLanguageName targetLocale +:+ "
- Preserve line breaks and spacing

Article to translate:

" +:+ content.

Definition markdown_request (tr : Translator) (content sourceLocale targetLocale : string)
  : Request :=
  {| req_model := model tr;
     req_system := systemPrompt;
     req_user := userPrompt content sourceLocale targetLocale;
     req_temperature := 3 # 10 |}.

Definition translateMarkdown (tr : Translator) (content sourceLocale targetLocale : string)
  : M string :=
  try_catch
    (do choices <- create tr (markdown_request tr content sourceLocale targetLocale);
     do content <- first_content choices;
     match option_map Js.trim content with
     | Some translated =>
         if Js.truthy_str translated then ret translated
         else throw (mkError "Error" "Empty translation response")
     | None => throw (mkError "Error" "Empty translation response")
     end)
    (fun error =>
       run console_error "Translation error for markdown content:" error;
       throw error).

Section WithGrayMatter.
Context `{GrayMatter}.

(** [if (data[key]) translatedData[key] = await this.translateText(data[key], targetLocale)] *)
Definition translateField (tr : Translator) (key : string)
    (data translatedData : gmap string Value) (targetLocale : string)
  : M (gmap string Value) :=
  match data !! key with
  | Some v =>
      if truthy v then
        run console_log ("  Translating " +:+ key +:+ ": " +:+ show v);
        do translated <- translateText tr v targetLocale;
        ret (<[key := translated]> translatedData)
      else ret translatedData
  | None => ret translatedData
  end.

Definition translateArticle (cfg : Config.SiteConfig) (tr : Translator)
    (sourceContent collection articleId sourceLocale targetLocale : string)
  : M string :=
  do '(data, content) <- lift (matter sourceContent);
  let translatedData := data in
  do translatedData <- translateField tr "title" data translatedData targetLocale;
  do translatedData <- translateField tr "description" data translatedData targetLocale;
  run console_log ("  Translating content (" +:+ Js.show_nat (Js.length16 content)
                   +:+ " characters)...");
  do translatedContent <- translateMarkdown tr content sourceLocale targetLocale;
  let warningBox := generateWarningBox cfg collection articleId sourceLocale targetLocale in
  let finalContent := warningBox +:+ translatedContent in
  ret (matter_stringify finalContent translatedData).

End WithGrayMatter.

End Translator.

(** ** scripts/translate.ts: the loop over the target locales *)

Module Script.
Import Sys Scanner Translator.

Record Stats := { success : list string; failed : list string }.

(** [stats.success.push(targetLocale)] *)
Definition push_success (stats : Stats) (targetLocale : string) : Stats :=
  {| success := success stats ++ [targetLocale]; failed := failed stats |}.

(** [stats.failed.push(targetLocale)] *)
Definition push_failed (stats : Stats) (targetLocale : string) : Stats :=
  {| success := success stats; failed := failed stats ++ [targetLocale] |}.

Section Loop.
Context `{GrayMatter}.
Variable dirname : string.
Variable cfg : Config.SiteConfig.
Variable translator : Translator.
(** The article chosen at the prompts; [collection] and [articleId] of
    the script are its [type] and [id]. *)
Variable article : Article.
Variable sourceLocale : string.
Variable sourceContent : string.

(** The body of [for (const targetLocale of targetLocales)]. *)
Definition loop_body (stats : Stats) (targetLocale : string) : M Stats :=
  let targetLang := getLanguageName targetLocale in
  run console_log (Js.nl +:+ "📖 Translating to " +:+ targetLang +:+ "...");
  try_catch
    (if targetExists article targetLocale then
       run console_log ("⚠️  Warning: " +:+ targetLocale
                        +:+ " version already exists, skipping...");
       ret stats
     else
       do translatedContent <-
         translateArticle cfg translator sourceContent (type_name (type article))
                          (id article) sourceLocale targetLocale;
       do targetPath <- getTargetArticlePath dirname article sourceLocale targetLocale;
       run writeFileSync targetPath translatedContent;
       run console_log ("✅ Translation saved: " +:+ targetPath);
       ret (push_success stats targetLocale))
    (fun error =>
       run console_error ("❌ Translation failed for " +:+ targetLocale +:+ ":") error;
       ret (push_failed stats targetLocale)).

(** The whole loop; its body never throws, see [loop_body_returns]. *)
Fixpoint translation_loop (targetLocales : list string) (stats : Stats) : M Stats :=
  match targetLocales with
  | [] => ret stats
  | targetLocale :: rest =>
      do stats1 <- loop_body stats targetLocale;
      translation_loop rest stats1
  end.

End Loop.

End Script.

(** ** Concrete instances used to exercise the statements *)

Module Fixture.
Import Sys Scanner Translator.

(** A site with a single locale. *)
Definition config_en_only : Config.SiteConfig :=
  {| Config.title := "Blog"; Config.author_name := "Author";
     Config.i18n := {| Config.locales := ["en"]; Config.defaultLocale := "en" |} |}.

(** A frontmatter reader that finds a title and a tag list in front of
    every body, and a writer that keeps the body only. *)
Definition demo_data : gmap string Value :=
  <["title" := VStr "Hello"]> (<["tags" := VOther true "a,b"]> ∅).

#[export] Instance demo_matter : GrayMatter :=
  {| matter := fun text => Ok (demo_data, text);
     matter_stringify := fun body _ => body |}.

(** A service that translates article bodies and rejects everything else. *)
Definition body_only : Client :=
  fun _ request =>
    if String.eqb (req_system request) systemPrompt
    then Completion [Some " Hola "]
    else Rejected (mkError "Error" "timeout").

Definition body_only_translator : Translator := {| client := body_only; model := "gpt-4" |}.

(** A service that rejects every request. *)
Definition down : Client := fun _ _ => Rejected (mkError "Error" "timeout").

Definition down_translator : Translator := {| client := down; model := "gpt-4" |}.

Definition demo : Article :=
  {| id := "demo"; type := note; locales := {["en"]};
     hasSubdirectory := <["en" := false]> ∅ |}.

Definition demo_dir : Article :=
  {| id := "demo"; type := note; locales := {["en"]};
     hasSubdirectory := <["en" := true]> ∅ |}.

Definition empty_world : World := {| fs := ∅; console := []; ncalls := 0 |}.

(** The directories of the checkout down to the article [demo]. *)
Definition checkout : gmap string Node :=
  <["/repo" := Dir]>
  (<["/repo/src" := Dir]>
  (<["/repo/src/content" := Dir]>
  (<["/repo/src/content/note" := Dir]>
  (<["/repo/src/content/note/demo" := Dir]> ∅)))).

(** The disk [demo] was scanned from: [demo/en.md]. *)
Definition demo_world : World :=
  {| fs := <["/repo/src/content/note/demo/en.md" := File "Body"]> checkout;
     console := []; ncalls := 0 |}.

(** The disk [demo_dir] was scanned from: [demo/en/index.md]. *)
Definition demo_dir_world : World :=
  {| fs := <["/repo/src/content/note/demo/en" := Dir]>
           (<["/repo/src/content/note/demo/en/index.md" := File "Body"]> checkout);
     console := []; ncalls := 0 |}.

End Fixture.

(** ** [node:path] on directory entry names *)

Module PathName.

(** [s.endsWith(suffix)] *)
Fixpoint endsWith (s suffix : string) : bool :=
  String.eqb s suffix
  || match s with
     | EmptyString => false
     | String _ rest => endsWith rest suffix
     end.

(** The part of a name from its last dot on, when it has a dot. *)
Fixpoint from_last_dot (name : string) : option string :=
  match name with
  | EmptyString => None
  | String c rest =>
      match from_last_dot rest with
      | Some ext => Some ext
      | None => if Ascii.eqb c "." then Some name else None
      end
  end.

(** [path.extname(name)] for a name without separator: the part from the
    last dot on; nothing when there is no dot, when the only dot leads the
    name, or for [..]. *)
Definition extname (name : string) : string :=
  match from_last_dot name with
  | None => ""
  | Some ext =>
      if String.eqb ext name then ""
      else if String.eqb name ".." then ""
      else ext
  end.

(** [path.basename(name, suffix)] for a name without separator: the name
    without the suffix it ends with; the whole name when the suffix is
    empty, longer than the name or not its end; nothing when the suffix is
    the name. *)
Definition basename (name suffix : string) : string :=
  if Js.truthy_str suffix && (String.length suffix <=? String.length name)%nat then
    if String.eqb suffix name then ""
    else if endsWith name suffix
         then String.substring 0 (String.length name - String.length suffix) name
         else name
  else name.

End PathName.

(** ** scripts/lib/article-scanner.ts: reading the content directory *)

Module ArticleFiles.
Import Sys Scanner.

(** What [fs.readdirSync] lists in a directory: the names, in the order
    the system gives them. *)
Class Listing := {
  entries : gmap string Node -> string -> list string
}.

(** The names listed are proper names, as those of a directory are. *)
Definition proper_listing `{Listing} : Prop :=
  forall files dir name, In name (entries files dir) -> PathShape.plain name = true.

(** [fs.existsSync(path)] *)
Definition existsSync (path : string) : M bool :=
  fun w => (Ok (match fs w !! path with Some _ => true | None => false end), w).

(** [fs.statSync(path)], [ENOENT] for a missing path. *)
Definition statSync (path : string) : M Node :=
  fun w =>
    match fs w !! path with
    | Some node => (Ok node, w)
    | None => (Throw (mkError "ENOENT" path), w)
    end.

Definition isFile (stat : Node) : bool :=
  match stat with File _ => true | Dir => false end.

Definition isDirectory (stat : Node) : bool :=
  match stat with File _ => false | Dir => true end.

(** [for (const x of xs) { state = body(state, x) }] with a body that may
    throw. *)
Fixpoint for_of {A S : Type} (body : S -> A -> M S) (xs : list A) (state : S) : M S :=
  match xs with
  | [] => ret state
  | x :: rest =>
      do state1 <- body state x;
      for_of body rest state1
  end.

Section WithListing.
Context `{Listing}.
Variable dirname : string.

(** [fs.readdirSync(dir)], [ENOENT] for a missing path and [ENOTDIR] for
    a file. *)
Definition readdirSync (dir : string) : M (list string) :=
  fun w =>
    match fs w !! dir with
    | Some Dir => (Ok (entries (fs w) dir), w)
    | Some (File _) => (Throw (mkError "ENOTDIR" dir), w)
    | None => (Throw (mkError "ENOENT" dir), w)
    end.

(** [fs.readdirSync(dir, { withFileTypes: true })]: each name with
    [entry.isDirectory()]. *)
Definition readdirSync_withFileTypes (dir : string) : M (list (string * bool)) :=
  fun w =>
    match readdirSync dir w with
    | (Ok names, w1) =>
        (Ok (map (fun name =>
                    (name, match fs w !! Path.join [dir; name] with
                           | Some Dir => true
                           | _ => false
                           end)) names), w1)
    | (Throw e, w1) => (Throw e, w1)
    end.

(** The body of [for (const file of files)]. *)
Definition scan_file (articleDir : string) (found : gset string * gmap string bool)
    (file : string) : M (gset string * gmap string bool) :=
  let '(locales, hasSubdirectory) := found in
  let filePath := Path.join [articleDir; file] in
  do stat <- statSync filePath;
  if isFile stat && (PathName.endsWith file ".md" || PathName.endsWith file ".mdx") then
    let locale := PathName.basename file (PathName.extname file) in
    ret ({[locale]} ∪ locales, <[locale := false]> hasSubdirectory)
  else if isDirectory stat then
    let indexPath := Path.join [filePath; "index.md"] in
    do indexed <- existsSync indexPath;
    if indexed then ret ({[file]} ∪ locales, <[file := true]> hasSubdirectory)
    else ret found
  else ret found.

(** The body of [for (const entry of entries)]. *)
Definition scan_entry (collection : ContentType) (dir : string)
    (articles : gmap string Article) (entry : string * bool) : M (gmap string Article) :=
  let '(name, entry_isDirectory) := entry in
  if negb entry_isDirectory then ret articles
  else
    let articleId := name in
    let articleDir := Path.join [dir; articleId] in
    do files <- readdirSync articleDir;
    do '(locales, hasSubdirectory) <- for_of (scan_file articleDir) files (∅, ∅);
    if (0 <? size locales)%nat then
      ret (<[articleId := {| id := articleId; type := collection; locales := locales;
                             hasSubdirectory := hasSubdirectory |}]> articles)
    else ret articles.

(** [console.warn] is recorded on the console like [console.log]. *)
Definition findArticles (collection : ContentType) : M (gmap string Article) :=
  let articles : gmap string Article := ∅ in
  let dir := Path.join [CONTENT_DIR dirname; type_name collection] in
  do present <- existsSync dir;
  if negb present then
    run console_log ("Directory not found: " +:+ dir);
    ret articles
  else
    do entries <- readdirSync_withFileTypes dir;
    for_of (scan_entry collection dir) entries articles.

End WithListing.

Section WithDirname.
Variable dirname : string.

Definition getArticlePath (article : Article) (locale : string) : M string :=
  let baseDir := Path.join [CONTENT_DIR dirname; type_name (type article); id article] in
  if get_truthy (hasSubdirectory article) locale then
    ret (Path.join [baseDir; locale; "index.md"])
  else
    let mdPath := Path.join [baseDir; locale +:+ ".md"] in
    let mdxPath := Path.join [baseDir; locale +:+ ".mdx"] in
    do md <- existsSync mdPath;
    if md then ret mdPath
    else
      do mdx <- existsSync mdxPath;
      if mdx then ret mdxPath
      else throw (mkError "Error" ("Article file not found: " +:+ id article +:+ " ("
                                   +:+ locale +:+ ")")).

End WithDirname.

End ArticleFiles.

(** ** src/pages/[...locale]/note/[...id]/graph.png.ts *)

Module OgImage.
Import Config Content.

Section Notes.
(** The types of a note's timestamp, series and tags are left open. *)
Variables Timestamp Series Tags : Type.

Record NoteData := {
  note_title : string;
  note_timestamp : Timestamp;
  note_series : Series;
  note_tags : Tags;
  draft : bool
}.

Record Note := { note_id : string; data : NoteData }.

Record Props := {
  props_title : string;
  props_timestamp : Timestamp;
  props_series : Series;
  props_tags : Tags
}.

Record StaticPath := { params : PathParams; props : Props }.

(** [getCollection("note", note => !note.data.draft)] over the notes of
    the site, then one path per note. *)
Definition getStaticPaths (cfg : SiteConfig) (collection : list Note) : list StaticPath :=
  let notes := List.filter (fun note => negb (draft (data note))) collection in
  map (fun note =>
         let generated := generatePathParams cfg (note_id note) in
         {| params := {| locale := locale generated; id := id generated |};
            props := {| props_title := note_title (data note);
                        props_timestamp := note_timestamp (data note);
                        props_series := note_series (data note);
                        props_tags := note_tags (data note) |} |})
      notes.

(** The argument of [graph(...)] in the [GET] handler. *)
Record GraphInput := {
  graph_locale : string;
  graph_type : string;
  graph_site : string;
  graph_author : string;
  graph_title : string;
  graph_timestamp : Timestamp;
  graph_series : Series;
  graph_tags : Tags
}.

(** [GET]: what the handler asks the image generator to draw. *)
Definition GET (cfg : SiteConfig) (route : StaticPath) : GraphInput :=
  {| graph_locale := Js.or_else (locale (params route)) (defaultLocale (i18n cfg));
     graph_type := "note";
     graph_site := title cfg;
     graph_author := author_name cfg;
     graph_title := props_title (props route);
     graph_timestamp := props_timestamp (props route);
     graph_series := props_series (props route);
     graph_tags := props_tags (props route) |}.

End Notes.

Arguments note_title {Timestamp Series Tags} _.
Arguments draft {Timestamp Series Tags} _.
Arguments note_id {Timestamp Series Tags} _.
Arguments data {Timestamp Series Tags} _.
Arguments props_title {Timestamp Series Tags} _.
Arguments params {Timestamp Series Tags} _.
Arguments props {Timestamp Series Tags} _.
Arguments getStaticPaths {Timestamp Series Tags} cfg collection.
Arguments graph_locale {Timestamp Series Tags} _.
Arguments graph_title {Timestamp Series Tags} _.
Arguments GET {Timestamp Series Tags} cfg route.

End OgImage.

(** ** scripts/lib/translator.ts and scripts/translate.ts: set-up *)

Module Setup.
Import Sys Scanner Translator.

(** [process.env], as far as the translation tool reads it. *)
Record Env := {
  TRANSLATE_API_KEY : option string;
  TRANSLATE_API_BASE_URL : option string;
  TRANSLATE_MODEL : option string
}.

(** [a || b] on optional strings. *)
Definition or_opt (a b : option string) : option string :=
  match a with
  | Some s => if Js.truthy_str s then a else b
  | None => b
  end.

(** [!v] on an optional string. *)
Definition falsy (v : option string) : bool :=
  match v with
  | Some s => negb (Js.truthy_str s)
  | None => true
  end.

Section WithOpenAI.
(** [new OpenAI({ apiKey, baseURL })]: the service reached with a key at
    a base URL. *)
Variable OpenAI : string -> string -> Client.
Variable env : Env.

Definition createTranslator (apiKey baseURL model : option string) : Result Translator :=
  let key := or_opt apiKey (TRANSLATE_API_KEY env) in
  let url := Js.or_else (or_opt baseURL (TRANSLATE_API_BASE_URL env))
                        "https://api.openai.com/v1" in
  let modelName := Js.or_else (or_opt model (TRANSLATE_MODEL env)) "gpt-4" in
  match key with
  | Some key =>
      if Js.truthy_str key then
        Ok {| client := OpenAI key url; Translator.model := modelName |}
      else Throw (mkError "Error" "Translation API key not found. Please set TRANSLATE_API_KEY in .env or pass it as an argument.")
  | None => Throw (mkError "Error" "Translation API key not found. Please set TRANSLATE_API_KEY in .env or pass it as an argument.")
  end.

(** The check at the top of the script: [process.exit(1)] without a key. *)
Definition key_configured : bool := negb (falsy (TRANSLATE_API_KEY env)).

End WithOpenAI.

(** [config.i18n.locales.filter(l => !article.locales.has(l))] *)
Definition availableTargets (cfg : Config.SiteConfig) (article : Article) : list string :=
  List.filter (fun l => negb (bool_decide (l ∈ locales article)))
              (Config.locales (Config.i18n cfg)).

End Setup.

(** ** More concrete instances *)

Module Sample.
Import Sys Scanner ArticleFiles.

(** A content directory with one note, [demo], holding [en.md], a
    directory [ja] with its [index.md], and a stray [notes.txt]; and a plain
    file [README.md] next to the article. *)
Definition disk : gmap string Node :=
  <["/repo/src/content/note" := Dir]>
  (<["/repo/src/content/note/README.md" := File "readme"]>
  (<["/repo/src/content/note/demo" := Dir]>
  (<["/repo/src/content/note/demo/en.md" := File "English"]>
  (<["/repo/src/content/note/demo/notes.txt" := File "todo"]>
  (<["/repo/src/content/note/demo/ja" := Dir]>
  (<["/repo/src/content/note/demo/ja/index.md" := File "Japanese"]> ∅)))))).

Definition disk_entries (files : gmap string Node) (dir : string) : list string :=
  if String.eqb dir "/repo/src/content/note" then ["README.md"; "demo"]
  else if String.eqb dir "/repo/src/content/note/demo" then ["en.md"; "ja"; "notes.txt"]
  else [].

#[export] Instance disk_listing : Listing := {| entries := disk_entries |}.

Definition disk_world : World := {| fs := disk; console := []; ncalls := 0 |}.

(** The articles the scan finds on that disk. *)
Definition disk_articles : gmap string Article :=
  match fst (findArticles "/repo/scripts/lib" note disk_world) with
  | Ok articles => articles
  | Throw _ => ∅
  end.

Definition disk_demo : Article :=
  {| id := "demo"; type := note; locales := {["en"; "ja"]};
     hasSubdirectory := <["en" := false]> (<["ja" := true]> ∅) |}.

(** A content directory whose article [odd] holds a file named [.md]. *)
Definition odd_disk : gmap string Node :=
  <["/repo/src/content/note" := Dir]>
  (<["/repo/src/content/note/odd" := Dir]>
  (<["/repo/src/content/note/odd/.md" := File "hidden"]> ∅)).

Definition odd_entries (files : gmap string Node) (dir : string) : list string :=
  if String.eqb dir "/repo/src/content/note" then ["odd"]
  else if String.eqb dir "/repo/src/content/note/odd" then [".md"]
  else [].

Definition odd_listing : Listing := {| entries := odd_entries |}.

Definition odd_world : World := {| fs := odd_disk; console := []; ncalls := 0 |}.

Definition odd_article : Article :=
  {| id := "odd"; type := note; locales := {[".md"]};
     hasSubdirectory := <[".md" := false]> ∅ |}.

(** An environment with a key and nothing else, and a client constructor
    that reaches a service which is down. *)
Definition env_with_key : Setup.Env :=
  {| Setup.TRANSLATE_API_KEY := Some "sk-test";
     Setup.TRANSLATE_API_BASE_URL := None;
     Setup.TRANSLATE_MODEL := None |}.

Definition unreachable (key url : string) : Translator.Client := Fixture.down.

End Sample.

(** ** Vocabulary for statements about runs *)

Module Shape.
Import Sys Translator.

(** The field is there and truthy: [translateArticle] translates it. *)
Definition present (data : gmap string Value) (key : string) : bool :=
  match data !! key with
  | Some v => truthy v
  | None => false
  end.

(** The regular files of two worlds are the same, contents included. *)
Definition same_files (w w' : World) : Prop :=
  forall path content, fs w' !! path = Some (File content) <-> fs w !! path = Some (File content).

(** The file a flat locale was read from: the locale with the extension
    [.md] or [.mdx], or a file named just [.md] or [.mdx], which has no
    extension and is its own locale. *)
Definition flat_name (file locale : string) : Prop :=
  file = locale +:+ ".md" \/ file = locale +:+ ".mdx"
  \/ (file = locale /\ (locale = ".md" \/ locale = ".mdx")).

(** What the scan recorded for an article agrees with the files of its
    directory: the locales are those with a storage shape; a directory
    shape stands for a directory holding an [index.md], a flat shape for a
    regular file named after the locale. *)
Definition recorded (files : gmap string Node) (articleDir : string)
    (locales : gset string) (hasSubdirectory : gmap string bool) : Prop :=
  dom hasSubdirectory = locales
  /\ (forall locale, hasSubdirectory !! locale = Some true ->
         files !! Path.join [articleDir; locale] = Some Dir
         /\ is_Some (files !! Path.join [Path.join [articleDir; locale]; "index.md"]))
  /\ (forall locale, hasSubdirectory !! locale = Some false ->
         exists file content,
           files !! Path.join [articleDir; file] = Some (File content)
           /\ flat_name file locale).

(** What the scan promises of every article it returns. *)
Definition scanned_well (files : gmap string Node) (collection : Scanner.ContentType) (dir : string)
    (articles : gmap string Scanner.Article) : Prop :=
  forall articleId article,
    articles !! articleId = Some article ->
    Scanner.id article = articleId /\ Scanner.type article = collection
    /\ Scanner.locales article <> ∅
    /\ files !! Path.join [dir; articleId] = Some Dir
    /\ recorded files (Path.join [dir; articleId]) (Scanner.locales article) (Scanner.hasSubdirectory article).

End Shape.

(** * Properties *)

(** ** Sanity checks on concrete inputs *)

Example split_nested : Js.split "category/my-post/zh-cn" = ["category"; "my-post"; "zh-cn"].
Proof. reflexivity. Qed.

Example split_empty : Js.split "" = [""].
Proof. reflexivity. Qed.

Example params_nested :
  Content.generatePathParams Config.config "category/my-post/en"
  = {| Content.locale := Some "en"; Content.id := "category/my-post" |}.
Proof. reflexivity. Qed.

Example params_default :
  Content.generatePathParams Config.config "my-post/zh-cn"
  = {| Content.locale := None; Content.id := "my-post" |}.
Proof. reflexivity. Qed.

Example trim_ex : Js.trim (Js.nl +:+ "  héllo　") = "héllo".
Proof. reflexivity. Qed.

Example join_ex1 : Path.join ["/a/scripts/lib"; "../../src/content"] = "/a/src/content".
Proof. reflexivity. Qed.

Example join_ex2 : Path.join ["a"; ""; "../../.."; "b/"] = "../../b/".
Proof. reflexivity. Qed.

Example join_ex3 : Path.join ["/"; ".."; "x"; "."] = "/x".
Proof. reflexivity. Qed.

(** ** Splitting and joining *)

Section SplitJoin.
Import Js.

Lemma split_not_nil (s : string) : split s <> [].
Proof.
  destruct s as [|c s]; simpl; [discriminate|].
  destruct (Ascii.eqb c "/"); [discriminate|].
  destruct (split s); discriminate.
Qed.

Lemma split_cons (c : ascii) (s : string) :
  Ascii.eqb c "/" = false ->
  exists seg segs, split s = seg :: segs /\ split (String c s) = String c seg :: segs.
Proof.
  intros Hc. simpl. rewrite Hc.
  destruct (split s) as [|seg segs] eqn:E.
  - exfalso. exact (split_not_nil s E).
  - exists seg, segs. split; reflexivity.
Qed.

Lemma split_app (a b : string) :
  split (a +:+ "/" +:+ b) = split a ++ split b.
Proof.
  induction a as [|c a IH]; [reflexivity|].
  destruct (Ascii.eqb c "/") eqn:Hc.
  - simpl. rewrite Hc. simpl. f_equal. exact IH.
  - destruct (split_cons c a Hc) as (seg & segs & E1 & E2).
    rewrite E2. change (String c a +:+ "/" +:+ b) with (String c (a +:+ "/" +:+ b)).
    simpl. rewrite Hc, IH, E1. reflexivity.
Qed.

Lemma split_no_slash (s : string) : no_slash s = true -> split s = [s].
Proof.
  induction s as [|c s IH]; [reflexivity|].
  simpl. intros H. apply andb_prop in H as [Hc Hs].
  apply negb_true_iff in Hc. rewrite Hc, (IH Hs). reflexivity.
Qed.

Lemma split_segments_no_slash (s : string) :
  Forall (fun seg => no_slash seg = true) (split s).
Proof.
  induction s as [|c s IH]; simpl.
  - repeat constructor.
  - destruct (Ascii.eqb c "/") eqn:Hc.
    + constructor; [reflexivity | exact IH].
    + destruct (split s) as [|seg segs]; [repeat constructor; simpl; now rewrite Hc|].
      inversion IH as [|? ? Hseg Hsegs]; subst.
      constructor; [simpl; now rewrite Hc, Hseg | exact Hsegs].
Qed.

Lemma join_cons (seg : string) (segs : list string) :
  segs <> [] -> join (seg :: segs) = seg +:+ "/" +:+ join segs.
Proof. destruct segs; [congruence | reflexivity]. Qed.

Lemma join_split (s : string) : join (split s) = s.
Proof.
  induction s as [|c s IH]; [reflexivity|].
  destruct (Ascii.eqb c "/") eqn:Hc.
  - simpl. rewrite Hc. apply Ascii.eqb_eq in Hc. subst c.
    rewrite join_cons by apply split_not_nil. rewrite IH. reflexivity.
  - destruct (split_cons c s Hc) as (seg & segs & E1 & E2).
    rewrite E2. rewrite E1 in IH. rewrite <- IH.
    destruct segs; reflexivity.
Qed.

Lemma app_cons (c : ascii) (a b : string) : String c a +:+ b = String c (a +:+ b).
Proof. reflexivity. Qed.

Lemma app_nil_l (a : string) : "" +:+ a = a.
Proof. reflexivity. Qed.

Lemma app_nil_r (a : string) : a +:+ "" = a.
Proof. induction a as [|x a IH]; [reflexivity | now rewrite app_cons, IH]. Qed.

Lemma app_assoc_str (a b c : string) : (a +:+ b) +:+ c = a +:+ (b +:+ c).
Proof. induction a as [|x a IH]; [reflexivity | now rewrite !app_cons, IH]. Qed.

Lemma join_snoc (segs : list string) (seg : string) :
  segs <> [] -> join (segs ++ [seg]) = join segs +:+ "/" +:+ seg.
Proof.
  induction segs as [|x segs IH]; [congruence|]. intros _.
  destruct segs as [|y segs]; [reflexivity|].
  change ((x :: y :: segs) ++ [seg]) with (x :: ((y :: segs) ++ [seg])).
  rewrite join_cons by (simpl; discriminate).
  rewrite IH by discriminate.
  rewrite (join_cons x (y :: segs)) by discriminate.
  now rewrite !app_assoc_str.
Qed.

(** An identifier of two segments or more is its path, the separator
    and its final segment. *)
Lemma two_segments (id : string) :
  2 <= length (split id) ->
  exists path seg,
    id = path +:+ "/" +:+ seg /\ no_slash seg = true
    /\ split id = split path ++ [seg].
Proof.
  intros Hlen.
  destruct (split id) as [|x segs] eqn:E using rev_ind; [simpl in Hlen; lia|].
  clear IHsegs. rename x into seg.
  assert (Hne : segs <> []).
  { destruct segs; [simpl in Hlen; lia | discriminate]. }
  pose proof (split_segments_no_slash id) as Hall. rewrite E in Hall.
  apply Forall_app in Hall as [_ Hseg]. inversion Hseg as [|? ? Hs _]; subst.
  exists (join segs), seg.
  assert (Hid : id = join segs +:+ "/" +:+ seg).
  { rewrite <- (join_split id), E. now apply join_snoc. }
  split; [exact Hid|]. split; [exact Hs|].
  rewrite Hid, split_app, (split_no_slash seg Hs) in E.
  apply app_inj_tail in E as [E _]. now rewrite E.
Qed.

End SplitJoin.

(** ** The locale/path resolver *)

Section Resolver.
Import Config Content.

Lemma pop_split_app (path seg : string) :
  Js.no_slash seg = true -> Js.pop (Js.split (path +:+ "/" +:+ seg)) = Some seg.
Proof.
  intros Hseg. unfold Js.pop.
  rewrite split_app, (split_no_slash seg Hseg). apply last_snoc.
Qed.

Lemma or_else_nonempty (s d : string) : s <> "" -> Js.or_else (Some s) d = s.
Proof. destruct s; [congruence | reflexivity]. Qed.

Lemma extractLocale_final (cfg : SiteConfig) (path seg : string) :
  Js.no_slash seg = true -> seg <> "" ->
  extractLocaleFromId cfg (path +:+ "/" +:+ seg) = seg.
Proof.
  intros Hseg Hne. unfold extractLocaleFromId.
  rewrite pop_split_app by exact Hseg. now apply or_else_nonempty.
Qed.

Lemma extractPath_final (cfg : SiteConfig) (path seg : string) :
  monolocale cfg = false -> Js.no_slash seg = true ->
  extractPathFromId cfg (path +:+ "/" +:+ seg) = path.
Proof.
  intros Hmulti Hseg. unfold extractPathFromId, Js.slice_0_m1. rewrite Hmulti.
  rewrite split_app, (split_no_slash seg Hseg), removelast_last.
  apply join_split.
Qed.

Lemma extractLocale_empty_final (cfg : SiteConfig) (id : string) :
  Js.pop (Js.split id) = Some "" ->
  extractLocaleFromId cfg id = defaultLocale (i18n cfg).
Proof. intros Hpop. unfold extractLocaleFromId. now rewrite Hpop. Qed.

(** C5, as amended.  In multi-locale mode, every identifier of two
    segments or more is [path/seg] with [seg], its final segment, free of
    separators.  [extractPathFromId] returns [path], and
    [generatePathParams] returns [path] together with the locale that
    [extractLocaleFromId] returns, absent when that locale is the default
    locale and explicit otherwise.  When the final segment is not empty,
    [extractLocaleFromId] returns it, so the locale field is [seg] unless
    [seg] is the default locale. *)
Theorem resolver_splits_final_segment (cfg : SiteConfig) (id : string) :
  monolocale cfg = false ->
  2 <= length (Js.split id) ->
  exists path seg,
    id = path +:+ "/" +:+ seg /\ Js.no_slash seg = true
    /\ Js.pop (Js.split id) = Some seg
    /\ extractPathFromId cfg id = path
    /\ generatePathParams cfg id
       = {| locale := if String.eqb (extractLocaleFromId cfg id) (defaultLocale (i18n cfg))
                      then None else Some (extractLocaleFromId cfg id);
            id := path |}
    /\ (seg <> "" ->
        extractLocaleFromId cfg id = seg
        /\ generatePathParams cfg id
           = {| locale := if String.eqb seg (defaultLocale (i18n cfg)) then None else Some seg;
                id := path |}).
Proof.
  intros Hmulti Hlen.
  destruct (two_segments id Hlen) as (path & seg & Hid & Hseg & Hsplit).
  exists path, seg. subst id.
  pose proof (extractPath_final cfg path seg Hmulti Hseg) as Hpath.
  assert (Hparams : generatePathParams cfg (path +:+ "/" +:+ seg)
                    = {| locale := if String.eqb (extractLocaleFromId cfg (path +:+ "/" +:+ seg))
                                                 (defaultLocale (i18n cfg))
                                   then None
                                   else Some (extractLocaleFromId cfg (path +:+ "/" +:+ seg));
                         id := path |}).
  { unfold generatePathParams. rewrite Hmulti, Hpath. reflexivity. }
  split; [reflexivity|]. split; [exact Hseg|].
  split; [now apply pop_split_app|]. split; [exact Hpath|]. split; [exact Hparams|].
  intros Hne.
  pose proof (extractLocale_final cfg path seg Hseg Hne) as Hlocale.
  split; [exact Hlocale|]. now rewrite Hparams, Hlocale.
Qed.

Lemma resolver_splits_final_segment_witness :
  exists path seg,
    "category/my-post/en" = path +:+ "/" +:+ seg /\ Js.no_slash seg = true
    /\ Js.pop (Js.split "category/my-post/en") = Some seg
    /\ extractPathFromId config "category/my-post/en" = path
    /\ generatePathParams config "category/my-post/en"
       = {| locale := if String.eqb (extractLocaleFromId config "category/my-post/en")
                                    (defaultLocale (i18n config))
                      then None else Some (extractLocaleFromId config "category/my-post/en");
            id := path |}
    /\ (seg <> "" ->
        extractLocaleFromId config "category/my-post/en" = seg
        /\ generatePathParams config "category/my-post/en"
           = {| locale := if String.eqb seg (defaultLocale (i18n config)) then None else Some seg;
                id := path |}).
Proof.
  apply (resolver_splits_final_segment config "category/my-post/en").
  - reflexivity.
  - simpl. lia.
Defined.

(** The path half of C5 on an identifier whose final segment is empty. *)
Example path_of_empty_final_segment :
  extractPathFromId config "category/my-post/" = "category/my-post"
  /\ generatePathParams config "category/my-post/"
     = {| locale := None; id := "category/my-post" |}.
Proof. split; reflexivity. Qed.

(** C5 as stated fails: ["a/"] has the two segments ["a"] and [""], and
    [extractLocaleFromId] returns the default locale, not the final
    segment. *)
Lemma final_segment_counterexample :
  ~ (forall (cfg : SiteConfig) (id : string),
        monolocale cfg = false ->
        2 <= length (Js.split id) ->
        Js.pop (Js.split id) = Some (extractLocaleFromId cfg id)).
Proof.
  intros H. specialize (H config "a/" eq_refl).
  assert (Hlen : 2 <= length (Js.split "a/")) by (simpl; lia).
  specialize (H Hlen). discriminate H.
Qed.

(** C6.  In single-locale mode [generatePathParams] returns an absent
    locale with the identifier unchanged, and [extractPathFromId] returns
    the identifier unchanged. *)
Theorem monolocale_identity (cfg : SiteConfig) (id : string) :
  monolocale cfg = true ->
  generatePathParams cfg id = {| locale := None; id := id |}
  /\ extractPathFromId cfg id = id.
Proof.
  intros Hmono. unfold generatePathParams, extractPathFromId.
  rewrite Hmono. split; reflexivity.
Qed.

Lemma monolocale_identity_witness :
  generatePathParams Fixture.config_en_only "category/my-post"
  = {| locale := None; id := "category/my-post" |}
  /\ extractPathFromId Fixture.config_en_only "category/my-post" = "category/my-post".
Proof. apply (monolocale_identity Fixture.config_en_only "category/my-post"). reflexivity. Defined.

(** C7.  The four functions are total functions of their string
    arguments: no operation in their bodies can throw ([split] never
    yields the empty array, [pop] on it would give [undefined], which
    [||] replaces).  For every identifier [extractLocaleFromId] returns
    either the non-empty final segment or the configured default, and for
    the empty identifier each function returns its default. *)
Theorem resolver_total (cfg : SiteConfig) (id locale : string) :
  (extractLocaleFromId cfg id = defaultLocale (i18n cfg)
   \/ (extractLocaleFromId cfg id <> ""
       /\ Js.pop (Js.split id) = Some (extractLocaleFromId cfg id)))
  /\ (exists path, extractPathFromId cfg id = path)
  /\ (exists b, isContentForLocale cfg id locale = b)
  /\ (exists params, generatePathParams cfg id = params)
  /\ extractLocaleFromId cfg "" = defaultLocale (i18n cfg)
  /\ extractPathFromId cfg "" = ""
  /\ isContentForLocale cfg "" locale
     = (monolocale cfg || String.eqb (defaultLocale (i18n cfg)) locale)
  /\ generatePathParams cfg "" = {| locale := None; id := "" |}.
Proof.
  assert (Hpath : extractPathFromId cfg "" = "").
  { unfold extractPathFromId. destruct (monolocale cfg); reflexivity. }
  split; [|split; [|split; [|split; [|split; [|split; [|split]]]]]].
  - unfold extractLocaleFromId, Js.pop.
    destruct (last (Js.split id)) as [[|c seg]|] eqn:E; simpl.
    + now left.
    + right. split; [discriminate | reflexivity].
    + now left.
  - eexists; reflexivity.
  - eexists; reflexivity.
  - eexists; reflexivity.
  - reflexivity.
  - exact Hpath.
  - unfold isContentForLocale. destruct (monolocale cfg); reflexivity.
  - unfold generatePathParams. destruct (monolocale cfg) eqn:Hm; [reflexivity|].
    rewrite Hpath.
    change (extractLocaleFromId cfg "") with (defaultLocale (i18n cfg)).
    now rewrite String.eqb_refl.
Qed.

(** C10.  In multi-locale mode, for the empty identifier and for every
    identifier ending with the separator, the final segment is empty,
    [extractLocaleFromId] returns the configured default locale, and
    [generatePathParams] gives the identifier an absent locale. *)
Theorem empty_final_segment_is_default (cfg : SiteConfig) (id : string) :
  monolocale cfg = false ->
  (id = "" \/ exists path, id = path +:+ "/") ->
  Js.pop (Js.split id) = Some ""
  /\ extractLocaleFromId cfg id = defaultLocale (i18n cfg)
  /\ generatePathParams cfg id
     = {| locale := None; id := extractPathFromId cfg id |}.
Proof.
  intros Hmulti Hid.
  assert (Hpop : Js.pop (Js.split id) = Some "").
  { destruct Hid as [-> | [path ->]]; [reflexivity|].
    now apply (pop_split_app path ""). }
  split; [exact Hpop|].
  pose proof (extractLocale_empty_final cfg id Hpop) as Hloc.
  split; [exact Hloc|].
  unfold generatePathParams. rewrite Hmulti, Hloc, String.eqb_refl. reflexivity.
Qed.

Lemma empty_final_segment_is_default_witness :
  Js.pop (Js.split "my-post/") = Some ""
  /\ extractLocaleFromId config "my-post/" = "zh-cn"
  /\ generatePathParams config "my-post/"
     = {| locale := None; id := extractPathFromId config "my-post/" |}.
Proof.
  apply (empty_final_segment_is_default config "my-post/").
  - reflexivity.
  - right. exists "my-post". reflexivity.
Defined.

End Resolver.

(** ** Running computations *)

Section Running.
Import Sys.

Lemma bind_Ok {A B} (m : M A) (k : A -> M B) (w w1 : World) (a : A) :
  m w = (Ok a, w1) -> bind m k w = k a w1.
Proof. intros Hm. unfold bind. now rewrite Hm. Qed.

Lemma bind_Throw {A B} (m : M A) (k : A -> M B) (w w1 : World) (e : Error) :
  m w = (Throw e, w1) -> bind m k w = (Throw e, w1).
Proof. intros Hm. unfold bind. now rewrite Hm. Qed.

Lemma try_Ok {A} (m : M A) (handler : Error -> M A) (w w1 : World) (a : A) :
  m w = (Ok a, w1) -> try_catch m handler w = (Ok a, w1).
Proof. intros Hm. unfold try_catch. now rewrite Hm. Qed.

Lemma try_Throw {A} (m : M A) (handler : Error -> M A) (w w1 : World) (e : Error) :
  m w = (Throw e, w1) -> try_catch m handler w = handler e w1.
Proof. intros Hm. unfold try_catch. now rewrite Hm. Qed.

Lemma console_log_run (msg : string) (w : World) :
  console_log msg w = (Ok tt, logged (Log msg) w).
Proof. reflexivity. Qed.

Lemma console_error_run (msg : string) (e : Error) (w : World) :
  console_error msg e w = (Ok tt, logged (LogError msg e) w).
Proof. reflexivity. Qed.

End Running.

(** ** The translator *)

Section TranslatorFacts.
Import Sys Translator Shape.

Lemma translateText_returns (tr : Translator) (text : Value) (targetLocale : string) (w : World) :
  exists w',
    translateText tr text targetLocale w
    = (Ok (match answer (client tr (ncalls w) (text_request tr text targetLocale)) with
           | Some translated => VStr translated
           | None => text
           end), w')
    /\ fs w' = fs w /\ ncalls w' = S (ncalls w).
Proof.
  unfold translateText, try_catch, bind, create, first_content, answer.
  destruct (client tr (ncalls w) (text_request tr text targetLocale))
    as [e | [|[content|] rest]]; simpl.
  - eexists; split; [reflexivity | split; reflexivity].
  - eexists; split; [reflexivity | split; reflexivity].
  - destruct (Js.truthy_str (Js.trim content));
      eexists; (split; [reflexivity | split; reflexivity]).
  - eexists; split; [reflexivity | split; reflexivity].
Qed.

Lemma translateMarkdown_result (tr : Translator) (content sourceLocale targetLocale : string)
    (w : World) :
  exists w',
    fs w' = fs w /\ ncalls w' = S (ncalls w)
    /\ match answer (client tr (ncalls w)
                       (markdown_request tr content sourceLocale targetLocale)) with
       | Some translated =>
           translateMarkdown tr content sourceLocale targetLocale w = (Ok translated, w')
       | None =>
           exists e, translateMarkdown tr content sourceLocale targetLocale w = (Throw e, w')
       end.
Proof.
  unfold translateMarkdown, try_catch, bind, create, first_content, answer.
  destruct (client tr (ncalls w) (markdown_request tr content sourceLocale targetLocale))
    as [e | [|[translated|] rest]]; simpl.
  - eexists; split; [|split]; [| |eexists; reflexivity]; reflexivity.
  - eexists; split; [|split]; [| |eexists; reflexivity]; reflexivity.
  - destruct (Js.truthy_str (Js.trim translated)); simpl.
    + eexists; split; [|split]; [| |reflexivity]; reflexivity.
    + eexists; split; [|split]; [| |eexists; reflexivity]; reflexivity.
  - eexists; split; [|split]; [| |eexists; reflexivity]; reflexivity.
Qed.

Context `{GrayMatter}.

Lemma translateField_returns (tr : Translator) (key : string)
    (data translatedData : gmap string Value) (targetLocale : string) (w : World) :
  exists translatedData' w',
    translateField tr key data translatedData targetLocale w = (Ok translatedData', w')
    /\ fs w' = fs w
    /\ (forall k, k <> key -> translatedData' !! k = translatedData !! k)
    /\ (translatedData !! key = data !! key ->
        dom translatedData' = dom translatedData
        /\ ((forall v n, data !! key = Some v ->
                         answer (client tr n (text_request tr v targetLocale)) = None) ->
            translatedData' !! key = data !! key)).
Proof.
  unfold translateField.
  destruct (data !! key) as [v|] eqn:Hv.
  2:{ exists translatedData, w. repeat split; auto. }
  destruct (truthy v).
  2:{ exists translatedData, w. repeat split; auto. }
  rewrite (bind_Ok _ _ _ _ _ (console_log_run _ w)).
  match goal with
  | |- context [logged ?entry w] =>
      destruct (translateText_returns tr v targetLocale (logged entry w))
        as (w' & Ht & Hfs & _)
  end.
  rewrite (bind_Ok _ _ _ _ _ Ht).
  eexists _, w'. split; [reflexivity|]. split; [exact Hfs|]. split.
  - intros k Hk. now rewrite lookup_insert_ne.
  - intros Hsame. split.
    + apply dom_insert_lookup_L. rewrite Hsame. eauto.
    + intros Hfail. rewrite lookup_insert_eq. simpl.
      now rewrite (Hfail v _ eq_refl).
Qed.

(** What [translateArticle] does once the source has been parsed: the
    two fields are translated, then the body; the outcome is decided by
    the answer to the body request. *)
Lemma translateArticle_parsed (cfg : Config.SiteConfig) (tr : Translator)
    (sourceContent collection articleId sourceLocale targetLocale : string)
    (data : gmap string Value) (content : string) (w : World) :
  matter sourceContent = Ok (data, content) ->
  exists translatedData w1 w2,
    fs w2 = fs w
    /\ dom translatedData = dom data
    /\ (forall k, k <> "title" -> k <> "description" -> translatedData !! k = data !! k)
    /\ (forall key, key = "title" \/ key = "description" ->
          (forall v n, data !! key = Some v ->
                       answer (client tr n (text_request tr v targetLocale)) = None) ->
          translatedData !! key = data !! key)
    /\ match answer (client tr (ncalls w1)
                       (markdown_request tr content sourceLocale targetLocale)) with
       | Some translated =>
           translateArticle cfg tr sourceContent collection articleId sourceLocale targetLocale w
           = (Ok (matter_stringify
                    (generateWarningBox cfg collection articleId sourceLocale targetLocale
                     +:+ translated) translatedData), w2)
       | None =>
           exists e,
             translateArticle cfg tr sourceContent collection articleId sourceLocale
                              targetLocale w = (Throw e, w2)
       end.
Proof.
  intros Hparse.
  destruct (translateField_returns tr "title" data data targetLocale w)
    as (td1 & wa & Ht & Hfsa & Hkeep1 & Hsame1).
  destruct (Hsame1 eq_refl) as [Hdom1 Hfail1].
  assert (Hdesc : td1 !! "description" = data !! "description")
    by (apply Hkeep1; discriminate).
  destruct (translateField_returns tr "description" data td1 targetLocale wa)
    as (td2 & wb & Hd & Hfsb & Hkeep2 & Hsame2).
  destruct (Hsame2 Hdesc) as [Hdom2 Hfail2].
  pose (wc := logged (Log ("  Translating content (" +:+ Js.show_nat (Js.length16 content)
                           +:+ " characters)...")) wb).
  destruct (translateMarkdown_result tr content sourceLocale targetLocale wc)
    as (w2 & Hfs2 & _ & Hbody).
  assert (Hrun :
            translateArticle cfg tr sourceContent collection articleId sourceLocale
                             targetLocale w
            = bind (translateMarkdown tr content sourceLocale targetLocale)
                   (fun translatedContent =>
                      ret (matter_stringify
                             (generateWarningBox cfg collection articleId sourceLocale
                                                 targetLocale +:+ translatedContent) td2))
                   wc).
  { unfold translateArticle.
    rewrite (bind_Ok _ _ w w _ (f_equal (fun r => (r, w)) Hparse)).
    cbv beta iota zeta.
    rewrite (bind_Ok _ _ _ _ _ Ht), (bind_Ok _ _ _ _ _ Hd).
    rewrite (bind_Ok _ _ _ _ _ (console_log_run _ wb)). reflexivity. }
  exists td2, wc, w2.
  split; [now rewrite Hfs2, <- Hfsa, <- Hfsb|].
  split; [now rewrite Hdom2, Hdom1|].
  split; [intros k Ht' Hd'; now rewrite Hkeep2, Hkeep1|].
  split.
  { intros key [-> | ->] Hfail.
    - rewrite Hkeep2 by discriminate. now apply Hfail1.
    - now apply Hfail2. }
  destruct (answer _) as [translated|].
  - rewrite Hrun. now rewrite (bind_Ok _ _ _ _ _ Hbody).
  - destruct Hbody as [e He]. exists e. rewrite Hrun.
    now rewrite (bind_Throw _ _ _ _ _ He).
Qed.

Lemma translateArticle_unparsed (cfg : Config.SiteConfig) (tr : Translator)
    (sourceContent collection articleId sourceLocale targetLocale : string)
    (e : Error) (w : World) :
  matter sourceContent = Throw e ->
  translateArticle cfg tr sourceContent collection articleId sourceLocale targetLocale w
  = (Throw e, w).
Proof.
  intros Hparse. unfold translateArticle.
  now rewrite (bind_Throw _ _ w w _ (f_equal (fun r => (r, w)) Hparse)).
Qed.

Lemma translateArticle_keeps_files (cfg : Config.SiteConfig) (tr : Translator)
    (sourceContent collection articleId sourceLocale targetLocale : string) (w : World) :
  fs (snd (translateArticle cfg tr sourceContent collection articleId sourceLocale
                            targetLocale w)) = fs w.
Proof.
  destruct (matter sourceContent) as [[data content]|e] eqn:Hparse.
  - destruct (translateArticle_parsed cfg tr sourceContent collection articleId sourceLocale
                targetLocale data content w Hparse) as (td & w1 & w2 & Hfs & _ & _ & _ & Hres).
    destruct (answer _); [now rewrite Hres | destruct Hres as [e ->]; exact Hfs].
  - now rewrite (translateArticle_unparsed _ _ _ _ _ _ _ e w Hparse).
Qed.

Lemma translateField_exact (tr : Translator) (key : string)
    (data translatedData : gmap string Value) (targetLocale : string) (w : World) :
  exists w',
    fs w' = fs w
    /\ ncalls w' = (ncalls w + if present data key then 1 else 0)%nat
    /\ translateField tr key data translatedData targetLocale w
       = (Ok (match data !! key with
              | Some v =>
                  if truthy v then
                    <[key := match answer (client tr (ncalls w)
                                             (text_request tr v targetLocale)) with
                             | Some translated => VStr translated
                             | None => v
                             end]> translatedData
                  else translatedData
              | None => translatedData
              end), w').
Proof.
  unfold translateField, present.
  destruct (data !! key) as [v|].
  2:{ exists w. repeat split; auto with arith. }
  destruct (truthy v).
  2:{ exists w. repeat split; auto with arith. }
  rewrite (bind_Ok _ _ _ _ _ (console_log_run _ w)).
  match goal with
  | |- context [logged ?entry w] =>
      destruct (translateText_returns tr v targetLocale (logged entry w))
        as (w' & Ht & Hfs & Hn)
  end.
  exists w'. split; [exact Hfs|]. split; [simpl in Hn; lia|].
  now rewrite (bind_Ok _ _ _ _ _ Ht).
Qed.

(** The run of [translateArticle] on a parsed source, step by step. *)
Lemma translateArticle_steps (cfg : Config.SiteConfig) (tr : Translator)
    (sourceContent collection articleId sourceLocale targetLocale : string)
    (data : gmap string Value) (content : string) (w : World) :
  matter sourceContent = Ok (data, content) ->
  exists td1 wa td2 wb,
    translateField tr "title" data data targetLocale w = (Ok td1, wa)
    /\ translateField tr "description" data td1 targetLocale wa = (Ok td2, wb)
    /\ fs wb = fs w
    /\ ncalls wb = (ncalls w + (if present data "title" then 1 else 0)
                    + (if present data "description" then 1 else 0))%nat
    /\ translateArticle cfg tr sourceContent collection articleId sourceLocale targetLocale w
       = bind (translateMarkdown tr content sourceLocale targetLocale)
              (fun translatedContent =>
                 ret (matter_stringify
                        (generateWarningBox cfg collection articleId sourceLocale targetLocale
                         +:+ translatedContent) td2))
              (logged (Log ("  Translating content (" +:+ Js.show_nat (Js.length16 content)
                            +:+ " characters)...")) wb).
Proof.
  intros Hparse.
  destruct (translateField_exact tr "title" data data targetLocale w)
    as (wa & Hfsa & Hna & Ht).
  match type of Ht with
  | _ = (Ok ?td, _) => set (td1 := td) in *
  end.
  destruct (translateField_exact tr "description" data td1 targetLocale wa)
    as (wb & Hfsb & Hnb & Hd).
  eexists td1, wa, _, wb. split; [exact Ht|]. split; [exact Hd|].
  split; [now rewrite Hfsb|]. split; [lia|].
  unfold translateArticle.
  rewrite (bind_Ok _ _ w w _ (f_equal (fun r => (r, w)) Hparse)).
  cbv beta iota zeta.
  rewrite (bind_Ok _ _ _ _ _ Ht), (bind_Ok _ _ _ _ _ Hd).
  now rewrite (bind_Ok _ _ _ _ _ (console_log_run _ wb)).
Qed.

(** The outcome of [translateArticle] on a parsed source is decided by
    the answer to the body request, the last one it sends. *)
Lemma translateArticle_outcome (cfg : Config.SiteConfig) (tr : Translator)
    (sourceContent collection articleId sourceLocale targetLocale : string)
    (data : gmap string Value) (content : string) (w : World) :
  matter sourceContent = Ok (data, content) ->
  exists translatedData w',
    fs w' = fs w
    /\ dom translatedData = dom data
    /\ match answer (client tr (ncalls w + (if present data "title" then 1 else 0)
                                + (if present data "description" then 1 else 0))%nat
                       (markdown_request tr content sourceLocale targetLocale)) with
       | Some translated =>
           translateArticle cfg tr sourceContent collection articleId sourceLocale targetLocale w
           = (Ok (matter_stringify
                    (generateWarningBox cfg collection articleId sourceLocale targetLocale
                     +:+ translated) translatedData), w')
       | None =>
           exists e,
             translateArticle cfg tr sourceContent collection articleId sourceLocale
                              targetLocale w = (Throw e, w')
       end.
Proof.
  intros Hparse.
  destruct (translateArticle_steps cfg tr sourceContent collection articleId sourceLocale
              targetLocale data content w Hparse)
    as (td1 & wa & td2 & wb & Ht & Hd & Hfsb & Hn & Hrun).
  destruct (translateField_returns tr "title" data data targetLocale w)
    as (td1' & wa' & Ht' & _ & Hkeep1 & Hsame1).
  rewrite Ht in Ht'. injection Ht' as <- <-.
  destruct (Hsame1 eq_refl) as [Hdom1 _].
  destruct (translateField_returns tr "description" data td1 targetLocale wa)
    as (td2' & wb' & Hd' & _ & _ & Hsame2).
  rewrite Hd in Hd'. injection Hd' as <- <-.
  assert (Hdesc : td1 !! "description" = data !! "description")
    by (apply Hkeep1; discriminate).
  destruct (Hsame2 Hdesc) as [Hdom2 _].
  match type of Hrun with
  | _ = bind _ _ ?wc =>
      destruct (translateMarkdown_result tr content sourceLocale targetLocale wc)
        as (w2 & Hfs2 & _ & Hres)
  end.
  change (ncalls (logged _ wb)) with (ncalls wb) in Hres.
  change (fs (logged _ wb)) with (fs wb) in Hfs2.
  rewrite Hn in Hres.
  exists td2, w2. split; [now rewrite Hfs2|]. split; [now rewrite Hdom2|].
  destruct (answer _) as [translated|].
  - rewrite Hrun. now rewrite (bind_Ok _ _ _ _ _ Hres).
  - destruct Hres as [e He]. exists e. rewrite Hrun. now rewrite (bind_Throw _ _ _ _ _ He).
Qed.

End TranslatorFacts.

Section TranslatorClaims.
Import Sys Translator Shape.
Context `{GrayMatter}.

(** C3.  [translateText] returns for every input and never throws; when
    the request is rejected or its response is malformed, [null] or
    blank, the value returned is the input text.  In [translateArticle],
    when the request sent for the title (or for the description) fails and
    the body request is answered, the article is produced and that field of
    the written frontmatter equals the source value.  The requests are the
    ones this call sends: the title goes first, the description after it,
    the body last, each counted from the requests sent before the call. *)
Theorem translateText_falls_back (tr : Translator) (targetLocale : string) :
  (forall (text : Value) (w : World),
      exists v w',
        translateText tr text targetLocale w = (Ok v, w')
        /\ fs w' = fs w
        /\ (answer (client tr (ncalls w) (text_request tr text targetLocale)) = None ->
            v = text))
  /\ (forall (cfg : Config.SiteConfig)
             (sourceContent collection articleId sourceLocale key : string)
             (data : gmap string Value) (content : string) (w : World),
         let title_calls := if present data "title" then 1 else 0 in
         let description_calls := if present data "description" then 1 else 0 in
         matter sourceContent = Ok (data, content) ->
         key = "title" \/ key = "description" ->
         (forall v, data !! key = Some v ->
                    answer (client tr (ncalls w + if String.eqb key "title" then 0
                                                  else title_calls)
                              (text_request tr v targetLocale)) = None) ->
         answer (client tr (ncalls w + title_calls + description_calls)
                   (markdown_request tr content sourceLocale targetLocale)) <> None ->
         exists translatedData translated w',
           translateArticle cfg tr sourceContent collection articleId sourceLocale
                            targetLocale w
           = (Ok (matter_stringify
                    (generateWarningBox cfg collection articleId sourceLocale targetLocale
                     +:+ translated) translatedData), w')
           /\ translatedData !! key = data !! key)%nat.
Proof.
  split.
  - intros text w.
    destruct (translateText_returns tr text targetLocale w) as (w' & Ht & Hfs & _).
    eexists _, w'. split; [exact Ht|]. split; [exact Hfs|].
    intros Hnone. now rewrite Hnone.
  - intros cfg sourceContent collection articleId sourceLocale key data content w
           title_calls description_calls Hparse Hkey Hfield Hbody.
    destruct (translateArticle_steps cfg tr sourceContent collection articleId sourceLocale
                targetLocale data content w Hparse)
      as (td1 & wa & td2 & wb & Ht & Hd & _ & Hn & Hrun).
    destruct (translateField_exact tr "title" data data targetLocale w)
      as (wa' & _ & Hna & Ht').
    rewrite Ht in Ht'. injection Ht' as Htd1 <-.
    destruct (translateField_exact tr "description" data td1 targetLocale wa)
      as (wb' & _ & _ & Hd').
    rewrite Hd in Hd'. injection Hd' as Htd2 _.
    match type of Hrun with
    | _ = bind _ _ ?wc =>
        destruct (translateMarkdown_result tr content sourceLocale targetLocale wc)
          as (w2 & _ & _ & Hres)
    end.
    change (ncalls (logged _ wb)) with (ncalls wb) in Hres.
    fold title_calls description_calls in Hn. rewrite Hn in Hres.
    destruct (answer (client tr (ncalls w + title_calls + description_calls) _))
      as [translated|]; [|congruence].
    exists td2, translated, w2. split.
    { rewrite Hrun. now rewrite (bind_Ok _ _ _ _ _ Hres). }
    assert (Hkeep : td2 !! "title" = td1 !! "title").
    { rewrite Htd2. destruct (data !! "description") as [v|]; [|reflexivity].
      destruct (truthy v); [|reflexivity]. now rewrite lookup_insert_ne. }
    destruct Hkey as [-> | ->].
    + rewrite Hkeep, Htd1.
      destruct (data !! "title") as [v|] eqn:Hv; [|exact Hv].
      destruct (truthy v); [|exact Hv].
      rewrite lookup_insert_eq.
      specialize (Hfield v eq_refl). simpl in Hfield. rewrite Nat.add_0_r in Hfield.
      now rewrite Hfield.
    + rewrite Htd2.
      assert (Hsame : td1 !! "description" = data !! "description").
      { rewrite Htd1. destruct (data !! "title") as [v|]; [|reflexivity].
        destruct (truthy v); [|reflexivity]. now rewrite lookup_insert_ne. }
      destruct (data !! "description") as [v|] eqn:Hv; [|exact Hsame].
      destruct (truthy v); [|exact Hsame].
      rewrite lookup_insert_eq.
      specialize (Hfield v eq_refl). simpl in Hfield.
      fold title_calls in Hna. rewrite <- Hna in Hfield. now rewrite Hfield.
Qed.

(** C8.  Whenever [translateArticle] returns a file, the frontmatter
    mapping written to it has the keys of the source mapping, and every
    key other than [title] and [description] has the source's value. *)
Theorem translateArticle_keeps_other_keys (cfg : Config.SiteConfig) (tr : Translator)
    (sourceContent collection articleId sourceLocale targetLocale : string)
    (w w' : World) (out : string) :
  translateArticle cfg tr sourceContent collection articleId sourceLocale targetLocale w
  = (Ok out, w') ->
  exists data content translatedData translated,
    matter sourceContent = Ok (data, content)
    /\ out = matter_stringify
               (generateWarningBox cfg collection articleId sourceLocale targetLocale
                +:+ translated) translatedData
    /\ dom translatedData = dom data
    /\ forall k, k <> "title" -> k <> "description" -> translatedData !! k = data !! k.
Proof.
  intros Hrun.
  destruct (matter sourceContent) as [[data content]|e] eqn:Hparse.
  - destruct (translateArticle_parsed cfg tr sourceContent collection articleId sourceLocale
                targetLocale data content w Hparse)
      as (td & w1 & w2 & _ & Hdom & Hkeep & _ & Hres).
    destruct (answer _) as [translated|].
    + rewrite Hres in Hrun. injection Hrun as <- _.
      exists data, content, td, translated. auto.
    + destruct Hres as [e He]. rewrite He in Hrun. discriminate.
  - rewrite (translateArticle_unparsed _ _ _ _ _ _ _ e w Hparse) in Hrun. discriminate.
Qed.

End TranslatorClaims.

Section TranslatorWitnesses.
Import Sys Translator Fixture.

Lemma translateText_falls_back_witness :
  exists translatedData translated w',
    translateArticle Config.config body_only_translator "Body" "note" "demo" "en" "ja"
                     empty_world
    = (Ok (matter_stringify
             (generateWarningBox Config.config "note" "demo" "en" "ja" +:+ translated)
             translatedData), w')
    /\ translatedData !! "title" = demo_data !! "title".
Proof.
  apply (proj2 (translateText_falls_back body_only_translator "ja")
               Config.config "Body" "note" "demo" "en" "title" demo_data "Body" empty_world).
  - reflexivity.
  - left. reflexivity.
  - intros v _. reflexivity.
  - vm_compute. discriminate.
Defined.

Lemma translateArticle_keeps_other_keys_witness :
  exists data content translatedData translated,
    matter "Body" = Ok (data, content)
    /\ generateWarningBox Config.config "note" "demo" "en" "ja" +:+ "Hola"
       = matter_stringify
           (generateWarningBox Config.config "note" "demo" "en" "ja" +:+ translated)
           translatedData
    /\ dom translatedData = dom data
    /\ forall k, k <> "title" -> k <> "description" -> translatedData !! k = data !! k.
Proof.
  apply (translateArticle_keeps_other_keys Config.config body_only_translator
           "Body" "note" "demo" "en" "ja" empty_world
           (snd (translateArticle Config.config body_only_translator
                                  "Body" "note" "demo" "en" "ja" empty_world))).
  vm_compute. reflexivity.
Defined.

End TranslatorWitnesses.

Section Disclaimer.
Import Translator.

Lemma length_app (a b : string) : String.length (a +:+ b) = String.length a + String.length b.
Proof. induction a as [|c a IH]; [reflexivity|]. rewrite app_cons. simpl. now rewrite IH. Qed.



End Disclaimer.

(** ** The translation loop *)

Section LoopFacts.
Import Sys Scanner Translator Script.
Context `{GrayMatter}.
Variable dirname : string.
Variable cfg : Config.SiteConfig.
Variable translator : Translator.
Variable article : Article.
Variable sourceLocale : string.
Variable sourceContent : string.

Abbreviation body := (loop_body dirname cfg translator article sourceLocale sourceContent).
Abbreviation loop := (translation_loop dirname cfg translator article sourceLocale sourceContent).
Abbreviation started targetLocale w :=
  (logged (Log (Js.nl +:+ "📖 Translating to " +:+ getLanguageName targetLocale +:+ "...")) w).

Lemma loop_body_skips (stats : Stats) (targetLocale : string) (w : World) :
  targetExists article targetLocale = true ->
  body stats targetLocale w
  = (Ok stats,
     logged (Log ("⚠️  Warning: " +:+ targetLocale +:+ " version already exists, skipping..."))
            (started targetLocale w)).
Proof.
  intros Hexists. unfold loop_body.
  rewrite (bind_Ok _ _ _ _ _ (console_log_run _ w)).
  rewrite Hexists. apply try_Ok.
  now rewrite (bind_Ok _ _ _ _ _ (console_log_run _ _)).
Qed.

Lemma loop_body_fails (stats : Stats) (targetLocale : string) (w w1 : World) (e : Error) :
  targetExists article targetLocale = false ->
  translateArticle cfg translator sourceContent (type_name (type article)) (id article)
                   sourceLocale targetLocale (started targetLocale w) = (Throw e, w1) ->
  body stats targetLocale w
  = (Ok (push_failed stats targetLocale),
     logged (LogError ("❌ Translation failed for " +:+ targetLocale +:+ ":") e) w1).
Proof.
  intros Hexists Hthrow. unfold loop_body.
  rewrite (bind_Ok _ _ _ _ _ (console_log_run _ w)).
  rewrite Hexists.
  rewrite (try_Throw _ _ _ w1 e) by now rewrite (bind_Throw _ _ _ _ _ Hthrow).
  now rewrite (bind_Ok _ _ _ _ _ (console_error_run _ _ _)).
Qed.

Lemma loop_body_returns (stats : Stats) (targetLocale : string) (w : World) :
  exists stats' w',
    body stats targetLocale w = (Ok stats', w')
    /\ (stats' = stats \/ stats' = push_success stats targetLocale
        \/ stats' = push_failed stats targetLocale)
    /\ (targetExists article targetLocale = true -> stats' = stats).
Proof.
  destruct (targetExists article targetLocale) eqn:Hexists.
  { eexists _, _. split; [now apply loop_body_skips | auto]. }
  unfold loop_body.
  rewrite (bind_Ok _ _ _ _ _ (console_log_run _ w)). rewrite Hexists.
  unfold try_catch.
  match goal with
  | |- context [match ?m ?w1 with _ => _ end] => destruct (m w1) as [[stats'|e] w'] eqn:Htry
  end.
  - exists stats', w'. split; [reflexivity|]. split; [|discriminate].
    right. left.
    unfold bind in Htry.
    repeat match type of Htry with
           | context [match ?m ?w1 with _ => _ end] =>
               destruct (m w1) as [[?|?] ?]; try discriminate
           end.
    unfold ret in Htry. now injection Htry as <- _.
  - rewrite (bind_Ok _ _ _ _ _ (console_error_run _ _ _)).
    eexists _, _. split; [reflexivity|]. split; [|discriminate]. right. right. reflexivity.
Qed.

Lemma translation_loop_cons (targetLocale : string) (rest : list string)
    (stats stats1 : Stats) (w w1 : World) :
  body stats targetLocale w = (Ok stats1, w1) ->
  loop (targetLocale :: rest) stats w = loop rest stats1 w1.
Proof. intros Hbody. simpl. now rewrite (bind_Ok _ _ _ _ _ Hbody). Qed.

Lemma translation_loop_returns (targetLocales : list string) (stats : Stats) (w : World) :
  exists stats' w',
    loop targetLocales stats w = (Ok stats', w')
    /\ forall locale,
         targetExists article locale = true ->
         (locale ∈ failed stats' -> locale ∈ failed stats)
         /\ (locale ∈ success stats' -> locale ∈ success stats).
Proof.
  revert stats w.
  induction targetLocales as [|targetLocale rest IH]; intros stats w.
  - exists stats, w. split; [reflexivity | auto].
  - destruct (loop_body_returns stats targetLocale w) as (stats1 & w1 & Hbody & Hcases & Hskip).
    destruct (IH stats1 w1) as (stats' & w' & Hloop & Hin).
    exists stats', w'. split.
    + now rewrite (translation_loop_cons _ _ _ _ _ _ Hbody).
    + intros locale Hexists. destruct (Hin locale Hexists) as [Hf Hs].
      assert (Hne : targetExists article targetLocale = false -> locale <> targetLocale)
        by (intros Hno ->; congruence).
      destruct (targetExists article targetLocale) eqn:Ht.
      * rewrite (Hskip eq_refl) in Hf, Hs. auto.
      * specialize (Hne eq_refl).
        destruct Hcases as [-> | [-> | ->]]; simpl in Hf, Hs; split; intros Hl; auto.
        -- apply Hs, elem_of_app in Hl as [Hl | Hl]; [exact Hl|].
           apply list_elem_of_singleton in Hl. contradiction.
        -- apply Hf, elem_of_app in Hl as [Hl | Hl]; [exact Hl|].
           apply list_elem_of_singleton in Hl. contradiction.
Qed.

End LoopFacts.

Section LoopClaims.
Import Sys Scanner Translator Script Shape.
Context `{GrayMatter}.
Variable dirname : string.
Variable cfg : Config.SiteConfig.
Variable translator : Translator.
Variable article : Article.
Variable sourceLocale : string.
Variable sourceContent : string.

Abbreviation body := (loop_body dirname cfg translator article sourceLocale sourceContent).
Abbreviation loop := (translation_loop dirname cfg translator article sourceLocale sourceContent).

Lemma translation_loop_grows (targetLocales : list string) (stats : Stats) (w : World) :
  exists stats' w',
    loop targetLocales stats w = (Ok stats', w')
    /\ (forall locale, locale ∈ failed stats -> locale ∈ failed stats')
    /\ (forall locale, locale ∈ success stats -> locale ∈ success stats').
Proof.
  revert stats w.
  induction targetLocales as [|targetLocale rest IH]; intros stats w.
  - exists stats, w. auto.
  - destruct (loop_body_returns dirname cfg translator article sourceLocale sourceContent
                stats targetLocale w) as (stats1 & w1 & Hbody & Hcases & _).
    destruct (IH stats1 w1) as (stats' & w' & Hloop & Hf & Hs).
    exists stats', w'. split.
    + now rewrite (translation_loop_cons _ _ _ _ _ _ _ _ _ _ _ _ Hbody).
    + destruct Hcases as [-> | [-> | ->]]; simpl in Hf, Hs; split; intros locale Hl;
        auto; (apply Hf || apply Hs); apply elem_of_app; auto.
Qed.

(** C2.  When the body request for a target locale fails (the service
    rejects it, or answers with no choice, a [null] or a blank content),
    [translateMarkdown] throws; the iteration for that locale writes no
    file and records the locale as failed; and the loop goes on with the
    remaining target locales and returns, with the locale in the failure
    list.  The body request of an iteration is the one it sends after the
    requests for the title and the description that are present. *)
Theorem body_failure_fails_that_locale_only (targetLocale : string)
    (data : gmap string Value) (content : string) (stats : Stats) (w : World) :
  matter sourceContent = Ok (data, content) ->
  targetExists article targetLocale = false ->
  answer (client translator
            (ncalls w + (if present data "title" then 1 else 0)
             + (if present data "description" then 1 else 0))%nat
            (markdown_request translator content sourceLocale targetLocale)) = None ->
  (forall w0,
      answer (client translator (ncalls w0)
                (markdown_request translator content sourceLocale targetLocale)) = None ->
      exists e w',
        translateMarkdown translator content sourceLocale targetLocale w0 = (Throw e, w')
        /\ fs w' = fs w0)
  /\ exists w',
       body stats targetLocale w = (Ok (push_failed stats targetLocale), w')
       /\ fs w' = fs w
       /\ forall rest,
            loop (targetLocale :: rest) stats w
            = loop rest (push_failed stats targetLocale) w'
            /\ exists stats' w'',
                 loop (targetLocale :: rest) stats w = (Ok stats', w'')
                 /\ targetLocale ∈ failed stats'.
Proof.
  intros Hparse Hexists Hfail. split.
  - intros w0 Hnone.
    destruct (translateMarkdown_result translator content sourceLocale targetLocale w0)
      as (w' & Hfs & _ & Hres).
    rewrite Hnone in Hres. destruct Hres as [e He]. now exists e, w'.
  - set (w0 := logged (Log (Js.nl +:+ "📖 Translating to " +:+ getLanguageName targetLocale
                           +:+ "...")) w).
    destruct (translateArticle_steps cfg translator sourceContent (type_name (type article))
                (id article) sourceLocale targetLocale data content w0 Hparse)
      as (td1 & wa & td2 & wb & _ & _ & Hfsb & Hn & Hrun).
    match type of Hrun with
    | _ = bind _ _ ?wc =>
        destruct (translateMarkdown_result translator content sourceLocale targetLocale wc)
          as (w2 & Hfs2 & _ & Hres)
    end.
    change (ncalls (logged _ wb)) with (ncalls wb) in Hres.
    change (fs (logged _ wb)) with (fs wb) in Hfs2.
    rewrite Hn in Hres. change (ncalls w0) with (ncalls w) in Hres.
    rewrite Hfail in Hres. destruct Hres as [e He].
    assert (Harticle : translateArticle cfg translator sourceContent (type_name (type article))
                         (id article) sourceLocale targetLocale w0 = (Throw e, w2))
      by (rewrite Hrun; now rewrite (bind_Throw _ _ _ _ _ He)).
    pose proof (loop_body_fails dirname cfg translator article sourceLocale sourceContent
                  stats targetLocale w w2 e Hexists Harticle) as Hbody.
    eexists. split; [exact Hbody|].
    split; [simpl; now rewrite Hfs2, Hfsb|].
    intros rest.
    pose proof (translation_loop_cons _ _ _ _ _ _ _ rest _ _ _ _ Hbody) as Hcons.
    split; [exact Hcons|].
    rewrite Hcons.
    match goal with
    | |- context [loop rest ?st ?wx] =>
        destruct (translation_loop_grows rest st wx) as (stats' & w'' & Hloop & Hf & _)
    end.
    exists stats', w''. split; [exact Hloop|].
    apply Hf. simpl. apply elem_of_app. right. apply list_elem_of_singleton. reflexivity.
Qed.

(** C4.  A target locale that is in the article's locale set is skipped
    with a warning: its iteration returns the tally unchanged, leaves the
    file system untouched, sends no request and prints the warning; and
    whatever the list of target locales, the loop returns without adding
    that locale to the failure list (or to the success list). *)
Theorem existing_locale_is_skipped (targetLocale : string) :
  targetLocale ∈ locales article ->
  (forall stats w, exists w',
      body stats targetLocale w = (Ok stats, w')
      /\ fs w' = fs w /\ ncalls w' = ncalls w
      /\ console w'
         = console w
           ++ [Log (Js.nl +:+ "📖 Translating to " +:+ getLanguageName targetLocale +:+ "...");
               Log ("⚠️  Warning: " +:+ targetLocale +:+ " version already exists, skipping...")])
  /\ (forall targetLocales stats w, exists stats' w',
         loop targetLocales stats w = (Ok stats', w')
         /\ (targetLocale ∉ failed stats -> targetLocale ∉ failed stats')
         /\ (targetLocale ∉ success stats -> targetLocale ∉ success stats')).
Proof.
  intros Hin.
  assert (Hexists : targetExists article targetLocale = true)
    by (unfold targetExists; now apply bool_decide_eq_true).
  split.
  - intros stats w. eexists. split; [now apply loop_body_skips|].
    split; [reflexivity|]. split; [reflexivity|].
    simpl. now rewrite <- app_assoc.
  - intros targetLocales stats w.
    destruct (translation_loop_returns dirname cfg translator article sourceLocale
                sourceContent targetLocales stats w) as (stats' & w' & Hloop & Hkeep).
    exists stats', w'. split; [exact Hloop|].
    destruct (Hkeep targetLocale Hexists) as [Hf Hs]. auto.
Qed.

End LoopClaims.

Section LoopWitnesses.
Import Sys Scanner Translator Script Fixture.

Abbreviation demo_body :=
  (loop_body "/repo/scripts/lib" Config.config down_translator demo "en" "Body").
Abbreviation demo_loop :=
  (translation_loop "/repo/scripts/lib" Config.config down_translator demo "en" "Body").

Lemma body_failure_fails_that_locale_only_witness :
  (forall w0,
      answer (client down_translator (ncalls w0)
                (markdown_request down_translator "Body" "en" "ja")) = None ->
      exists e w',
        translateMarkdown down_translator "Body" "en" "ja" w0 = (Throw e, w')
        /\ fs w' = fs w0)
  /\ exists w',
       demo_body {| success := []; failed := [] |} "ja" demo_world
       = (Ok (push_failed {| success := []; failed := [] |} "ja"), w')
       /\ fs w' = fs demo_world
       /\ forall rest,
            demo_loop ("ja" :: rest) {| success := []; failed := [] |} demo_world
            = demo_loop rest (push_failed {| success := []; failed := [] |} "ja") w'
            /\ exists stats' w'',
                 demo_loop ("ja" :: rest) {| success := []; failed := [] |} demo_world
                 = (Ok stats', w'')
                 /\ "ja" ∈ failed stats'.
Proof.
  apply (body_failure_fails_that_locale_only "/repo/scripts/lib" Config.config
           down_translator demo "en" "Body" "ja" demo_data "Body"
           {| success := []; failed := [] |} demo_world).
  - reflexivity.
  - vm_compute. reflexivity.
  - reflexivity.
Defined.

Lemma existing_locale_is_skipped_witness :
  (forall stats w, exists w',
      demo_body stats "en" w = (Ok stats, w')
      /\ fs w' = fs w /\ ncalls w' = ncalls w
      /\ console w'
         = console w
           ++ [Log (Js.nl +:+ "📖 Translating to " +:+ getLanguageName "en" +:+ "...");
               Log ("⚠️  Warning: " +:+ "en" +:+ " version already exists, skipping...")])
  /\ (forall targetLocales stats w, exists stats' w',
         demo_loop targetLocales stats w = (Ok stats', w')
         /\ ("en" ∉ failed stats -> "en" ∉ failed stats')
         /\ ("en" ∉ success stats -> "en" ∉ success stats')).
Proof.
  apply (existing_locale_is_skipped "/repo/scripts/lib" Config.config
           down_translator demo "en" "Body" "en").
  vm_compute. reflexivity.
Defined.

End LoopWitnesses.

(** ** Path normalisation *)

Section PathFacts.
Import Path PathShape.

Lemma plain_inv (seg : string) :
  plain seg = true ->
  Js.no_slash seg = true /\ String.eqb seg "" = false /\ String.eqb seg "." = false
  /\ String.eqb seg ".." = false.
Proof.
  unfold plain. intros Hp.
  repeat (apply andb_prop in Hp as [Hp ?]).
  repeat split; try assumption; now apply negb_true_iff.
Qed.

Lemma step_plain (f : bool) (kept : list string) (seg : string) :
  plain seg = true -> step f kept seg = seg :: kept.
Proof.
  intros Hp. destruct (plain_inv seg Hp) as (_ & He & Hd & Hdd).
  unfold step. now rewrite He, Hd, Hdd.
Qed.

Lemma all_dotdot_kept_ok (kept : list string) :
  forallb (fun s => String.eqb s "..") kept = true -> kept_ok true kept = true.
Proof.
  induction kept as [|seg below IH]; [reflexivity|].
  simpl. intros Hall. apply andb_prop in Hall as [Hseg Hbelow].
  now rewrite Hseg.
Qed.

Lemma kept_ok_below (f : bool) (seg : string) (below : list string) :
  kept_ok f (seg :: below) = true -> kept_ok f below = true.
Proof.
  simpl. destruct (String.eqb seg "..").
  - intros Hk. apply andb_prop in Hk as [Hf Hall]. destruct f; [|discriminate].
    now apply all_dotdot_kept_ok.
  - intros Hk. now apply andb_prop in Hk as [_ Hk].
Qed.

Lemma step_kept_ok (f : bool) (kept : list string) (seg : string) :
  Js.no_slash seg = true -> kept_ok f kept = true -> kept_ok f (step f kept seg) = true.
Proof.
  intros Hseg Hk. unfold step.
  destruct (String.eqb seg "") eqn:He; [exact Hk|].
  destruct (String.eqb seg ".") eqn:Hd; [exact Hk|].
  destruct (String.eqb seg "..") eqn:Hdd.
  - apply String.eqb_eq in Hdd. subst seg.
    destruct kept as [|top below].
    + now destruct f.
    + destruct (String.eqb top "..") eqn:Htop.
      * destruct f; [|exact Hk].
        simpl in Hk. rewrite Htop in Hk. simpl in Hk.
        simpl. rewrite Hk. apply String.eqb_eq in Htop. now subst top.
      * now apply kept_ok_below in Hk.
  - simpl. rewrite Hdd. unfold plain. now rewrite Hseg, He, Hd, Hdd, Hk.
Qed.

Lemma fold_step_kept_ok (f : bool) (segs kept : list string) :
  Forall (fun seg => Js.no_slash seg = true) segs ->
  kept_ok f kept = true -> kept_ok f (fold_left (step f) segs kept) = true.
Proof.
  revert kept. induction segs as [|seg segs IH]; intros kept Hsegs Hk; [exact Hk|].
  inversion Hsegs as [|? ? Hseg Hrest]; subst. simpl.
  apply IH; [exact Hrest|]. now apply step_kept_ok.
Qed.

(** Running the kept segments through [normalizeString] again gives
    them back. *)
Lemma fold_step_rev (f : bool) (kept : list string) :
  kept_ok f kept = true -> fold_left (step f) (rev kept) [] = kept.
Proof.
  induction kept as [|seg below IH]; [reflexivity|].
  intros Hk. simpl rev. rewrite fold_left_app. simpl.
  rewrite (IH (kept_ok_below _ _ _ Hk)).
  simpl in Hk. destruct (String.eqb seg "..") eqn:Hdd.
  - apply String.eqb_eq in Hdd. subst seg.
    apply andb_prop in Hk as [Hf Hall]. subst f.
    destruct below as [|top below]; [reflexivity|].
    simpl in Hall. apply andb_prop in Hall as [Htop _].
    unfold step. simpl. now rewrite Htop.
  - apply andb_prop in Hk as [Hp _]. now apply step_plain.
Qed.

Lemma kept_ok_no_slash (f : bool) (kept : list string) :
  kept_ok f kept = true -> Forall (fun seg => Js.no_slash seg = true) kept.
Proof.
  induction kept as [|seg below IH]; [constructor|].
  intros Hk. constructor; [|exact (IH (kept_ok_below _ _ _ Hk))].
  simpl in Hk. destruct (String.eqb seg "..") eqn:Hdd.
  - apply String.eqb_eq in Hdd. now subst seg.
  - apply andb_prop in Hk as [Hp _]. now destruct (plain_inv seg Hp).
Qed.

Lemma kept_ok_truthy (f : bool) (kept : list string) :
  kept_ok f kept = true -> Forall (fun seg => Js.truthy_str seg = true) kept.
Proof.
  induction kept as [|seg below IH]; [constructor|].
  intros Hk. constructor; [|exact (IH (kept_ok_below _ _ _ Hk))].
  simpl in Hk. destruct (String.eqb seg "..") eqn:Hdd.
  - apply String.eqb_eq in Hdd. now subst seg.
  - apply andb_prop in Hk as [Hp _]. destruct (plain_inv seg Hp) as (_ & He & _).
    destruct seg; [discriminate | reflexivity].
Qed.

Lemma truthy_str_neq (s : string) : Js.truthy_str s = true <-> s <> "".
Proof. destruct s; simpl; split; congruence. Qed.

Lemma truthy_str_eqb (s : string) : String.eqb s "" = negb (Js.truthy_str s).
Proof. now destruct s. Qed.

Lemma truthy_app_l (a b : string) : Js.truthy_str a = true -> Js.truthy_str (a +:+ b) = true.
Proof. now destruct a. Qed.

Lemma truthy_app_r (a b : string) : Js.truthy_str b = true -> Js.truthy_str (a +:+ b) = true.
Proof. destruct a; [now rewrite app_nil_l | reflexivity]. Qed.

Lemma join_truthy (segs : list string) :
  segs <> [] -> Forall (fun seg => Js.truthy_str seg = true) segs ->
  Js.truthy_str (Js.join segs) = true.
Proof.
  destruct segs as [|seg rest]; [congruence|]. intros _ Hall.
  inversion Hall as [|? ? Hseg _]; subst.
  destruct rest; [exact Hseg|]. rewrite join_cons by discriminate.
  now apply truthy_app_l.
Qed.

Lemma join_app (p1 p2 : list string) :
  p1 <> [] -> p2 <> [] -> Js.join (p1 ++ p2) = Js.join p1 +:+ "/" +:+ Js.join p2.
Proof.
  intros Hp1 Hp2. induction p1 as [|seg rest IH]; [congruence|].
  destruct rest as [|seg' rest].
  - simpl app. now rewrite join_cons.
  - change ((seg :: seg' :: rest) ++ p2) with (seg :: ((seg' :: rest) ++ p2)).
    rewrite join_cons by discriminate.
    rewrite IH by discriminate.
    rewrite (join_cons seg (seg' :: rest)) by discriminate.
    now rewrite !app_assoc_str.
Qed.

Lemma split_join (segs : list string) :
  segs <> [] -> Forall (fun seg => Js.no_slash seg = true) segs ->
  Js.split (Js.join segs) = segs.
Proof.
  induction segs as [|seg rest IH]; [congruence|]. intros _ Hall.
  inversion Hall as [|? ? Hseg Hrest]; subst.
  destruct rest as [|seg' rest]; [now apply split_no_slash|].
  rewrite join_cons by discriminate.
  rewrite split_app, (split_no_slash seg Hseg), IH by (discriminate || assumption).
  reflexivity.
Qed.

Lemma starts_app (a b : string) :
  a <> "" -> starts_with_slash (a +:+ b) = starts_with_slash a.
Proof. destruct a; [congruence | reflexivity]. Qed.

Lemma ends_app (a b : string) :
  b <> "" -> ends_with_slash (a +:+ b) = ends_with_slash b.
Proof.
  intros Hb. induction a as [|c a IH]; [reflexivity|].
  rewrite app_cons. simpl. rewrite IH.
  destruct (a +:+ b) eqn:E; [|reflexivity].
  destruct a; [rewrite app_nil_l in E; congruence | discriminate].
Qed.

Lemma ends_no_slash (seg : string) : Js.no_slash seg = true -> ends_with_slash seg = false.
Proof.
  induction seg as [|c seg IH]; [reflexivity|].
  simpl. intros Hs. apply andb_prop in Hs as [Hc Hs]. apply negb_true_iff in Hc.
  destruct seg; [exact Hc | now apply IH].
Qed.

Lemma starts_no_slash (seg : string) : Js.no_slash seg = true -> starts_with_slash seg = false.
Proof.
  destruct seg as [|c seg]; [reflexivity|].
  simpl. intros Hs. apply andb_prop in Hs as [Hc _]. now apply negb_true_iff in Hc.
Qed.

Lemma starts_join (segs : list string) :
  Forall (fun seg => Js.no_slash seg = true) segs ->
  Forall (fun seg => Js.truthy_str seg = true) segs ->
  starts_with_slash (Js.join segs) = false.
Proof.
  destruct segs as [|seg rest]; [reflexivity|]. intros Hno Htr.
  inversion Hno as [|? ? Hseg _]; inversion Htr as [|? ? Hne _]; subst.
  destruct rest; [now apply starts_no_slash|].
  rewrite join_cons by discriminate.
  rewrite starts_app by (now apply truthy_str_neq).
  now apply starts_no_slash.
Qed.

Lemma fold_step_empty_first (f : bool) (segs : list string) :
  fold_left (step f) ("" :: segs) [] = fold_left (step f) segs [].
Proof. reflexivity. Qed.

Lemma fold_step_empty_last (f : bool) (segs kept : list string) :
  fold_left (step f) (segs ++ [""]) kept = fold_left (step f) segs kept.
Proof. rewrite fold_left_app. reflexivity. Qed.

(** Reading back a rendered path: same root, same kept segments. *)
Lemma render_parse (isAbsolute trailing : bool) (kept : list string) :
  kept_ok (negb isAbsolute) kept = true ->
  Js.truthy_str (render isAbsolute trailing kept) = true
  /\ starts_with_slash (render isAbsolute trailing kept) = isAbsolute
  /\ fold_left (step (negb isAbsolute)) (Js.split (render isAbsolute trailing kept)) [] = kept.
Proof.
  intros Hk. unfold render.
  destruct kept as [|top below].
  { destruct isAbsolute, trailing; repeat split; reflexivity. }
  pose proof (kept_ok_no_slash _ _ Hk) as Hno.
  pose proof (kept_ok_truthy _ _ Hk) as Htr.
  set (segs := rev (top :: below)).
  assert (Hne : segs <> []).
  { unfold segs. simpl. intros E. now apply app_eq_nil in E as [_ E]. }
  assert (Hno' : Forall (fun seg => Js.no_slash seg = true) segs)
    by now apply Forall_rev.
  assert (Htr' : Forall (fun seg => Js.truthy_str seg = true) segs)
    by now apply Forall_rev.
  pose proof (join_truthy segs Hne Htr') as Hj.
  pose proof (split_join segs Hne Hno') as Hs.
  pose proof (fold_step_rev _ _ Hk) as Hfold. fold segs in Hfold.
  rewrite truthy_str_eqb, Hj. simpl negb. cbv iota.
  destruct isAbsolute, trailing; simpl negb in *.
  - split; [reflexivity|]. split; [reflexivity|].
    change ("/" +:+ Js.join segs +:+ "/") with ("" +:+ "/" +:+ (Js.join segs +:+ "/" +:+ "")).
    rewrite !split_app, Hs. simpl app.
    now rewrite fold_step_empty_first, fold_step_empty_last.
  - split; [reflexivity|]. split; [reflexivity|].
    change ("/" +:+ Js.join segs) with ("" +:+ "/" +:+ Js.join segs).
    rewrite split_app, Hs. simpl app. now rewrite fold_step_empty_first.
  - split; [now apply truthy_app_l|].
    split; [rewrite starts_app by (now apply truthy_str_neq); now apply starts_join|].
    change (Js.join segs +:+ "/") with (Js.join segs +:+ "/" +:+ "").
    rewrite split_app, Hs. now rewrite fold_step_empty_last.
  - split; [exact Hj|]. split; [now apply starts_join|]. now rewrite Hs.
Qed.

Lemma normalize_render (path : string) :
  path <> "" ->
  normalize path
  = render (starts_with_slash path) (ends_with_slash path)
           (fold_left (step (negb (starts_with_slash path))) (Js.split path) []).
Proof.
  intros Hne. unfold normalize, render, normalizeString.
  apply String.eqb_neq in Hne. now rewrite Hne.
Qed.

Lemma kept_of_path_ok (f : bool) (path : string) :
  kept_ok f (fold_left (step f) (Js.split path) []) = true.
Proof. apply fold_step_kept_ok; [apply split_segments_no_slash | reflexivity]. Qed.

Lemma app_slash_neq (a b : string) : a +:+ "/" +:+ b <> "".
Proof. destruct a; discriminate. Qed.

(** Normalising the left part first changes nothing. *)
Lemma normalize_join_l (x y : string) :
  x <> "" -> y <> "" ->
  normalize (normalize x +:+ "/" +:+ y) = normalize (x +:+ "/" +:+ y).
Proof.
  intros Hx Hy.
  pose proof (normalize_render x Hx) as Hn.
  pose proof (render_parse (starts_with_slash x) (ends_with_slash x) _
                (kept_of_path_ok (negb (starts_with_slash x)) x)) as (Htr & Hst & Hfold).
  rewrite <- Hn in Htr, Hst, Hfold.
  apply truthy_str_neq in Htr.
  assert (Hyy : "/" +:+ y <> "") by discriminate.
  rewrite (normalize_render (normalize x +:+ "/" +:+ y)) by apply app_slash_neq.
  rewrite (normalize_render (x +:+ "/" +:+ y)) by apply app_slash_neq.
  rewrite !starts_app, !ends_app, Hst by assumption.
  rewrite !split_app, !fold_left_app, Hfold. reflexivity.
Qed.

Lemma normalize_truthy (path : string) : Js.truthy_str (normalize path) = true.
Proof.
  destruct path as [|c path]; [reflexivity|].
  rewrite normalize_render by discriminate.
  apply render_parse, kept_of_path_ok.
Qed.

Lemma join_parts (args : list string) :
  parts args <> [] -> Path.join args = normalize (Js.join (parts args)).
Proof. unfold Path.join. destruct (parts args); [congruence | reflexivity]. Qed.

Lemma path_join_truthy (args : list string) : Js.truthy_str (Path.join args) = true.
Proof.
  unfold Path.join. destruct (parts args); [reflexivity | apply normalize_truthy].
Qed.

Lemma parts_cons_truthy (arg : string) (args : list string) :
  Js.truthy_str arg = true -> parts (arg :: args) = arg :: parts args.
Proof. intros Ha. unfold parts. now rewrite filter_cons_True. Qed.

Lemma parts_app (l1 l2 : list string) : parts (l1 ++ l2) = parts l1 ++ parts l2.
Proof. apply filter_app. Qed.

Lemma parts_truthy (args : list string) :
  Forall (fun seg => Js.truthy_str seg = true) (parts args).
Proof. apply Forall_forall. intros seg Hin. now apply list_elem_of_filter in Hin as [Hs _]. Qed.

(** Joining in two steps is joining at once. *)
Lemma path_join_nested (l1 l2 : list string) :
  parts l1 <> [] -> parts l2 <> [] ->
  Path.join (Path.join l1 :: l2) = Path.join (l1 ++ l2).
Proof.
  intros H1 H2.
  assert (Hj1 : Js.join (parts l1) <> "")
    by (apply truthy_str_neq, join_truthy; [exact H1 | apply parts_truthy]).
  assert (Hj2 : Js.join (parts l2) <> "")
    by (apply truthy_str_neq, join_truthy; [exact H2 | apply parts_truthy]).
  rewrite (join_parts (l1 ++ l2)) by (rewrite parts_app; destruct (parts l1); [congruence | discriminate]).
  rewrite parts_app, join_app by assumption.
  rewrite (join_parts (Path.join l1 :: l2))
    by (rewrite parts_cons_truthy by apply path_join_truthy; discriminate).
  rewrite parts_cons_truthy by apply path_join_truthy.
  rewrite join_cons by exact H2.
  rewrite (join_parts l1) by exact H1.
  now apply normalize_join_l.
Qed.

Lemma plain_truthy (seg : string) : plain seg = true -> Js.truthy_str seg = true.
Proof.
  intros Hp. destruct (plain_inv seg Hp) as (_ & He & _).
  destruct seg; [discriminate | reflexivity].
Qed.

Lemma kept_of_snoc (path seg : string) :
  path <> "" -> plain seg = true ->
  kept_of (path +:+ "/" +:+ seg) = seg :: kept_of path.
Proof.
  intros Hne Hp. unfold kept_of.
  destruct (plain_inv seg Hp) as (Hno & _).
  rewrite starts_app by exact Hne.
  rewrite split_app, (split_no_slash seg Hno), fold_left_app. simpl.
  now apply step_plain.
Qed.

(** Appending a proper name to a path that ends in one appends it to
    the normalised path. *)
Lemma normalize_snoc (path seg : string) :
  path <> "" -> ends_with_slash path = false -> kept_of path <> [] ->
  plain seg = true ->
  normalize (path +:+ "/" +:+ seg) = normalize path +:+ "/" +:+ seg.
Proof.
  intros Hne Hend Hkept Hp.
  destruct (plain_inv seg Hp) as (Hno & _).
  pose proof (plain_truthy seg Hp) as Hseg. apply truthy_str_neq in Hseg.
  rewrite (normalize_render (path +:+ "/" +:+ seg)) by apply app_slash_neq.
  rewrite (normalize_render path) by exact Hne.
  fold (kept_of (path +:+ "/" +:+ seg)). fold (kept_of path).
  rewrite kept_of_snoc by assumption.
  rewrite starts_app by exact Hne.
  rewrite ends_app by (destruct seg; [congruence | discriminate]).
  change ("/" +:+ seg) with (String "/" seg).
  assert (Hend' : ends_with_slash (String "/" seg) = false).
  { simpl. destruct seg; [congruence|]. now apply ends_no_slash. }
  rewrite Hend', Hend.
  pose proof (kept_of_path_ok (negb (starts_with_slash path)) path) as Hk.
  fold (kept_of path) in Hk.
  assert (Hrev : rev (kept_of path) <> []).
  { intros E. apply (f_equal (@rev string)) in E. rewrite rev_involutive in E. now apply Hkept. }
  assert (Hj : Js.truthy_str (Js.join (rev (kept_of path))) = true).
  { apply join_truthy; [exact Hrev|]. apply Forall_rev. exact (kept_ok_truthy _ _ Hk). }
  unfold render. simpl rev. rewrite join_snoc by exact Hrev.
  rewrite !truthy_str_eqb, Hj, (truthy_app_l _ _ Hj). simpl negb. cbv iota.
  destruct (starts_with_slash path); [|reflexivity].
  now rewrite !app_assoc_str.
Qed.

Lemma names_entry_of_snoc (path seg : string) :
  plain seg = true ->
  ends_with_slash (path +:+ "/" +:+ seg) = false /\ kept_of (path +:+ "/" +:+ seg) <> [].
Proof.
  intros Hp. destruct (plain_inv seg Hp) as (Hno & _).
  pose proof (plain_truthy seg Hp) as Hseg. apply truthy_str_neq in Hseg.
  split.
  - rewrite ends_app by discriminate.
    change ("/" +:+ seg) with (String "/" seg). simpl.
    destruct seg; [congruence|]. now apply ends_no_slash.
  - unfold kept_of. rewrite split_app, (split_no_slash seg Hno), fold_left_app. simpl.
    rewrite step_plain by exact Hp. discriminate.
Qed.

Lemma path_join_snoc (args : list string) (seg : string) :
  names_entry args -> plain seg = true ->
  Path.join (args ++ [seg]) = Path.join args +:+ "/" +:+ seg
  /\ names_entry (args ++ [seg]).
Proof.
  intros (Hparts & Hend & Hkept) Hp.
  pose proof (plain_truthy seg Hp) as Hseg.
  assert (Hj : Js.join (parts args) <> "")
    by (apply truthy_str_neq, join_truthy; [exact Hparts | apply parts_truthy]).
  assert (Hparts' : parts (args ++ [seg]) = parts args ++ [seg]).
  { rewrite parts_app. f_equal. now apply parts_cons_truthy. }
  assert (Hjoin : Js.join (parts (args ++ [seg])) = Js.join (parts args) +:+ "/" +:+ seg).
  { rewrite Hparts'. now apply join_snoc. }
  split.
  - rewrite (join_parts (args ++ [seg])) by (rewrite Hparts'; destruct (parts args); discriminate).
    rewrite Hjoin, (join_parts args) by exact Hparts.
    now apply normalize_snoc.
  - unfold names_entry. rewrite Hjoin. split.
    + rewrite Hparts'. destruct (parts args); discriminate.
    + now apply names_entry_of_snoc.
Qed.

End PathFacts.

(** ** The file system *)

Section FileSystem.
Import Sys.

Lemma ancestors_from_app (before a b : string) :
  ancestors_from before (a +:+ b)
  = ancestors_from before a ++ ancestors_from (before +:+ a) b.
Proof.
  revert before. induction a as [|c a IH]; intros before.
  - now rewrite app_nil_l, app_nil_r.
  - rewrite app_cons. cbn [ancestors_from]. rewrite IH, <- app_assoc.
    now rewrite app_assoc_str.
Qed.

Lemma ancestors_from_no_slash (before seg : string) :
  Js.no_slash seg = true -> ancestors_from before seg = [].
Proof.
  revert before. induction seg as [|c seg IH]; intros before Hno; [reflexivity|].
  simpl in Hno. apply andb_prop in Hno as [Hc Hno].
  cbn [ancestors_from]. apply negb_true_iff in Hc. rewrite Hc. now apply IH.
Qed.

(** The ancestors of an entry are its directory and the ancestors of
    that directory. *)
Lemma ancestors_entry (dir name : string) :
  Js.no_slash name = true ->
  ancestors (dir +:+ "/" +:+ name) = ancestors dir ++ [dir].
Proof.
  intros Hno. unfold ancestors.
  rewrite ancestors_from_app, app_nil_l. f_equal.
  change ("/" +:+ name) with (String "/" name). cbn [ancestors_from].
  rewrite Ascii.eqb_refl, ancestors_from_no_slash by exact Hno. reflexivity.
Qed.

Lemma parent_entry (dir name : string) :
  Js.no_slash name = true -> parent (dir +:+ "/" +:+ name) = Some dir.
Proof. intros Hno. unfold parent. rewrite ancestors_entry by exact Hno. apply last_snoc. Qed.

Lemma ancestors_from_shorter (before path p : string) :
  In p (ancestors_from before path) ->
  (String.length p < String.length before + String.length path)%nat.
Proof.
  revert before. induction path as [|c path IH]; intros before Hin; [destruct Hin|].
  cbn [ancestors_from] in Hin. apply in_app_or in Hin as [Hin | Hin].
  - destruct (Ascii.eqb c "/"); [|destruct Hin].
    destruct Hin as [<- | []]. simpl. lia.
  - apply IH in Hin. rewrite length_app in Hin. simpl in *. lia.
Qed.

Lemma ancestors_shorter (path p : string) :
  In p (ancestors path) -> (String.length p < String.length path)%nat.
Proof. intros Hin. now apply ancestors_from_shorter in Hin. Qed.

Lemma node_at_make_dirs_in (dirs : list string) (files : gmap string Node) (p : string) :
  In p dirs -> node_at (make_dirs dirs files) p = Some Dir.
Proof.
  intros Hin. unfold node_at.
  destruct (always_there p) eqn:Hp; [reflexivity|].
  induction dirs as [|dir dirs IH]; [destruct Hin|].
  cbn [make_dirs fold_right]. fold (make_dirs dirs files).
  destruct (decide (dir = p)) as [-> | Hne].
  - rewrite Hp. apply lookup_insert_eq.
  - destruct Hin as [-> | Hin]; [congruence|].
    destruct (always_there dir); [now apply IH|].
    rewrite lookup_insert_ne by exact Hne. now apply IH.
Qed.

Lemma make_dirs_out (dirs : list string) (files : gmap string Node) (p : string) :
  ~ In p dirs -> make_dirs dirs files !! p = files !! p.
Proof.
  intros Hout. induction dirs as [|dir dirs IH]; [reflexivity|].
  cbn [make_dirs fold_right]. fold (make_dirs dirs files).
  assert (Hne : dir <> p) by (intros ->; apply Hout; now left).
  assert (Hrest : ~ In p dirs) by (intros Hin; apply Hout; now right).
  destruct (always_there dir); [now apply IH|].
  rewrite lookup_insert_ne by exact Hne. now apply IH.
Qed.

Lemma make_dirs_cases (dirs : list string) (files : gmap string Node) (p : string) :
  make_dirs dirs files !! p = files !! p
  \/ (In p dirs /\ always_there p = false /\ make_dirs dirs files !! p = Some Dir).
Proof.
  induction dirs as [|dir dirs IH]; [now left|].
  cbn [make_dirs fold_right]. fold (make_dirs dirs files).
  destruct (always_there dir) eqn:Hdir.
  - destruct IH as [IH | (Hin & Hp & IH)]; [now left|]. right. split; [now right | auto].
  - destruct (decide (dir = p)) as [-> | Hne].
    + right. split; [now left|]. split; [exact Hdir | apply lookup_insert_eq].
    + rewrite lookup_insert_ne by exact Hne.
      destruct IH as [IH | (Hin & Hp & IH)]; [now left|]. right. split; [now right | auto].
Qed.

(** Making directories where no regular file is changes no regular
    file. *)
Lemma make_dirs_files (dirs : list string) (files : gmap string Node) :
  (forall p content, In p dirs -> node_at files p <> Some (File content)) ->
  forall p content,
    make_dirs dirs files !! p = Some (File content) <-> files !! p = Some (File content).
Proof.
  intros Hfree p content.
  destruct (make_dirs_cases dirs files p) as [-> | (Hin & Hp & Hmade)]; [reflexivity|].
  rewrite Hmade. split; [discriminate|].
  intros Hfile. exfalso. apply (Hfree p content Hin). unfold node_at. now rewrite Hp.
Qed.

Lemma existsb_is_file (files : gmap string Node) (dirs : list string) :
  existsb (fun dir => is_file (node_at files dir)) dirs = false <->
  forall p content, In p dirs -> node_at files p <> Some (File content).
Proof.
  split.
  - intros Hnone p content Hin Hfile.
    assert (Htrue : existsb (fun dir => is_file (node_at files dir)) dirs = true)
      by (apply existsb_exists; exists p; split; [exact Hin | now rewrite Hfile]).
    congruence.
  - intros Hfree. apply not_true_is_false. intros Hsome.
    apply existsb_exists in Hsome as (p & Hin & Hfile).
    destruct (node_at files p) as [[content|]|] eqn:Hnode; try discriminate.
    now apply (Hfree p content Hin).
Qed.

Abbreviation made dir w :=
  {| fs := make_dirs (chain dir) (fs w); console := console w; ncalls := ncalls w |}.

(** [mkdirSync_recursive] throws and changes nothing when a regular
    file is on the way, and makes the directories otherwise. *)
Lemma mkdirSync_recursive_run (dir : string) (w : World) :
  dir <> "" ->
  ((exists p content, In p (chain dir) /\ node_at (fs w) p = Some (File content))
   /\ exists e, mkdirSync_recursive dir w = (Throw e, w))
  \/ ((forall p content, In p (chain dir) -> node_at (fs w) p <> Some (File content))
      /\ mkdirSync_recursive dir w = (Ok tt, made dir w)).
Proof.
  intros Hdir. apply String.eqb_neq in Hdir.
  unfold mkdirSync_recursive, file_above. rewrite Hdir. clear Hdir.
  destruct (existsb _ (ancestors dir)) eqn:Habove.
  { left. split; [|eauto].
    apply existsb_exists in Habove as (p & Hin & Hfile).
    destruct (node_at (fs w) p) as [[content|]|] eqn:Hnode; try discriminate.
    exists p, content. split; [apply in_or_app; now left | exact Hnode]. }
  destruct (node_at (fs w) dir) as [[content|]|] eqn:Hdir; cbn [is_file].
  { left. split; [|eauto]. exists dir, content. split; [apply in_or_app; right; now left|].
    exact Hdir. }
  all: right; split; [|reflexivity]; intros p content Hin;
    apply in_app_or in Hin as [Hin | [<- | []]];
    [ now apply (proj1 (existsb_is_file (fs w) (ancestors dir)) Habove) | congruence ].
Qed.

(** [writeFileSync] throws and changes nothing, or puts the file in the
    map. *)
Lemma writeFileSync_run (path data : string) (w : World) :
  (exists e, writeFileSync path data w = (Throw e, w))
  \/ (writeFileSync path data w
      = (Ok tt, {| fs := <[path := File data]> (fs w); console := console w;
                   ncalls := ncalls w |})
      /\ file_above (fs w) path = false /\ parent_missing (fs w) path = false).
Proof.
  unfold writeFileSync.
  destruct (String.eqb path ""); [left; eauto|].
  destruct (file_above (fs w) path); [left; eauto|].
  destruct (parent_missing (fs w) path); [left; eauto|].
  destruct (node_at (fs w) path) as [[old|]|]; [|left; eauto|];
    (destruct (Path.ends_with_slash path); [left; eauto | right; auto]).
Qed.

(** When [writeFileSync] writes. *)
Lemma writeFileSync_writes (path data : string) (w : World) :
  path <> "" ->
  file_above (fs w) path = false ->
  parent_missing (fs w) path = false ->
  node_at (fs w) path <> Some Dir ->
  Path.ends_with_slash path = false ->
  writeFileSync path data w
  = (Ok tt, {| fs := <[path := File data]> (fs w); console := console w; ncalls := ncalls w |}).
Proof.
  intros Hpath Habove Hparent Hnode Hend. unfold writeFileSync.
  apply String.eqb_neq in Hpath. rewrite Hpath, Habove, Hparent, Hend.
  destruct (node_at (fs w) path) as [[old|]|]; congruence.
Qed.

End FileSystem.

(** ** The article scanner *)

Section ScannerClaims.
Import Sys Scanner.
Variable dirname : string.

Abbreviation relative := "../../src/content".

Lemma content_dir_entry : PathShape.names_entry [dirname; relative].
Proof.
  unfold PathShape.names_entry.
  destruct (Js.truthy_str dirname) eqn:Hd.
  - rewrite parts_cons_truthy by exact Hd.
    change (Path.parts [relative]) with [relative].
    split; [discriminate|].
    rewrite join_cons by discriminate.
    change (Js.join [relative]) with ("../../src" +:+ "/" +:+ "content").
    replace (dirname +:+ "/" +:+ "../../src" +:+ "/" +:+ "content")
      with ((dirname +:+ "/" +:+ "../../src") +:+ "/" +:+ "content")
      by now rewrite !app_assoc_str.
    now apply names_entry_of_snoc.
  - destruct dirname; [|discriminate].
    split; [discriminate|]. split; reflexivity || discriminate.
Qed.

Lemma content_dir_flat : CONTENT_DIR dirname = Path.join [dirname; relative].
Proof. reflexivity. Qed.

Lemma parts_content (rest : list string) : Path.parts (dirname :: relative :: rest) <> [].
Proof.
  change (dirname :: relative :: rest) with ([dirname] ++ relative :: rest).
  rewrite parts_app, (parts_cons_truthy relative) by reflexivity.
  destruct (Path.parts [dirname]); discriminate.
Qed.

Lemma type_name_plain (t : ContentType) : PathShape.plain (type_name t) = true.
Proof. now destruct t. Qed.

Lemma base_flat (article : Article) :
  baseDir dirname article
  = Path.join [dirname; relative; type_name (type article); id article].
Proof.
  unfold baseDir, CONTENT_DIR.
  apply (path_join_nested [dirname; relative] [type_name (type article); id article]).
  - apply parts_content.
  - rewrite parts_cons_truthy by (apply plain_truthy, type_name_plain). discriminate.
Qed.

Lemma under_base_flat (article : Article) (rest : list string) :
  Path.parts rest <> [] ->
  Path.join (baseDir dirname article :: rest)
  = Path.join ([dirname; relative; type_name (type article); id article] ++ rest).
Proof.
  intros Hrest. rewrite base_flat. apply path_join_nested; [apply parts_content | exact Hrest].
Qed.

Lemma target_dir_index (article : Article) (targetLocale : string) :
  Path.join [Path.join [baseDir dirname article; targetLocale]; "index.md"]
  = Path.join [dirname; relative; type_name (type article); id article; targetLocale; "index.md"].
Proof.
  rewrite (path_join_nested [baseDir dirname article; targetLocale] ["index.md"]).
  - apply (under_base_flat article [targetLocale; "index.md"]).
    change [targetLocale; "index.md"] with ([targetLocale] ++ ["index.md"]).
    rewrite parts_app. destruct (Path.parts [targetLocale]); discriminate.
  - rewrite parts_cons_truthy by apply path_join_truthy. discriminate.
  - discriminate.
Qed.

Lemma target_flat (article : Article) (targetLocale : string) :
  Path.join [baseDir dirname article; targetLocale +:+ ".md"]
  = Path.join [dirname; relative; type_name (type article); id article; targetLocale +:+ ".md"].
Proof.
  apply (under_base_flat article [targetLocale +:+ ".md"]).
  rewrite parts_cons_truthy by (apply truthy_app_r; reflexivity). discriminate.
Qed.

Lemma no_slash_app (a b : string) :
  Js.no_slash a = true -> Js.no_slash b = true -> Js.no_slash (a +:+ b) = true.
Proof.
  intros Ha Hb. induction a as [|c a IH]; [exact Hb|].
  rewrite app_cons. simpl in *. apply andb_prop in Ha as [Hc Ha].
  now rewrite Hc, IH.
Qed.

Lemma eqb_by_length (s t : string) :
  String.length s <> String.length t -> String.eqb s t = false.
Proof. intros Hlen. apply String.eqb_neq. intros ->. now apply Hlen. Qed.

Lemma plain_md (targetLocale : string) :
  Js.no_slash targetLocale = true -> PathShape.plain (targetLocale +:+ ".md") = true.
Proof.
  intros Hno. unfold PathShape.plain.
  rewrite no_slash_app by (exact Hno || reflexivity).
  rewrite !eqb_by_length by (rewrite length_app; simpl; lia).
  reflexivity.
Qed.

(** The paths spelled out when the article and the locale are proper
    names. *)
Lemma article_paths_literal (article : Article) (targetLocale : string) :
  PathShape.plain (id article) = true -> PathShape.plain targetLocale = true ->
  Path.join [dirname; relative; type_name (type article); id article; targetLocale; "index.md"]
  = CONTENT_DIR dirname +:+ "/" +:+ type_name (type article) +:+ "/" +:+ id article
    +:+ "/" +:+ targetLocale +:+ "/index.md"
  /\ Path.join [dirname; relative; type_name (type article); id article; targetLocale +:+ ".md"]
     = CONTENT_DIR dirname +:+ "/" +:+ type_name (type article) +:+ "/" +:+ id article
       +:+ "/" +:+ targetLocale +:+ ".md".
Proof.
  intros Hid Htarget.
  destruct (path_join_snoc _ _ content_dir_entry (type_name_plain (type article)))
    as [Htype Etype].
  destruct (path_join_snoc _ _ Etype Hid) as [Harticle Earticle].
  destruct (path_join_snoc _ _ Earticle Htarget) as [Hlocale Elocale].
  destruct (path_join_snoc _ "index.md" Elocale eq_refl) as [Hindex _].
  assert (Hmd : PathShape.plain (targetLocale +:+ ".md") = true)
    by (apply plain_md; now destruct (plain_inv targetLocale Htarget)).
  destruct (path_join_snoc _ _ Earticle Hmd) as [Hfile _].
  simpl app in *. fold (CONTENT_DIR dirname) in Htype.
  split.
  - rewrite Hindex, Hlocale, Harticle, Htype. now rewrite !app_assoc_str.
  - rewrite Hfile, Harticle, Htype. now rewrite !app_assoc_str.
Qed.

(** For proper names the target paths are entries of the directories
    they name. *)
Lemma target_paths_entries (article : Article) (targetLocale : string) :
  PathShape.plain (id article) = true -> PathShape.plain targetLocale = true ->
  Path.join [baseDir dirname article; targetLocale]
  = baseDir dirname article +:+ "/" +:+ targetLocale
  /\ Path.join [Path.join [baseDir dirname article; targetLocale]; "index.md"]
     = Path.join [baseDir dirname article; targetLocale] +:+ "/" +:+ "index.md"
  /\ Path.join [baseDir dirname article; targetLocale +:+ ".md"]
     = baseDir dirname article +:+ "/" +:+ (targetLocale +:+ ".md").
Proof.
  intros Hid Htarget.
  destruct (path_join_snoc _ _ content_dir_entry (type_name_plain (type article)))
    as [_ Etype].
  destruct (path_join_snoc _ _ Etype Hid) as [_ Earticle].
  destruct (path_join_snoc _ _ Earticle Htarget) as [Hlocale Elocale].
  destruct (path_join_snoc _ "index.md" Elocale eq_refl) as [Hindex _].
  assert (Hmd : PathShape.plain (targetLocale +:+ ".md") = true)
    by (apply plain_md; now destruct (plain_inv targetLocale Htarget)).
  destruct (path_join_snoc _ _ Earticle Hmd) as [Hfile _].
  simpl app in *.
  assert (Hdir : Path.join [baseDir dirname article; targetLocale]
                 = baseDir dirname article +:+ "/" +:+ targetLocale).
  { rewrite (under_base_flat article [targetLocale])
      by (rewrite parts_cons_truthy by (now apply plain_truthy); discriminate).
    simpl app. now rewrite Hlocale, <- base_flat. }
  split; [exact Hdir|]. split.
  - rewrite target_dir_index, Hindex.
    rewrite (under_base_flat article [targetLocale])
      by (rewrite parts_cons_truthy by (now apply plain_truthy); discriminate).
    reflexivity.
  - now rewrite target_flat, Hfile, <- base_flat.
Qed.

(** C1.  The path for a new locale follows the shape of the source
    locale.  When the source locale is stored as a directory,
    [getTargetArticlePath] returns the normalised
    [<content>/<type>/<article>/<targetLocale>/index.md] and nothing else.
    It returns when no regular file is on the way down to that directory:
    afterwards the directory and its ancestors are directories (the missing
    ones are created), every other path is as before and whatever existed
    still exists.  It throws, and changes nothing, when a regular file is
    on the way.  When the source locale is stored flat it returns the
    normalised [<content>/<type>/<article>/<targetLocale>.md] and touches
    nothing.  For an article and a locale that are proper names the two
    paths are these strings literally. *)
Theorem target_path_mirrors_source_shape (article : Article)
    (sourceLocale targetLocale : string) (w : World) :
  let targetDir := Path.join [baseDir dirname article; targetLocale] in
  let index :=
    Path.join [dirname; relative; type_name (type article); id article; targetLocale;
               "index.md"] in
  let flat :=
    Path.join [dirname; relative; type_name (type article); id article;
               targetLocale +:+ ".md"] in
  (get_truthy (hasSubdirectory article) sourceLocale = true ->
   (forall p w', getTargetArticlePath dirname article sourceLocale targetLocale w = (Ok p, w') ->
                 p = index)
   /\ ((forall p content, In p (chain targetDir) -> node_at (fs w) p <> Some (File content)) ->
       exists w',
         getTargetArticlePath dirname article sourceLocale targetLocale w = (Ok index, w')
         /\ (forall p, In p (chain targetDir) -> node_at (fs w') p = Some Dir)
         /\ (forall p, ~ In p (chain targetDir) -> fs w' !! p = fs w !! p)
         /\ (forall p node, fs w !! p = Some node -> fs w' !! p = Some node)
         /\ console w' = console w /\ ncalls w' = ncalls w)
   /\ ((exists p content, In p (chain targetDir) /\ node_at (fs w) p = Some (File content)) ->
       exists e,
         getTargetArticlePath dirname article sourceLocale targetLocale w = (Throw e, w)))
  /\ (get_truthy (hasSubdirectory article) sourceLocale = false ->
      getTargetArticlePath dirname article sourceLocale targetLocale w = (Ok flat, w))
  /\ (PathShape.plain (id article) = true -> PathShape.plain targetLocale = true ->
      index = CONTENT_DIR dirname +:+ "/" +:+ type_name (type article) +:+ "/" +:+ id article
              +:+ "/" +:+ targetLocale +:+ "/index.md"
      /\ flat = CONTENT_DIR dirname +:+ "/" +:+ type_name (type article) +:+ "/" +:+ id article
                +:+ "/" +:+ targetLocale +:+ ".md").
Proof.
  intros targetDir index flat.
  split; [|split].
  - intros Hshape.
    assert (Hrun : getTargetArticlePath dirname article sourceLocale targetLocale w
                   = bind (mkdirSync_recursive targetDir) (fun _ => ret index) w).
    { unfold getTargetArticlePath. rewrite Hshape. cbv zeta.
      fold (baseDir dirname article). now rewrite target_dir_index. }
    rewrite Hrun. unfold bind.
    assert (Hdir : targetDir <> "") by apply truthy_str_neq, path_join_truthy.
    destruct (mkdirSync_recursive_run targetDir w Hdir)
      as [((q & old & Hq & Hold) & e & ->) | (Hfree & ->)].
    + split; [intros p w' Hp; discriminate|]. split.
      * intros Hnone. now destruct (Hnone q old Hq).
      * intros _. now exists e.
    + split; [intros p w' Hp; unfold ret in Hp; now injection Hp as <- _|]. split.
      * intros _. eexists. split; [reflexivity|]. cbn [fs console ncalls].
        split; [intros p Hp; now apply node_at_make_dirs_in|].
        split; [intros p Hp; now apply make_dirs_out|].
        split; [|split; reflexivity].
        intros p node Hnode.
        destruct (make_dirs_cases (chain targetDir) (fs w) p) as [-> | (Hin & Hp & ->)];
          [exact Hnode|].
        destruct node as [content|]; [|reflexivity].
        exfalso. apply (Hfree p content Hin). unfold node_at. now rewrite Hp.
      * intros (q & old & Hq & Hold). now destruct (Hfree q old Hq).
  - intros Hshape. unfold getTargetArticlePath. rewrite Hshape. cbv zeta.
    fold (baseDir dirname article). now rewrite target_flat.
  - apply article_paths_literal.
Qed.

End ScannerClaims.

Section ScannerWitnesses.
Import Sys Scanner Fixture.

Lemma target_path_mirrors_source_shape_witness :
  getTargetArticlePath "/repo/scripts/lib" demo "en" "ja" demo_world
  = (Ok "/repo/src/content/note/demo/ja.md", demo_world)
  /\ exists w',
       getTargetArticlePath "/repo/scripts/lib" demo_dir "en" "ja" demo_dir_world
       = (Ok "/repo/src/content/note/demo/ja/index.md", w')
       /\ (forall p, In p (chain "/repo/src/content/note/demo/ja") ->
                     node_at (fs w') p = Some Dir)
       /\ (forall p, ~ In p (chain "/repo/src/content/note/demo/ja") ->
                     fs w' !! p = fs demo_dir_world !! p)
       /\ (forall p node, fs demo_dir_world !! p = Some node -> fs w' !! p = Some node)
       /\ console w' = console demo_dir_world /\ ncalls w' = ncalls demo_dir_world.
Proof.
  split.
  - apply (target_path_mirrors_source_shape "/repo/scripts/lib" demo "en" "ja" demo_world).
    vm_compute. reflexivity.
  - apply (target_path_mirrors_source_shape "/repo/scripts/lib" demo_dir "en" "ja"
             demo_dir_world).
    + vm_compute. reflexivity.
    + intros p content Hin.
      repeat (destruct Hin as [<- | Hin]; [vm_compute; discriminate|]).
      destruct Hin.
Defined.

(** A regular file where the directory should go: nothing is created. *)
Example file_in_the_way :
  let w := {| fs := <["/repo/src/content/note/demo/ja" := File "notes"]> (fs demo_dir_world);
              console := []; ncalls := 0 |} in
  exists e, getTargetArticlePath "/repo/scripts/lib" demo_dir "en" "ja" w = (Throw e, w).
Proof. eexists. vm_compute. reflexivity. Qed.

Example demo_flat_never_directory :
  fst (getTargetArticlePath "/repo/scripts/lib" demo "en" "ja" demo_world)
  <> Ok "/repo/src/content/note/demo/ja/index.md".
Proof. vm_compute. discriminate. Qed.

End ScannerWitnesses.

Section DisclaimerWitness.
Import Translator.

(** The disclaimer of a French translation of a Chinese article, of a
    Japanese translation of an English one, and what a target named
    [toString] gets. *)
Example disclaimer_examples :
  generateWarningBox Config.config "note" "demo" "zh-cn" "fr"
  = "> [!NOTE]" +:+ Js.nl
    +:+ "> This article is AI-translated from the [中文 version](/note/demo). It may contain inaccuracies or hallucinations. Please refer to the original version for accuracy."
    +:+ Js.nl +:+ Js.nl
  /\ generateWarningBox Config.config "note" "demo" "en" "ja"
     = "> [!NOTE]" +:+ Js.nl
       +:+ "> この記事は [English版](/en/note/demo) から AI 翻訳されたものです。不正確な情報や幻覚が含まれる可能性があります。正確な情報は原文をご参照ください。"
       +:+ Js.nl +:+ Js.nl
  /\ generateWarningBox Config.config "note" "demo" "en" "toString"
     = "function toString() { [native code] }".
Proof. split; [|split]; reflexivity. Qed.

End DisclaimerWitness.

(** ** The scenarios of the translation script, run on the model *)

Section Scenarios.
Import Sys Scanner Translator Script Fixture.

Abbreviation run_demo article targets world :=
  (translation_loop "/repo/scripts/lib" Config.config body_only_translator article "en"
                    "Body" targets {| success := []; failed := [] |} world).

(** [demo] has [en.md] only: translating to [ja] writes [demo/ja.md] and
    no [demo/ja/index.md]. *)
Example scenario_flat :
  exists stats w',
    run_demo demo ["ja"] demo_world = (Ok stats, w')
    /\ success stats = ["ja"] /\ failed stats = []
    /\ fs w' !! "/repo/src/content/note/demo/ja.md"
       = Some (File (generateWarningBox Config.config "note" "demo" "en" "ja" +:+ "Hola"))
    /\ fs w' !! "/repo/src/content/note/demo/ja/index.md" = None
    /\ fs w' !! "/repo/src/content/note/demo/ja" = None
    /\ ncalls w' = 2.
Proof. eexists _, _. split; [vm_compute; reflexivity|]. vm_compute. auto 10. Qed.

(** [demo] has [en/index.md] only: translating to [ja] creates [demo/ja]
    and writes [demo/ja/index.md]. *)
Example scenario_directory :
  exists stats w',
    run_demo demo_dir ["ja"] demo_dir_world = (Ok stats, w')
    /\ success stats = ["ja"] /\ failed stats = []
    /\ fs w' !! "/repo/src/content/note/demo/ja" = Some Dir
    /\ fs w' !! "/repo/src/content/note/demo/ja/index.md"
       = Some (File (generateWarningBox Config.config "note" "demo" "en" "ja" +:+ "Hola"))
    /\ fs w' !! "/repo/src/content/note/demo/ja.md" = None.
Proof. eexists _, _. split; [vm_compute; reflexivity|]. vm_compute. auto 10. Qed.

(** An existing locale is skipped and its file is left alone, a new one
    is translated. *)
Example scenario_skip :
  exists stats w',
    run_demo demo ["en"; "ja"] demo_world = (Ok stats, w')
    /\ success stats = ["ja"] /\ failed stats = []
    /\ fs w' !! "/repo/src/content/note/demo/en.md" = Some (File "Body")
    /\ ncalls w' = 2.
Proof. eexists _, _. split; [vm_compute; reflexivity|]. vm_compute. auto. Qed.

(** Without the article's directory the flat file cannot be written: the
    locale fails and the disk stays empty. *)
Example scenario_no_directory :
  exists stats w',
    run_demo demo ["ja"] empty_world = (Ok stats, w')
    /\ success stats = [] /\ failed stats = ["ja"]
    /\ fs w' = ∅.
Proof. eexists _, _. split; [vm_compute; reflexivity|]. vm_compute. auto. Qed.

End Scenarios.

(** * Further properties of the code *)

(** ** The resolver: routes *)

Section ResolverRoutes.
Import Config Content.

Lemma or_else_empty (v : option string) (d : string) : Js.or_else v d = "" -> d = "".
Proof.
  unfold Js.or_else. destruct v as [s|]; [|auto].
  destruct s; simpl; [auto | discriminate].
Qed.

Lemma params_of_well_formed (cfg : SiteConfig) (id : string) :
  monolocale cfg = false ->
  2 <= length (Js.split id) ->
  Js.pop (Js.split id) <> Some "" ->
  exists path seg,
    id = path +:+ "/" +:+ seg
    /\ generatePathParams cfg id
       = {| locale := if String.eqb seg (defaultLocale (i18n cfg)) then None else Some seg;
            id := path |}.
Proof.
  intros Hmulti Hlen Hlast.
  destruct (two_segments id Hlen) as (path & seg & Hid & Hseg & _).
  exists path, seg. split; [exact Hid|]. subst id.
  rewrite pop_split_app in Hlast by exact Hseg.
  assert (Hne : seg <> "") by congruence.
  unfold generatePathParams. rewrite Hmulti.
  now rewrite extractLocale_final, extractPath_final.
Qed.

(** X1.  In multi-locale mode two identifiers of two segments or more
    with non-empty final segments that get the same route parameters are
    the same identifier. *)
Theorem generatePathParams_injective (cfg : SiteConfig) (id1 id2 : string) :
  monolocale cfg = false ->
  2 <= length (Js.split id1) -> Js.pop (Js.split id1) <> Some "" ->
  2 <= length (Js.split id2) -> Js.pop (Js.split id2) <> Some "" ->
  generatePathParams cfg id1 = generatePathParams cfg id2 ->
  id1 = id2.
Proof.
  intros Hmulti Hlen1 Hlast1 Hlen2 Hlast2 Heq.
  destruct (params_of_well_formed cfg id1 Hmulti Hlen1 Hlast1) as (p1 & s1 & -> & H1).
  destruct (params_of_well_formed cfg id2 Hmulti Hlen2 Hlast2) as (p2 & s2 & -> & H2).
  rewrite H1, H2 in Heq. injection Heq as Hloc Hpath. subst p2.
  destruct (String.eqb_spec s1 (defaultLocale (i18n cfg))) as [E1|N1];
    destruct (String.eqb_spec s2 (defaultLocale (i18n cfg))) as [E2|N2];
    try discriminate.
  - now rewrite E1, E2.
  - now injection Hloc as ->.
Qed.

Lemma generatePathParams_injective_witness : "a/b/en" = "a/b/en".
Proof.
  apply (generatePathParams_injective config "a/b/en" "a/b/en");
    try reflexivity; try discriminate; simpl; lia.
Defined.

(** X2.  In multi-locale mode a content entry belongs to a locale
    exactly when its route carries that locale: no locale for the default
    one, the locale itself for any other. *)
Theorem content_locale_matches_route (cfg : SiteConfig) (id locale : string) :
  monolocale cfg = false ->
  (isContentForLocale cfg id locale = true
   <-> Content.locale (generatePathParams cfg id)
       = if String.eqb locale (defaultLocale (i18n cfg)) then None else Some locale).
Proof.
  intros Hmulti. unfold isContentForLocale, generatePathParams. rewrite Hmulti. simpl.
  destruct (String.eqb_spec (extractLocaleFromId cfg id) locale) as [E|N];
    destruct (String.eqb_spec (extractLocaleFromId cfg id) (defaultLocale (i18n cfg)))
      as [Ed|Nd];
    destruct (String.eqb_spec locale (defaultLocale (i18n cfg))) as [El|Nl];
    split; intros Hx; try reflexivity; try discriminate; try congruence.
Qed.

Lemma content_locale_matches_route_witness :
  isContentForLocale config "my-post/zh-cn" "zh-cn" = true
  <-> Content.locale (generatePathParams config "my-post/zh-cn") = None.
Proof. apply (content_locale_matches_route config "my-post/zh-cn" "zh-cn"). reflexivity. Defined.

(** X3.  In multi-locale mode an identifier without separator has an
    empty path: the whole identifier is taken for the locale (the default
    locale for the empty identifier). *)
Theorem single_segment_is_all_locale (cfg : SiteConfig) (id : string) :
  monolocale cfg = false ->
  Js.no_slash id = true ->
  extractPathFromId cfg id = ""
  /\ extractLocaleFromId cfg id = (if Js.truthy_str id then id else defaultLocale (i18n cfg))
  /\ Content.id (generatePathParams cfg id) = "".
Proof.
  intros Hmulti Hid.
  assert (Hpath : extractPathFromId cfg id = "").
  { unfold extractPathFromId, Js.slice_0_m1. rewrite Hmulti.
    now rewrite (split_no_slash id Hid). }
  split; [exact Hpath|]. split.
  - unfold extractLocaleFromId, Js.pop. now rewrite (split_no_slash id Hid).
  - unfold generatePathParams. rewrite Hmulti. exact Hpath.
Qed.

Lemma single_segment_is_all_locale_witness :
  extractPathFromId config "my-post" = ""
  /\ extractLocaleFromId config "my-post" = "my-post"
  /\ Content.id (generatePathParams config "my-post") = "".
Proof. apply (single_segment_is_all_locale config "my-post"); reflexivity. Defined.

(** X4.  The link of the disclaimer is the route of the source article:
    for an article stored as [articleId/sourceLocale], the URL is the
    collection and the path of the route parameters, behind the locale of
    the route parameters when they carry one. *)
Theorem source_url_is_route (cfg : SiteConfig) (collection articleId sourceLocale : string) :
  monolocale cfg = false ->
  Js.no_slash sourceLocale = true -> sourceLocale <> "" ->
  let generated := generatePathParams cfg (articleId +:+ "/" +:+ sourceLocale) in
  Translator.generateSourceUrl cfg collection articleId sourceLocale
  = match Content.locale generated with
    | None => "/" +:+ collection +:+ "/" +:+ Content.id generated
    | Some locale => "/" +:+ locale +:+ "/" +:+ collection +:+ "/" +:+ Content.id generated
    end.
Proof.
  intros Hmulti Hno Hne generated. unfold generated, generatePathParams.
  rewrite Hmulti, extractLocale_final, extractPath_final by assumption.
  unfold Translator.generateSourceUrl. simpl.
  now destruct (String.eqb sourceLocale (defaultLocale (i18n cfg))).
Qed.

Lemma source_url_is_route_witness :
  Translator.generateSourceUrl config "note" "demo" "en" = "/en/note/demo".
Proof.
  rewrite (source_url_is_route config "note" "demo" "en");
    [reflexivity | reflexivity | reflexivity | discriminate].
Defined.

End ResolverRoutes.

(** ** The Open Graph image route *)

Section OgImageFacts.
Import Config Content OgImage.
Context {Timestamp Series Tags : Type}.

Abbreviation note := (Note Timestamp Series Tags).
Abbreviation static_path := (StaticPath Timestamp Series Tags).

Lemma route_locale_recovered (cfg : SiteConfig) (id : string) :
  Js.or_else (locale (generatePathParams cfg id)) (defaultLocale (i18n cfg))
  = if monolocale cfg then defaultLocale (i18n cfg) else extractLocaleFromId cfg id.
Proof.
  unfold generatePathParams. destruct (monolocale cfg); [reflexivity|]. simpl.
  destruct (String.eqb_spec (extractLocaleFromId cfg id) (defaultLocale (i18n cfg)))
    as [E|N]; [now rewrite E|].
  simpl. destruct (Js.truthy_str (extractLocaleFromId cfg id)) eqn:Ht; [reflexivity|].
  exfalso. apply N.
  assert (Hempty : extractLocaleFromId cfg id = "")
    by (destruct (extractLocaleFromId cfg id); [reflexivity | discriminate]).
  rewrite Hempty. symmetry. exact (or_else_empty _ _ Hempty).
Qed.

(** X5.  The static paths are those of the notes that are not drafts,
    one each and in their order; the image of a path is drawn for the
    locale of its note (the default locale in single-locale mode) and with
    the note's title. *)
Theorem og_image_paths (cfg : SiteConfig) (collection : list note) :
  let published := List.filter (fun n => negb (draft (data n))) collection in
  map (fun route => params route) (getStaticPaths cfg collection)
  = map (fun n => generatePathParams cfg (note_id n)) published
  /\ map (fun route => graph_locale (GET cfg route))
         (getStaticPaths cfg collection)
     = map (fun n => if monolocale cfg then defaultLocale (i18n cfg)
                     else extractLocaleFromId cfg (note_id n)) published
  /\ map (fun route => graph_title (GET cfg route))
         (getStaticPaths cfg collection)
     = map (fun n => note_title (data n)) published.
Proof.
  intros published. unfold getStaticPaths. fold published.
  rewrite !map_map. repeat split.
  - apply map_ext. intros n. simpl. now destruct (generatePathParams cfg (note_id n)).
  - apply map_ext. intros n. simpl. apply route_locale_recovered.
Qed.

End OgImageFacts.

(** ** The translator: requests and values *)

Section TranslatorRuns.
Import Sys Translator Shape.

Lemma answer_some (r : Response) (s : string) :
  answer r = Some s ->
  s <> "" /\ exists content rest, r = Completion (Some content :: rest) /\ s = Js.trim content.
Proof.
  unfold answer. destruct r as [e | [|[content|] rest]]; try discriminate.
  destruct (Js.truthy_str (Js.trim content)) eqn:Ht; [|discriminate].
  intros [= <-]. split; [now apply truthy_str_neq | eauto].
Qed.

Context `{GrayMatter}.

(** X6.  [translateArticle] sends one request for the body and one for
    each of title and description that is present and truthy, whether it
    succeeds or fails on the body; it sends none when the frontmatter
    cannot be parsed.  It never touches the file system. *)
Theorem translateArticle_requests (cfg : Config.SiteConfig) (tr : Translator)
    (sourceContent collection articleId sourceLocale targetLocale : string) (w : World) :
  let w' := snd (translateArticle cfg tr sourceContent collection articleId sourceLocale
                                  targetLocale w) in
  fs w' = fs w
  /\ match matter sourceContent with
     | Ok (data, _) =>
         ncalls w' = (ncalls w + (if present data "title" then 1 else 0)
                      + (if present data "description" then 1 else 0) + 1)%nat
     | Throw _ => ncalls w' = ncalls w
     end.
Proof.
  intros w'. split; [apply translateArticle_keeps_files|].
  destruct (matter sourceContent) as [[data content]|e] eqn:Hparse.
  - destruct (translateArticle_steps cfg tr sourceContent collection articleId sourceLocale
                targetLocale data content w Hparse)
      as (td1 & wa & td2 & wb & _ & _ & _ & Hn & Hrun).
    unfold w'. rewrite Hrun.
    match goal with
    | |- context [bind _ _ ?wc] =>
        destruct (translateMarkdown_result tr content sourceLocale targetLocale wc)
          as (w2 & _ & Hn2 & Hres)
    end.
    simpl in Hn2.
    destruct (answer _).
    + rewrite (bind_Ok _ _ _ _ _ Hres). simpl. lia.
    + destruct Hres as [e He]. rewrite (bind_Throw _ _ _ _ _ He). simpl. lia.
  - unfold w'. now rewrite (translateArticle_unparsed _ _ _ _ _ _ _ e w Hparse).
Qed.

(** X7.  In the file [translateArticle] returns, title and description
    each have the source's value or the non-empty trimmed text the service
    answered for it; so a field that is present in the source is never
    blanked, and a field that is absent or falsy is left as it is. *)
Theorem translated_fields (cfg : Config.SiteConfig) (tr : Translator)
    (sourceContent collection articleId sourceLocale targetLocale : string)
    (w w' : World) (out : string) :
  translateArticle cfg tr sourceContent collection articleId sourceLocale targetLocale w
  = (Ok out, w') ->
  exists data content translatedData translated,
    matter sourceContent = Ok (data, content)
    /\ out = matter_stringify
               (generateWarningBox cfg collection articleId sourceLocale targetLocale
                +:+ translated) translatedData
    /\ forall key, key = "title" \/ key = "description" ->
         present translatedData key = present data key
         /\ (present data key = false -> translatedData !! key = data !! key)
         /\ (translatedData !! key = data !! key
             \/ exists v n answered,
                  data !! key = Some v
                  /\ answer (client tr n (text_request tr v targetLocale)) = Some answered
                  /\ answered <> ""
                  /\ translatedData !! key = Some (VStr answered)).
Proof.
  intros Hrun.
  destruct (matter sourceContent) as [[data content]|e] eqn:Hparse.
  2:{ rewrite (translateArticle_unparsed _ _ _ _ _ _ _ e w Hparse) in Hrun. discriminate. }
  destruct (translateArticle_steps cfg tr sourceContent collection articleId sourceLocale
              targetLocale data content w Hparse)
    as (td1 & wa & td2 & wb & Ht & Hd & _ & _ & Hsteps).
  rewrite Hsteps in Hrun. unfold bind in Hrun.
  destruct (translateMarkdown tr content sourceLocale targetLocale _) as [[translated|e] w2];
    [|discriminate].
  unfold ret in Hrun. injection Hrun as <- _.
  exists data, content, td2, translated. split; [reflexivity|]. split; [reflexivity|].
  destruct (translateField_exact tr "title" data data targetLocale w) as (? & _ & _ & Ht').
  rewrite Ht in Ht'. injection Ht' as Htd1 _.
  destruct (translateField_exact tr "description" data td1 targetLocale wa)
    as (? & _ & _ & Hd').
  rewrite Hd in Hd'. injection Hd' as Htd2 _.
  assert (Hfield : forall key other (before after : gmap string Value) n,
             other <> key ->
             before !! key = data !! key ->
             after = match data !! key with
                     | Some v =>
                         if truthy v then
                           <[key := match answer (client tr n (text_request tr v targetLocale))
                                    with
                                    | Some translated => VStr translated
                                    | None => v
                                    end]> before
                         else before
                     | None => before
                     end ->
             after !! other = before !! other
             /\ present after key = present data key
             /\ (present data key = false -> after !! key = data !! key)
             /\ (after !! key = data !! key
                 \/ exists v n answered,
                      data !! key = Some v
                      /\ answer (client tr n (text_request tr v targetLocale)) = Some answered
                      /\ answered <> ""
                      /\ after !! key = Some (VStr answered))).
  { intros key other before after n Hother Hbefore ->. unfold present.
    destruct (data !! key) as [v|] eqn:Hv; [|rewrite Hbefore; auto].
    destruct (truthy v) eqn:Htruthy; [|rewrite Hbefore; auto].
    rewrite lookup_insert_eq, lookup_insert_ne by congruence.
    split; [reflexivity|].
    destruct (answer _) as [answered|] eqn:Ha.
    - destruct (answer_some _ _ Ha) as [Hne _].
      split; [simpl; now apply truthy_str_neq|]. split; [discriminate|].
      right. exists v, n, answered. auto.
    - split; [exact Htruthy|]. split; [discriminate|]. now left. }
  destruct (Hfield "title" "description" data td1 (ncalls w) ltac:(discriminate) eq_refl Htd1)
    as (Hkeep1 & Hp1 & Hf1 & Hv1).
  destruct (Hfield "description" "title" td1 td2 (ncalls wa) ltac:(discriminate) Hkeep1 Htd2)
    as (Hkeep2 & Hp2 & Hf2 & Hv2).
  intros key [-> | ->].
  - unfold present in *. rewrite Hkeep2. auto.
  - auto.
Qed.

(** X8.  The body of the file [translateArticle] returns is the
    disclaimer followed by the trimmed content of the first choice the
    service answered to the body request, and that text is not empty. *)
Theorem translated_body (cfg : Config.SiteConfig) (tr : Translator)
    (sourceContent collection articleId sourceLocale targetLocale : string)
    (w w' : World) (out : string) :
  translateArticle cfg tr sourceContent collection articleId sourceLocale targetLocale w
  = (Ok out, w') ->
  exists data content translatedData n answered rest,
    matter sourceContent = Ok (data, content)
    /\ client tr n (markdown_request tr content sourceLocale targetLocale)
       = Completion (Some answered :: rest)
    /\ Js.trim answered <> ""
    /\ out = matter_stringify
               (generateWarningBox cfg collection articleId sourceLocale targetLocale
                +:+ Js.trim answered) translatedData.
Proof.
  intros Hrun.
  destruct (matter sourceContent) as [[data content]|e] eqn:Hparse.
  2:{ rewrite (translateArticle_unparsed _ _ _ _ _ _ _ e w Hparse) in Hrun. discriminate. }
  destruct (translateArticle_steps cfg tr sourceContent collection articleId sourceLocale
              targetLocale data content w Hparse)
    as (td1 & wa & td2 & wb & _ & _ & _ & _ & Hsteps).
  rewrite Hsteps in Hrun.
  match type of Hrun with
  | context [bind _ _ ?wc] =>
      destruct (translateMarkdown_result tr content sourceLocale targetLocale wc)
        as (w2 & _ & _ & Hres)
  end.
  destruct (answer _) as [translated|] eqn:Ha.
  - rewrite (bind_Ok _ _ _ _ _ Hres) in Hrun. unfold ret in Hrun. injection Hrun as <- _.
    destruct (answer_some _ _ Ha) as (Hne & answered & rest & Hresp & ->).
    exists data, content, td2, (ncalls wb), answered, rest. auto.
  - destruct Hres as [e He]. rewrite (bind_Throw _ _ _ _ _ He) in Hrun. discriminate.
Qed.

End TranslatorRuns.

Section TranslatorRunWitnesses.
Import Sys Translator Shape Fixture.

Lemma translated_fields_witness :
  exists data content translatedData translated,
    matter "Body" = Ok (data, content)
    /\ generateWarningBox Config.config "note" "demo" "en" "ja" +:+ "Hola"
       = matter_stringify
           (generateWarningBox Config.config "note" "demo" "en" "ja" +:+ translated)
           translatedData
    /\ forall key, key = "title" \/ key = "description" ->
         present translatedData key = present data key
         /\ (present data key = false -> translatedData !! key = data !! key)
         /\ (translatedData !! key = data !! key
             \/ exists v n answered,
                  data !! key = Some v
                  /\ answer (client body_only_translator n
                               (text_request body_only_translator v "ja")) = Some answered
                  /\ answered <> ""
                  /\ translatedData !! key = Some (VStr answered)).
Proof.
  apply (translated_fields Config.config body_only_translator
           "Body" "note" "demo" "en" "ja" empty_world
           (snd (translateArticle Config.config body_only_translator
                                  "Body" "note" "demo" "en" "ja" empty_world))).
  vm_compute. reflexivity.
Defined.

Lemma translated_body_witness :
  exists data content translatedData n answered rest,
    matter "Body" = Ok (data, content)
    /\ client body_only_translator n (markdown_request body_only_translator content "en" "ja")
       = Completion (Some answered :: rest)
    /\ Js.trim answered <> ""
    /\ generateWarningBox Config.config "note" "demo" "en" "ja" +:+ "Hola"
       = matter_stringify
           (generateWarningBox Config.config "note" "demo" "en" "ja" +:+ Js.trim answered)
           translatedData.
Proof.
  apply (translated_body Config.config body_only_translator
           "Body" "note" "demo" "en" "ja" empty_world
           (snd (translateArticle Config.config body_only_translator
                                  "Body" "note" "demo" "en" "ja" empty_world))).
  vm_compute. reflexivity.
Defined.

End TranslatorRunWitnesses.

(** ** Setting up the translator *)

Section SetupFacts.
Import Sys Translator Setup.
Variable OpenAI : string -> string -> Client.
Variable env : Env.

Lemma falsy_or_opt (a b : option string) : falsy (or_opt a b) = falsy a && falsy b.
Proof.
  destruct a as [s|]; simpl; [|reflexivity].
  destruct (Js.truthy_str s) eqn:Hs; simpl; [now rewrite Hs | reflexivity].
Qed.

(** X9.  [createTranslator] throws exactly when neither the argument nor
    the environment gives a non-empty key; the key, the base URL and the
    model passed as arguments come before those of the environment, and the
    defaults are the OpenAI endpoint and [gpt-4].  So once the script's check
    of [TRANSLATE_API_KEY] has passed, [createTranslator()] returns. *)
Theorem createTranslator_key (apiKey baseURL model : option string) :
  match createTranslator OpenAI env apiKey baseURL model with
  | Ok translator =>
      exists key,
        or_opt apiKey (TRANSLATE_API_KEY env) = Some key /\ key <> ""
        /\ client translator
           = OpenAI key (Js.or_else (or_opt baseURL (TRANSLATE_API_BASE_URL env))
                                    "https://api.openai.com/v1")
        /\ Translator.model translator
           = Js.or_else (or_opt model (TRANSLATE_MODEL env)) "gpt-4"
  | Throw _ => falsy apiKey = true /\ falsy (TRANSLATE_API_KEY env) = true
  end
  /\ (key_configured env = true ->
      exists translator, createTranslator OpenAI env None None None = Ok translator).
Proof.
  split.
  - unfold createTranslator.
    pose proof (falsy_or_opt apiKey (TRANSLATE_API_KEY env)) as Hf.
    destruct (or_opt apiKey (TRANSLATE_API_KEY env)) as [key|].
    + simpl in Hf. destruct (Js.truthy_str key) eqn:Hkey.
      * exists key. repeat split. now apply truthy_str_neq.
      * simpl in Hf. symmetry in Hf. now apply andb_prop in Hf.
    + simpl in Hf. symmetry in Hf. now apply andb_prop in Hf.
  - unfold key_configured, createTranslator. simpl.
    destruct (TRANSLATE_API_KEY env) as [key|]; simpl; [|discriminate].
    destruct (Js.truthy_str key); [eauto | discriminate].
Qed.

End SetupFacts.

Section SetupWitness.
Import Sys Translator Setup Sample.

Lemma createTranslator_key_witness :
  exists translator, createTranslator unreachable env_with_key None None None = Ok translator.
Proof.
  apply (proj2 (createTranslator_key unreachable env_with_key None None None)).
  reflexivity.
Defined.

End SetupWitness.

(** ** The translation loop: outcomes *)

Section LoopOutcomes.
Import Sys Scanner Translator Script Shape PathShape.
Context `{GrayMatter}.
Variable dirname : string.
Variable cfg : Config.SiteConfig.
Variable translator : Translator.
Variable article : Article.
Variable sourceLocale : string.
Variable sourceContent : string.

Abbreviation body := (loop_body dirname cfg translator article sourceLocale sourceContent).
Abbreviation loop := (translation_loop dirname cfg translator article sourceLocale sourceContent).
Abbreviation started targetLocale w :=
  (logged (Log (Js.nl +:+ "📖 Translating to " +:+ getLanguageName targetLocale +:+ "...")) w).
Abbreviation target_dir targetLocale :=
  (Path.join [baseDir dirname article; targetLocale%string]).
Abbreviation target_path targetLocale :=
  (if get_truthy (hasSubdirectory article) sourceLocale
   then Path.join [target_dir targetLocale; "index.md"]
   else Path.join [baseDir dirname article; targetLocale +:+ ".md"]).

Lemma same_files_refl (w : World) : same_files w w.
Proof. intros path content. reflexivity. Qed.

Lemma same_files_trans (w1 w2 w3 : World) :
  same_files w1 w2 -> same_files w2 w3 -> same_files w1 w3.
Proof.
  intros H12 H23 path content.
  etransitivity; [apply H23 | apply H12].
Qed.

Lemma same_files_fs (w w' : World) : fs w' = fs w -> same_files w w'.
Proof. intros Hfs path content. now rewrite Hfs. Qed.

(** What [getTargetArticlePath] does: it throws and changes nothing, or
    returns the target path, having made directories at most. *)
Lemma getTargetArticlePath_run (targetLocale : string) (w : World) :
  (exists e,
      getTargetArticlePath dirname article sourceLocale targetLocale w = (Throw e, w))
  \/ (exists w',
         getTargetArticlePath dirname article sourceLocale targetLocale w
         = (Ok (target_path targetLocale), w')
         /\ same_files w w'
         /\ (forall p, fs w' !! p = fs w !! p
                       \/ (In p (chain (target_dir targetLocale))
                           /\ fs w' !! p = Some Dir))).
Proof.
  unfold getTargetArticlePath. cbv zeta. fold (baseDir dirname article).
  destruct (get_truthy (hasSubdirectory article) sourceLocale).
  2:{ right. exists w. split; [reflexivity|]. split; [apply same_files_refl | now left]. }
  unfold bind.
  assert (Hnamed : target_dir targetLocale <> "") by apply truthy_str_neq, path_join_truthy.
  destruct (mkdirSync_recursive_run (target_dir targetLocale) w Hnamed)
    as [(_ & e & ->) | (Hfree & ->)]; [left; now exists e|].
  right. eexists. split; [reflexivity|]. cbn [fs]. split.
  - intros p content. now apply make_dirs_files.
  - intros p.
    destruct (make_dirs_cases (chain (target_dir targetLocale)) (fs w) p)
      as [Hsame | (Hin & _ & Hdir)]; auto.
Qed.

Lemma getTargetArticlePath_files (targetLocale : string) (w : World) :
  same_files w (snd (getTargetArticlePath dirname article sourceLocale targetLocale w)).
Proof.
  destruct (getTargetArticlePath_run targetLocale w) as [[e ->] | (w' & -> & Hsame & _)];
    [apply same_files_refl | exact Hsame].
Qed.

Lemma getTargetArticlePath_path (targetLocale : string) (w w' : World) (path : string) :
  getTargetArticlePath dirname article sourceLocale targetLocale w = (Ok path, w') ->
  path = target_path targetLocale.
Proof.
  destruct (getTargetArticlePath_run targetLocale w) as [[e ->] | (w1 & -> & _)];
    congruence.
Qed.

(** The three ways an iteration ends. *)
Lemma loop_body_cases (stats : Stats) (targetLocale : string) (w : World) :
  exists stats' w',
    body stats targetLocale w = (Ok stats', w')
    /\ ((targetExists article targetLocale = true /\ stats' = stats /\ fs w' = fs w)
        \/ (targetExists article targetLocale = false
            /\ stats' = push_failed stats targetLocale /\ same_files w w')
        \/ (targetExists article targetLocale = false
            /\ stats' = push_success stats targetLocale
            /\ exists out w1,
                 translateArticle cfg translator sourceContent (type_name (type article))
                                  (id article) sourceLocale targetLocale
                                  (started targetLocale w) = (Ok out, w1)
                 /\ fs w' !! target_path targetLocale = Some (File out)
                 /\ forall path content,
                      path <> target_path targetLocale ->
                      (fs w' !! path = Some (File content)
                       <-> fs w !! path = Some (File content)))).
Proof.
  destruct (targetExists article targetLocale) eqn:Hexists.
  { eexists _, _. split; [now apply loop_body_skips|]. left. auto. }
  destruct (translateArticle cfg translator sourceContent (type_name (type article))
              (id article) sourceLocale targetLocale (started targetLocale w))
    as [[out|e] w1] eqn:Harticle.
  2:{ eexists _, _. split; [now apply (loop_body_fails _ _ _ _ _ _ _ _ _ w1 e)|].
      right. left. split; [reflexivity|]. split; [reflexivity|].
      apply same_files_fs. simpl.
      pose proof (translateArticle_keeps_files cfg translator sourceContent
                    (type_name (type article)) (id article) sourceLocale targetLocale
                    (started targetLocale w)) as Hfs.
      now rewrite Harticle in Hfs. }
  assert (Hfs1 : fs w1 = fs w).
  { pose proof (translateArticle_keeps_files cfg translator sourceContent
                  (type_name (type article)) (id article) sourceLocale targetLocale
                  (started targetLocale w)) as Hfs.
    now rewrite Harticle in Hfs. }
  pose proof (getTargetArticlePath_files targetLocale w1) as Hfiles2.
  destruct (getTargetArticlePath dirname article sourceLocale targetLocale w1)
    as [[path|e] w2] eqn:Hpath.
  2:{ eexists _, _. split.
      - unfold loop_body. rewrite (bind_Ok _ _ _ _ _ (console_log_run _ w)). rewrite Hexists.
        rewrite (try_Throw _ _ _ w2 e)
          by (rewrite (bind_Ok _ _ _ _ _ Harticle); now rewrite (bind_Throw _ _ _ _ _ Hpath)).
        now rewrite (bind_Ok _ _ _ _ _ (console_error_run _ _ _)).
      - right. left. split; [reflexivity|]. split; [reflexivity|].
        apply (same_files_trans _ w1); [now apply same_files_fs|].
        apply (same_files_trans _ w2); [exact Hfiles2 | now apply same_files_fs]. }
  pose proof (getTargetArticlePath_path _ _ _ _ Hpath) as ->.
  simpl in Hfiles2.
  destruct (writeFileSync_run (target_path targetLocale) out w2) as [[e Hwrite] | [Hwrite _]].
  { eexists _, _. split.
    - unfold loop_body. rewrite (bind_Ok _ _ _ _ _ (console_log_run _ w)). rewrite Hexists.
      rewrite (try_Throw _ _ _ w2 e).
      + now rewrite (bind_Ok _ _ _ _ _ (console_error_run _ _ _)).
      + rewrite (bind_Ok _ _ _ _ _ Harticle), (bind_Ok _ _ _ _ _ Hpath).
        now rewrite (bind_Throw _ _ _ _ _ Hwrite).
    - right. left. split; [reflexivity|]. split; [reflexivity|].
      apply (same_files_trans _ w1); [now apply same_files_fs|].
      apply (same_files_trans _ w2); [exact Hfiles2 | now apply same_files_fs]. }
  eexists _, _. split.
  - unfold loop_body. rewrite (bind_Ok _ _ _ _ _ (console_log_run _ w)). rewrite Hexists.
    apply try_Ok.
    rewrite (bind_Ok _ _ _ _ _ Harticle), (bind_Ok _ _ _ _ _ Hpath),
      (bind_Ok _ _ _ _ _ Hwrite).
    now rewrite (bind_Ok _ _ _ _ _ (console_log_run _ _)).
  - right. right. split; [reflexivity|]. split; [reflexivity|].
    exists out, w1. split; [reflexivity|]. simpl. split; [apply lookup_insert_eq|].
    intros path content Hne. rewrite lookup_insert_ne by congruence.
    rewrite (Hfiles2 path content). now rewrite Hfs1.
Qed.

(** X10.  Every iteration of the loop returns, in one of three ways.  An
    existing locale is skipped: tally and file system are unchanged.  A
    failed locale is pushed on the failure list and no regular file is
    created or changed.  A successful locale is pushed on the success list
    and exactly one regular file is written: the article that
    [translateArticle] returned, at the target path; every other regular
    file is as before. *)
Theorem loop_body_outcomes (stats : Stats) (targetLocale : string) (w : World) :
  exists stats' w',
    body stats targetLocale w = (Ok stats', w')
    /\ ((targetExists article targetLocale = true /\ stats' = stats /\ fs w' = fs w)
        \/ (targetExists article targetLocale = false
            /\ stats' = push_failed stats targetLocale /\ same_files w w')
        \/ (targetExists article targetLocale = false
            /\ stats' = push_success stats targetLocale
            /\ exists out w1,
                 translateArticle cfg translator sourceContent (type_name (type article))
                                  (id article) sourceLocale targetLocale
                                  (started targetLocale w) = (Ok out, w1)
                 /\ fs w' !! target_path targetLocale = Some (File out)
                 /\ forall path content,
                      path <> target_path targetLocale ->
                      (fs w' !! path = Some (File content)
                       <-> fs w !! path = Some (File content)))).
Proof. apply loop_body_cases. Qed.

Lemma loop_body_counts (stats stats' : Stats) (targetLocale : string) (w w' : World) :
  body stats targetLocale w = (Ok stats', w') ->
  (length (success stats') + length (failed stats')
   = length (success stats) + length (failed stats)
     + if targetExists article targetLocale then 0 else 1)%nat
  /\ (forall locale, In locale (success stats') ->
                     In locale (success stats) \/ locale = targetLocale)
  /\ (forall locale, In locale (failed stats') ->
                     In locale (failed stats) \/ locale = targetLocale).
Proof.
  intros Hbody.
  destruct (loop_body_cases stats targetLocale w) as (stats1 & w1 & Hrun & Hcases).
  rewrite Hbody in Hrun. injection Hrun as <- <-.
  destruct Hcases as [(Hex & -> & _) | [(Hex & -> & _) | (Hex & -> & _)]];
    rewrite Hex; simpl; rewrite ?List.length_app; simpl.
  - split; [lia|]. split; intros locale Hin; now left.
  - split; [lia|]. split; intros locale Hin; [now left|].
    apply in_app_or in Hin as [Hin | [<- | []]]; auto.
  - split; [lia|]. split; intros locale Hin; [|now left].
    apply in_app_or in Hin as [Hin | [<- | []]]; auto.
Qed.

(** The tally after the loop, counted. *)
Lemma translation_loop_counts (targetLocales : list string) (stats : Stats) (w : World) :
  exists stats' w',
    loop targetLocales stats w = (Ok stats', w')
    /\ (length (success stats') + length (failed stats')
        = length (success stats) + length (failed stats)
          + length (List.filter (fun locale => negb (targetExists article locale))
                                targetLocales))%nat
    /\ (forall locale, In locale (success stats') ->
                       In locale (success stats) \/ In locale targetLocales)
    /\ (forall locale, In locale (failed stats') ->
                       In locale (failed stats) \/ In locale targetLocales).
Proof.
  revert stats w.
  induction targetLocales as [|targetLocale rest IH]; intros stats w.
  - exists stats, w. simpl. repeat split; auto with arith.
  - destruct (loop_body_returns dirname cfg translator article sourceLocale sourceContent
                stats targetLocale w) as (stats1 & w1 & Hbody & _).
    destruct (loop_body_counts _ _ _ _ _ Hbody) as (Hlen1 & Hs1 & Hf1).
    destruct (IH stats1 w1) as (stats' & w' & Hloop & Hlen & Hs & Hf).
    exists stats', w'. split.
    + now rewrite (translation_loop_cons _ _ _ _ _ _ _ _ _ _ _ _ Hbody).
    + simpl List.filter.
      split; [destruct (targetExists article targetLocale); simpl in *; lia|].
      split; intros locale Hin.
      * destruct (Hs locale Hin) as [Hin1 | Hin1]; [|right; now right].
        destruct (Hs1 locale Hin1) as [? | ->]; [now left | right; now left].
      * destruct (Hf locale Hin) as [Hin1 | Hin1]; [|right; now right].
        destruct (Hf1 locale Hin1) as [? | ->]; [now left | right; now left].
Qed.

(** X11.  The loop always returns, and its tally accounts for every
    requested locale: the success and failure lists grow together by the
    number of requested locales that the article does not have yet, and
    only requested locales are added to them. *)
Theorem tally_accounts_for_targets (targetLocales : list string) (stats : Stats) (w : World) :
  exists stats' w',
    loop targetLocales stats w = (Ok stats', w')
    /\ (length (success stats') + length (failed stats')
        = length (success stats) + length (failed stats)
          + length (List.filter (fun locale => negb (targetExists article locale))
                                targetLocales))%nat
    /\ (forall locale, In locale (success stats') ->
                       In locale (success stats) \/ In locale targetLocales)
    /\ (forall locale, In locale (failed stats') ->
                       In locale (failed stats) \/ In locale targetLocales).
Proof. apply translation_loop_counts. Qed.

Lemma available_not_existing (targetLocale : string) :
  In targetLocale (Setup.availableTargets cfg article) <->
  In targetLocale (Config.locales (Config.i18n cfg))
  /\ targetExists article targetLocale = false.
Proof.
  unfold Setup.availableTargets, targetExists. rewrite filter_In.
  now rewrite negb_true_iff.
Qed.

Lemma filter_all {A} (f : A -> bool) (xs : list A) :
  (forall x, In x xs -> f x = true) -> List.filter f xs = xs.
Proof.
  induction xs as [|x xs IH]; [reflexivity|]. intros Hall. simpl.
  rewrite (Hall x (or_introl eq_refl)). f_equal. apply IH. intros y Hy. apply Hall. now right.
Qed.

(** X12.  The locales offered as targets are the configured locales the
    article does not have; for targets chosen among them the check for an
    existing locale never fires: the loop ends with every chosen locale
    either in the success list or in the failure list. *)
Theorem offered_targets_are_never_skipped (targetLocales : list string) (w : World) :
  (forall locale, In locale targetLocales -> In locale (Setup.availableTargets cfg article)) ->
  (forall locale, In locale targetLocales -> targetExists article locale = false)
  /\ exists stats' w',
       loop targetLocales {| success := []; failed := [] |} w = (Ok stats', w')
       /\ (length (success stats') + length (failed stats') = length targetLocales)%nat
       /\ forall locale, In locale (success stats') \/ In locale (failed stats') ->
                         In locale targetLocales.
Proof.
  intros Hoffered.
  assert (Hnew : forall locale, In locale targetLocales -> targetExists article locale = false).
  { intros locale Hin. now apply available_not_existing, Hoffered. }
  split; [exact Hnew|].
  destruct (translation_loop_counts targetLocales {| success := []; failed := [] |} w)
    as (stats' & w' & Hloop & Hlen & Hs & Hf).
  exists stats', w'. split; [exact Hloop|]. split.
  - rewrite Hlen. simpl. rewrite filter_all; [reflexivity|].
    intros locale Hin. now rewrite (Hnew locale Hin).
  - intros locale [Hin | Hin]; [destruct (Hs locale Hin) | destruct (Hf locale Hin)];
      simpl in *; tauto.
Qed.

(** X13.  An iteration succeeds when nothing stands in its way: the
    article and the locale are proper names, the article does not have the
    locale, its directory exists, the source parses, the body request the
    iteration sends is answered, no regular file is on the way down to the
    target path and no directory occupies it.  The locale is then pushed on
    the success list and the target path holds the translated article: the
    serialised frontmatter and the disclaimer followed by the
    translation. *)
Theorem iteration_succeeds (stats : Stats) (targetLocale : string)
    (data : gmap string Value) (content : string) (w : World) :
  matter sourceContent = Ok (data, content) ->
  targetExists article targetLocale = false ->
  plain (id article) = true ->
  plain targetLocale = true ->
  answer (client translator
            (ncalls w + (if present data "title" then 1 else 0)
             + (if present data "description" then 1 else 0))%nat
            (markdown_request translator content sourceLocale targetLocale)) <> None ->
  node_at (fs w) (baseDir dirname article) = Some Dir ->
  (forall dir old, In dir (ancestors (target_path targetLocale)) ->
                   node_at (fs w) dir <> Some (File old)) ->
  node_at (fs w) (target_path targetLocale) <> Some Dir ->
  exists w' translatedData translated,
    body stats targetLocale w = (Ok (push_success stats targetLocale), w')
    /\ fs w' !! target_path targetLocale
       = Some (File (matter_stringify
                       (generateWarningBox cfg (type_name (type article)) (id article)
                                           sourceLocale targetLocale +:+ translated)
                       translatedData))
    /\ dom translatedData = dom data.
Proof.
  intros Hparse Hexists Hid Hlocale Hanswer Harticledir Hway Hnodir.
  destruct (plain_inv targetLocale Hlocale) as (Hno & _).
  destruct (target_paths_entries dirname article targetLocale Hid Hlocale)
    as (Edir & Eindex & Eflat).
  destruct (translateArticle_outcome cfg translator sourceContent (type_name (type article))
              (id article) sourceLocale targetLocale data content (started targetLocale w)
              Hparse) as (td & w1 & Hfs1 & Hdom & Harticle).
  change (ncalls (started targetLocale w)) with (ncalls w) in Harticle.
  change (fs (started targetLocale w)) with (fs w) in Hfs1.
  destruct (answer _) as [translated|]; [|congruence].
  set (out := matter_stringify
                (generateWarningBox cfg (type_name (type article)) (id article)
                                    sourceLocale targetLocale +:+ translated) td) in *.
  assert (Hstep : exists w2 w3,
             getTargetArticlePath dirname article sourceLocale targetLocale w1
             = (Ok (target_path targetLocale), w2)
             /\ writeFileSync (target_path targetLocale) out w2 = (Ok tt, w3)
             /\ fs w3 !! target_path targetLocale = Some (File out)).
  { destruct (get_truthy (hasSubdirectory article) sourceLocale) eqn:Hshape.
    - (* directory shape: the directory is made, then the index written *)
      assert (Hchain : chain (target_dir targetLocale)
                       = ancestors (Path.join [target_dir targetLocale; "index.md"])).
      { rewrite Eindex. now rewrite ancestors_entry. }
      assert (Hfree : forall p old, In p (chain (target_dir targetLocale)) ->
                                    node_at (fs w1) p <> Some (File old)).
      { intros p old Hin. rewrite Hfs1. apply Hway. now rewrite <- Hchain. }
      assert (Hpath : getTargetArticlePath dirname article sourceLocale targetLocale w1
                      = (Ok (Path.join [target_dir targetLocale; "index.md"]),
                         {| fs := make_dirs (chain (target_dir targetLocale)) (fs w1);
                            console := console w1; ncalls := ncalls w1 |})).
      { unfold getTargetArticlePath. cbv zeta. fold (baseDir dirname article).
        rewrite Hshape. unfold bind.
        assert (Hnamed : target_dir targetLocale <> "") by apply truthy_str_neq, path_join_truthy.
        destruct (mkdirSync_recursive_run (target_dir targetLocale) w1 Hnamed)
          as [((q & old & Hq & Hold) & _) | (_ & ->)]; [|reflexivity].
        now destruct (Hfree q old Hq). }
      eexists _, _. split; [exact Hpath|].
      eassert (Hwrite : writeFileSync (Path.join [target_dir targetLocale; "index.md"]) out
                         {| fs := make_dirs (chain (target_dir targetLocale)) (fs w1);
                            console := console w1; ncalls := ncalls w1 |}
                       = (Ok tt, _)).
      { apply writeFileSync_writes; cbn [fs].
        - apply truthy_str_neq, path_join_truthy.
        - unfold file_above. apply existsb_is_file. intros p old Hin.
          rewrite node_at_make_dirs_in by (now rewrite Hchain). discriminate.
        - unfold parent_missing. rewrite Eindex, parent_entry by reflexivity.
          rewrite node_at_make_dirs_in; [reflexivity|].
          apply in_or_app. right. now left.
        - assert (Hout : ~ In (Path.join [target_dir targetLocale; "index.md"])
                           (chain (target_dir targetLocale))).
          { rewrite Hchain. intros Hin. apply ancestors_shorter in Hin. lia. }
          unfold node_at in *. rewrite make_dirs_out by exact Hout. now rewrite Hfs1.
        - rewrite Eindex. now apply names_entry_of_snoc. }
      split; [exact Hwrite|]. cbn [fs]. apply lookup_insert_eq.
    - (* flat shape: the file is written in the article's directory *)
      assert (Hpath : getTargetArticlePath dirname article sourceLocale targetLocale w1
                      = (Ok (Path.join [baseDir dirname article; targetLocale +:+ ".md"]), w1)).
      { unfold getTargetArticlePath. cbv zeta. fold (baseDir dirname article).
        now rewrite Hshape. }
      assert (Hmd : Js.no_slash (targetLocale +:+ ".md") = true)
        by (apply no_slash_app; [exact Hno | reflexivity]).
      eexists _, _. split; [exact Hpath|].
      eassert (Hwrite : writeFileSync (Path.join [baseDir dirname article; targetLocale +:+ ".md"])
                         out w1 = (Ok tt, _)).
      { apply writeFileSync_writes; rewrite ?Hfs1.
        - apply truthy_str_neq, path_join_truthy.
        - unfold file_above. apply existsb_is_file. exact Hway.
        - unfold parent_missing. rewrite Eflat, parent_entry by exact Hmd.
          now rewrite Harticledir.
        - exact Hnodir.
        - rewrite Eflat. apply names_entry_of_snoc. now apply plain_md. }
      split; [exact Hwrite|]. cbn [fs]. apply lookup_insert_eq. }
  destruct Hstep as (w2 & w3 & Hpath & Hwrite & Hfile).
  eexists _, td, translated. split; [|split; [|exact Hdom]].
  - unfold loop_body. rewrite (bind_Ok _ _ _ _ _ (console_log_run _ w)). rewrite Hexists.
    apply try_Ok.
    rewrite (bind_Ok _ _ _ _ _ Harticle), (bind_Ok _ _ _ _ _ Hpath),
      (bind_Ok _ _ _ _ _ Hwrite).
    now rewrite (bind_Ok _ _ _ _ _ (console_log_run _ _)).
  - exact Hfile.
Qed.

End LoopOutcomes.

Section LoopOutcomeWitnesses.
Import Sys Scanner Translator Script Fixture.

Lemma offered_targets_are_never_skipped_witness :
  (forall locale, In locale ["ja"] -> targetExists demo locale = false)
  /\ exists stats' w',
       translation_loop "/repo/scripts/lib" Config.config down_translator demo "en" "Body"
                        ["ja"] {| success := []; failed := [] |} empty_world
       = (Ok stats', w')
       /\ (length (success stats') + length (failed stats') = length ["ja"])%nat
       /\ forall locale, In locale (success stats') \/ In locale (failed stats') ->
                         In locale ["ja"].
Proof.
  apply (offered_targets_are_never_skipped "/repo/scripts/lib" Config.config
           down_translator demo "en" "Body" ["ja"] empty_world).
  intros locale [<- | []]. vm_compute. auto.
Defined.

Lemma iteration_succeeds_witness :
  exists w' translatedData translated,
    loop_body "/repo/scripts/lib" Config.config body_only_translator demo "en" "Body"
              {| success := []; failed := [] |} "ja" demo_world
    = (Ok (push_success {| success := []; failed := [] |} "ja"), w')
    /\ fs w' !! "/repo/src/content/note/demo/ja.md"
       = Some (File (matter_stringify
                       (generateWarningBox Config.config "note" "demo" "en" "ja"
                        +:+ translated) translatedData))
    /\ dom translatedData = dom demo_data.
Proof.
  apply (iteration_succeeds "/repo/scripts/lib" Config.config body_only_translator demo
           "en" "Body" {| success := []; failed := [] |} "ja" demo_data "Body" demo_world).
  - reflexivity.
  - vm_compute. reflexivity.
  - reflexivity.
  - reflexivity.
  - vm_compute. discriminate.
  - vm_compute. reflexivity.
  - intros dir old Hin.
    repeat (destruct Hin as [<- | Hin]; [vm_compute; discriminate|]).
    destruct Hin.
  - vm_compute. discriminate.
Defined.

End LoopOutcomeWitnesses.

(** ** Names and extensions *)

Section PathNameFacts.
Import PathName.

Lemma endsWith_unfold (s suffix : string) :
  endsWith s suffix
  = String.eqb s suffix
    || match s with
       | EmptyString => false
       | String _ rest => endsWith rest suffix
       end.
Proof. now destruct s. Qed.

Lemma endsWith_app_r (prefix suffix : string) : endsWith (prefix +:+ suffix) suffix = true.
Proof.
  induction prefix as [|c prefix IH].
  - rewrite app_nil_l, endsWith_unfold. now rewrite String.eqb_refl.
  - rewrite app_cons, endsWith_unfold, IH. apply orb_true_r.
Qed.

Lemma endsWith_inv (s suffix : string) :
  endsWith s suffix = true -> exists prefix, s = prefix +:+ suffix.
Proof.
  induction s as [|c s IH]; rewrite endsWith_unfold; intros Hends.
  - apply orb_prop in Hends as [Heq | Hf]; [|discriminate].
    apply String.eqb_eq in Heq. subst suffix. now exists "".
  - apply orb_prop in Hends as [Heq | Hrest].
    + apply String.eqb_eq in Heq. subst suffix. now exists "".
    + destruct (IH Hrest) as [prefix ->]. now exists (String c prefix).
Qed.

Lemma substring_app (prefix suffix : string) :
  String.substring 0 (String.length prefix) (prefix +:+ suffix) = prefix.
Proof.
  induction prefix as [|c prefix IH].
  - rewrite app_nil_l. now destruct suffix.
  - rewrite app_cons. simpl. now rewrite IH.
Qed.

Lemma from_last_dot_md (prefix : string) : from_last_dot (prefix +:+ ".md") = Some ".md".
Proof.
  induction prefix as [|c prefix IH]; [reflexivity|].
  rewrite app_cons. simpl. now rewrite IH.
Qed.

Lemma from_last_dot_mdx (prefix : string) : from_last_dot (prefix +:+ ".mdx") = Some ".mdx".
Proof.
  induction prefix as [|c prefix IH]; [reflexivity|].
  rewrite app_cons. simpl. now rewrite IH.
Qed.

Lemma app_neq_suffix (prefix suffix : string) : prefix <> "" -> suffix <> prefix +:+ suffix.
Proof.
  intros Hne Heq. apply (f_equal String.length) in Heq. rewrite length_app in Heq.
  destruct prefix; [congruence | simpl in Heq; lia].
Qed.

(** The locale read from a file name with a known extension. *)
Lemma stem_of_extension (prefix suffix : string) :
  prefix <> "" -> Js.truthy_str suffix = true ->
  from_last_dot (prefix +:+ suffix) = Some suffix ->
  String.length suffix <> 1 ->
  basename (prefix +:+ suffix) (extname (prefix +:+ suffix)) = prefix.
Proof.
  intros Hprefix Hsuffix Hdot Hlen.
  assert (Hext : extname (prefix +:+ suffix) = suffix).
  { unfold extname. rewrite Hdot.
    destruct (String.eqb_spec suffix (prefix +:+ suffix)) as [Heq|_];
      [now apply app_neq_suffix in Heq|].
    destruct (String.eqb_spec (prefix +:+ suffix) "..") as [Heq|_]; [|reflexivity].
    exfalso. destruct prefix as [|a [|b prefix]]; [congruence | |].
    - rewrite app_cons, app_nil_l in Heq. injection Heq as _ ->. now apply Hlen.
    - rewrite !app_cons in Heq. injection Heq as _ _ Heq.
      destruct prefix; [rewrite app_nil_l in Heq; now subst suffix | discriminate]. }
  rewrite Hext. unfold basename. rewrite Hsuffix, length_app.
  replace (String.length suffix <=? String.length prefix + String.length suffix)%nat
    with true by (symmetry; apply Nat.leb_le; lia).
  simpl andb. cbv iota.
  destruct (String.eqb_spec suffix (prefix +:+ suffix)) as [Heq|_];
    [now apply app_neq_suffix in Heq|].
  rewrite endsWith_app_r.
  replace (String.length prefix + String.length suffix - String.length suffix)%nat
    with (String.length prefix) by lia.
  apply substring_app.
Qed.

Lemma scanned_flat_name (file : string) :
  endsWith file ".md" || endsWith file ".mdx" = true ->
  Shape.flat_name file (basename file (extname file)).
Proof.
  intros Hends. unfold Shape.flat_name.
  destruct (endsWith file ".md") eqn:Hmd.
  - destruct (endsWith_inv _ _ Hmd) as [prefix ->].
    destruct prefix as [|c prefix]; [right; right; now split; [|left]|].
    left. rewrite stem_of_extension; try reflexivity; try discriminate.
    apply from_last_dot_md.
  - simpl in Hends. destruct (endsWith_inv _ _ Hends) as [prefix ->].
    destruct prefix as [|c prefix]; [right; right; now split; [|right]|].
    right. left. rewrite stem_of_extension; try reflexivity; try discriminate.
    apply from_last_dot_mdx.
Qed.

End PathNameFacts.

(** ** The article scanner: finding files *)

Section ArticlePaths.
Import Sys Scanner ArticleFiles Shape PathShape.
Variable dirname : string.

Abbreviation md_path article locale :=
  (Path.join [baseDir dirname article; (locale +:+ ".md")%string]).
Abbreviation mdx_path article locale :=
  (Path.join [baseDir dirname article; (locale +:+ ".mdx")%string]).
Abbreviation index_path article locale :=
  (Path.join [baseDir dirname article; locale%string; "index.md"]).

Lemma getArticlePath_run (article : Article) (locale : string) (w : World) :
  getArticlePath dirname article locale w
  = if get_truthy (hasSubdirectory article) locale then (Ok (index_path article locale), w)
    else match fs w !! md_path article locale with
         | Some _ => (Ok (md_path article locale), w)
         | None =>
             match fs w !! mdx_path article locale with
             | Some _ => (Ok (mdx_path article locale), w)
             | None =>
                 (Throw (mkError "Error" ("Article file not found: " +:+ id article +:+ " ("
                                          +:+ locale +:+ ")")), w)
             end
         end.
Proof.
  unfold getArticlePath. cbv zeta. fold (baseDir dirname article).
  destruct (get_truthy (hasSubdirectory article) locale); [reflexivity|].
  unfold bind, existsSync, ret, throw.
  destruct (fs w !! md_path article locale); [reflexivity|].
  destruct (fs w !! mdx_path article locale); reflexivity.
Qed.

(** [getArticlePath] reads and changes nothing.  For a locale
    stored flat it returns a path that exists, the [.md] file when there is
    one and the [.mdx] file otherwise, and throws exactly when neither
    exists; for a locale stored as a directory it returns the [index.md]
    of that directory without looking at the file system. *)
Theorem getArticlePath_finds (article : Article) (locale : string) (w : World) :
  snd (getArticlePath dirname article locale w) = w
  /\ match fst (getArticlePath dirname article locale w) with
     | Ok path =>
         (get_truthy (hasSubdirectory article) locale = true
          /\ path = index_path article locale)
         \/ (get_truthy (hasSubdirectory article) locale = false
             /\ is_Some (fs w !! path)
             /\ (path = md_path article locale
                 \/ (path = mdx_path article locale
                     /\ fs w !! md_path article locale = None)))
     | Throw _ =>
         get_truthy (hasSubdirectory article) locale = false
         /\ fs w !! md_path article locale = None
         /\ fs w !! mdx_path article locale = None
     end.
Proof.
  rewrite getArticlePath_run.
  destruct (get_truthy (hasSubdirectory article) locale); [simpl; auto|].
  destruct (fs w !! md_path article locale) as [node|] eqn:Hmd.
  { simpl. split; [reflexivity|]. right. rewrite Hmd. eauto. }
  destruct (fs w !! mdx_path article locale) as [node|] eqn:Hmdx; simpl.
  - split; [reflexivity|]. right. rewrite Hmdx. eauto.
  - auto.
Qed.

Lemma target_index_is_index (article : Article) (locale : string) :
  Path.join [Path.join [baseDir dirname article; locale]; "index.md"]
  = index_path article locale.
Proof.
  apply (path_join_nested [baseDir dirname article; locale] ["index.md"]).
  - unfold baseDir. rewrite parts_cons_truthy by apply path_join_truthy. discriminate.
  - discriminate.
Qed.

(** X14.  A translation is found where it was written: once
    [getTargetArticlePath] has returned a path and [writeFileSync] has
    written the file there, the path holds that file, and [getArticlePath]
    returns that very path for the new locale on the article record
    completed with the new locale in the shape of the source locale. *)
Theorem written_translation_is_found (article : Article) (sourceLocale targetLocale : string)
    (out path : string) (w w1 w2 : World) :
  getTargetArticlePath dirname article sourceLocale targetLocale w = (Ok path, w1) ->
  writeFileSync path out w1 = (Ok tt, w2) ->
  let rescanned :=
    {| id := id article; type := type article;
       locales := {[targetLocale]} ∪ locales article;
       hasSubdirectory :=
         <[targetLocale := get_truthy (hasSubdirectory article) sourceLocale]>
           (hasSubdirectory article) |} in
  getArticlePath dirname rescanned targetLocale w2 = (Ok path, w2)
  /\ fs w2 !! path = Some (File out)
  /\ path = (if get_truthy (hasSubdirectory article) sourceLocale
             then index_path article targetLocale
             else md_path article targetLocale).
Proof.
  intros Htarget Hwrite rescanned.
  assert (Hfile : fs w2 !! path = Some (File out)).
  { destruct (writeFileSync_run path out w1) as [[e He] | [Hok _]]; [congruence|].
    rewrite Hok in Hwrite. injection Hwrite as <-. apply lookup_insert_eq. }
  assert (Hpath : path = if get_truthy (hasSubdirectory article) sourceLocale
                         then index_path article targetLocale
                         else md_path article targetLocale).
  { rewrite (getTargetArticlePath_path _ _ _ _ _ _ _ Htarget).
    destruct (get_truthy (hasSubdirectory article) sourceLocale);
      [apply target_index_is_index | reflexivity]. }
  split; [|split; [exact Hfile | exact Hpath]].
  rewrite getArticlePath_run.
  change (baseDir dirname rescanned) with (baseDir dirname article).
  assert (Hshape : get_truthy (hasSubdirectory rescanned) targetLocale
                   = get_truthy (hasSubdirectory article) sourceLocale).
  { unfold get_truthy at 1. simpl. now rewrite lookup_insert_eq. }
  rewrite Hshape.
  destruct (get_truthy (hasSubdirectory article) sourceLocale); subst path;
    [reflexivity|].
  now rewrite Hfile.
Qed.

End ArticlePaths.

(** ** The article scanner: scanning *)

Section Scanning.
Import Sys Scanner ArticleFiles Shape PathShape.
Context `{Listing}.
Variable dirname : string.

(** A loop whose body only reads keeps the world, and keeps what its
    body keeps. *)
Lemma for_of_reads {A S : Type} (body : S -> A -> M S) (P : S -> Prop) (Q : A -> Prop)
    (xs : list A) (w : World) :
  (forall state x state' w',
      Q x -> body state x w = (Ok state', w') -> w' = w /\ (P state -> P state')) ->
  Forall Q xs ->
  forall state state' w',
    for_of body xs state w = (Ok state', w') -> w' = w /\ (P state -> P state').
Proof.
  intros Hbody Hxs. induction Hxs as [|x xs Hx _ IH]; intros state state' w' Hrun.
  - injection Hrun as <- <-. auto.
  - simpl in Hrun. unfold bind in Hrun.
    destruct (body state x w) as [[state1|e] w1] eqn:Hstep; [|discriminate].
    destruct (Hbody _ _ _ _ Hx Hstep) as [-> Hkeep].
    destruct (IH _ _ _ Hrun) as [-> Hrest]. auto.
Qed.

Lemma scan_file_records (articleDir : string) (found found' : gset string * gmap string bool)
    (file : string) (w w' : World) :
  scan_file articleDir found file w = (Ok found', w') ->
  w' = w
  /\ (recorded (fs w) articleDir (fst found) (snd found) ->
      recorded (fs w) articleDir (fst found') (snd found')).
Proof.
  destruct found as [locales hasSub]. unfold scan_file, bind, statSync.
  destruct (fs w !! Path.join [articleDir; file]) as [stat|] eqn:Hstat; [|discriminate].
  destruct (isFile stat && (PathName.endsWith file ".md" || PathName.endsWith file ".mdx"))
    eqn:Hflat.
  - intros [= <- <-]. split; [reflexivity|]. simpl.
    apply andb_prop in Hflat as [Hfile Hends].
    destruct stat as [content|]; [|discriminate].
    set (locale := PathName.basename file (PathName.extname file)).
    intros (Hdom & Hdirs & Hflats). split; [|split].
    + rewrite dom_insert_L. now rewrite Hdom.
    + intros l Hl. destruct (decide (locale = l)) as [<- | Hne].
      * rewrite lookup_insert_eq in Hl. discriminate.
      * rewrite lookup_insert_ne in Hl by exact Hne. now apply Hdirs.
    + intros l Hl. destruct (decide (locale = l)) as [<- | Hne].
      * exists file, content. split; [exact Hstat | now apply scanned_flat_name].
      * rewrite lookup_insert_ne in Hl by exact Hne. now apply Hflats.
  - destruct (isDirectory stat) eqn:Hdir.
    + unfold existsSync.
      destruct (fs w !! Path.join [Path.join [articleDir; file]; "index.md"])
        as [index|] eqn:Hindex.
      * intros [= <- <-]. split; [reflexivity|]. simpl.
        destruct stat as [content|]; [discriminate|].
        intros (Hdom & Hdirs & Hflats). split; [|split].
        -- rewrite dom_insert_L. now rewrite Hdom.
        -- intros l Hl. destruct (decide (file = l)) as [<- | Hne].
           ++ split; [exact Hstat | rewrite Hindex; eauto].
           ++ rewrite lookup_insert_ne in Hl by exact Hne. now apply Hdirs.
        -- intros l Hl. destruct (decide (file = l)) as [<- | Hne].
           ++ rewrite lookup_insert_eq in Hl. discriminate.
           ++ rewrite lookup_insert_ne in Hl by exact Hne. now apply Hflats.
      * intros [= <- <-]. auto.
    + intros [= <- <-]. auto.
Qed.

Lemma recorded_empty (files : gmap string Node) (articleDir : string) :
  recorded files articleDir ∅ ∅.
Proof.
  split; [apply dom_empty_L|].
  split; intros locale Hl; rewrite lookup_empty in Hl; discriminate.
Qed.

Lemma scan_entry_records (collection : ContentType) (dir : string)
    (articles articles' : gmap string Article) (entry : string * bool) (w w' : World) :
  scan_entry collection dir articles entry w = (Ok articles', w') ->
  w' = w
  /\ (scanned_well (fs w) collection dir articles ->
      scanned_well (fs w) collection dir articles').
Proof.
  destruct entry as [name isDir]. unfold scan_entry.
  destruct isDir; cbn [negb]; [|unfold ret; intros [= <- <-]; auto].
  unfold bind at 1. unfold readdirSync.
  destruct (fs w !! Path.join [dir; name]) as [[content|]|] eqn:Hdir; try discriminate.
  unfold bind at 1.
  destruct (for_of (scan_file (Path.join [dir; name])) (entries (fs w) (Path.join [dir; name]))
                   (∅, ∅) w) as [[[locales hasSub]|e] w1] eqn:Hfiles; [|discriminate].
  destruct (for_of_reads (scan_file (Path.join [dir; name]))
              (fun found => recorded (fs w) (Path.join [dir; name]) (fst found) (snd found))
              (fun _ => True) (entries (fs w) (Path.join [dir; name])) w) with
    (state := (∅ : gset string, ∅ : gmap string bool))
    (state' := (locales, hasSub)) (w' := w1) as [-> Hrec].
  { intros state x state' w0' _ Hstep.
    destruct (scan_file_records _ _ _ _ _ _ Hstep) as [-> Hkeep].
    split; [reflexivity|]. exact Hkeep. }
  { apply Forall_forall. auto. }
  { exact Hfiles. }
  specialize (Hrec (recorded_empty _ _)). simpl in Hrec.
  destruct (0 <? size locales)%nat eqn:Hsize; intros [= <- <-]; [|auto].
  split; [reflexivity|].
  intros Hwell articleId article Hlook.
  destruct (decide (name = articleId)) as [<- | Hne].
  - rewrite lookup_insert_eq in Hlook. injection Hlook as <-. simpl.
    split; [reflexivity|]. split; [reflexivity|].
    split; [|split; [exact Hdir | exact Hrec]].
    intros ->. rewrite size_empty in Hsize. discriminate.
  - rewrite lookup_insert_ne in Hlook by exact Hne. now apply Hwell.
Qed.

Lemma findArticles_scans (collection : ContentType) (articles : gmap string Article)
    (w w' : World) :
  findArticles dirname collection w = (Ok articles, w') ->
  fs w' = fs w
  /\ scanned_well (fs w) collection
                  (Path.join [CONTENT_DIR dirname; type_name collection]) articles.
Proof.
  unfold findArticles. cbv zeta. set (dir := Path.join [CONTENT_DIR dirname; type_name collection]).
  unfold bind at 1. unfold existsSync.
  destruct (fs w !! dir) as [node|] eqn:Hdir; cbn [negb].
  - unfold bind at 1. unfold readdirSync_withFileTypes.
    destruct (readdirSync dir w) as [[names|e] w1] eqn:Hnames; [|discriminate].
    assert (w1 = w) as ->.
    { unfold readdirSync in Hnames. destruct (fs w !! dir) as [[?|]|]; congruence. }
    intros Hrun.
    match type of Hrun with
    | for_of _ ?dirents _ _ = _ =>
        destruct (for_of_reads (scan_entry collection dir)
                    (scanned_well (fs w) collection dir) (fun _ => True) dirents w) with
          (state := (∅ : gmap string Article)) (state' := articles) (w' := w')
          as [-> Hwell]
    end.
    { intros state x state' w0' _ Hstep.
      destruct (scan_entry_records _ _ _ _ _ _ _ Hstep) as [-> Hkeep]. auto. }
    { apply Forall_forall. auto. }
    { exact Hrun. }
    split; [reflexivity|]. apply Hwell.
    intros articleId article Hlook. rewrite lookup_empty in Hlook. discriminate.
  - rewrite (bind_Ok _ _ _ _ _ (console_log_run _ w)). intros [= <- <-].
    split; [reflexivity|].
    intros articleId article Hlook. rewrite lookup_empty in Hlook. discriminate.
Qed.

End Scanning.

Section ScanClaims.
Import Sys Scanner ArticleFiles Shape PathShape.
Context `{Listing}.
Variable dirname : string.

(** X15.  [findArticles] only reads.  Every article it returns is filed
    under its own id, belongs to the scanned collection, has at least one
    locale, and has a storage shape for exactly its locales: [targetExists]
    and the shape lookup of [getTargetArticlePath] agree on which locales
    the article has.  When the collection directory is missing it returns
    no article and prints a warning. *)
Theorem findArticles_records (collection : ContentType) (w : World) :
  (forall articles w',
      findArticles dirname collection w = (Ok articles, w') ->
      fs w' = fs w
      /\ forall articleId article,
           articles !! articleId = Some article ->
           id article = articleId /\ type article = collection
           /\ locales article <> ∅
           /\ dom (hasSubdirectory article) = locales article
           /\ forall locale,
                targetExists article locale = true
                <-> is_Some (hasSubdirectory article !! locale))
  /\ (fs w !! Path.join [CONTENT_DIR dirname; type_name collection] = None ->
      findArticles dirname collection w
      = (Ok ∅, logged (Log ("Directory not found: "
                            +:+ Path.join [CONTENT_DIR dirname; type_name collection])) w)).
Proof.
  split.
  - intros articles w' Hrun.
    destruct (findArticles_scans dirname collection articles w w' Hrun) as [Hfs Hwell].
    split; [exact Hfs|].
    intros articleId article Hlook.
    destruct (Hwell articleId article Hlook) as (Hid & Htype & Hne & _ & Hdom & _).
    repeat (split; [assumption|]).
    intros locale. unfold targetExists. rewrite bool_decide_eq_true, <- Hdom.
    apply elem_of_dom.
  - intros Hmissing. unfold findArticles. cbv zeta.
    unfold bind at 1. unfold existsSync. rewrite Hmissing. cbn [negb].
    now rewrite (bind_Ok _ _ _ _ _ (console_log_run _ w)).
Qed.

Lemma scanned_dir_is_base (collection : ContentType) (article : Article) :
  type article = collection -> id article <> "" ->
  Path.join [Path.join [CONTENT_DIR dirname; type_name collection]; id article]
  = baseDir dirname article.
Proof.
  intros <- Hid. unfold baseDir.
  apply (path_join_nested [CONTENT_DIR dirname; type_name (type article)] [id article]).
  - unfold CONTENT_DIR. rewrite parts_cons_truthy by apply path_join_truthy. discriminate.
  - rewrite parts_cons_truthy by now apply truthy_str_neq. discriminate.
Qed.

(** X16.  What the scan found can be read: for every locale of a scanned
    article, [getArticlePath] returns a path that exists; the one exception
    is a locale read from a file named just [.md] or [.mdx], which is
    recorded as the locale of that name. *)
Theorem scanned_locales_are_found (collection : ContentType)
    (articles : gmap string Article) (w w' : World) (articleId : string) (article : Article)
    (locale : string) :
  findArticles dirname collection w = (Ok articles, w') ->
  articles !! articleId = Some article ->
  articleId <> "" ->
  locale ∈ locales article ->
  (exists path,
      getArticlePath dirname article locale w = (Ok path, w) /\ is_Some (fs w !! path))
  \/ (hasSubdirectory article !! locale = Some false
      /\ (locale = ".md" \/ locale = ".mdx")
      /\ exists content,
           fs w !! Path.join [baseDir dirname article; locale] = Some (File content)).
Proof.
  intros Hrun Hlook Hid Hlocale.
  destruct (findArticles_scans dirname collection articles w w' Hrun) as [_ Hwell].
  destruct (Hwell articleId article Hlook) as (<- & Htype & _ & _ & Hdom & Hdirs & Hflats).
  rewrite (scanned_dir_is_base collection article Htype Hid) in Hdirs, Hflats.
  rewrite <- Hdom in Hlocale. apply elem_of_dom in Hlocale as [shape Hshape].
  rewrite getArticlePath_run. unfold get_truthy. rewrite Hshape.
  destruct shape.
  - left. eexists. split; [reflexivity|].
    destruct (Hdirs locale Hshape) as [_ Hindex].
    now rewrite target_index_is_index in Hindex.
  - destruct (Hflats locale Hshape) as (file & content & Hfile & [-> | [-> | [-> Hodd]]]).
    + left. rewrite Hfile. eauto.
    + left. destruct (fs w !! Path.join [baseDir dirname article; locale +:+ ".md"]) eqn:Hmd.
      * eexists. split; [reflexivity|]. rewrite Hmd. eauto.
      * rewrite Hfile. eauto.
    + right. eauto.
Qed.

End ScanClaims.

Section ScanWitnesses.
Import Sys Scanner ArticleFiles Shape Sample.

Example scan_of_disk : disk_articles = <["demo" := disk_demo]> ∅.
Proof. vm_compute. reflexivity. Qed.

Lemma findArticles_records_witness :
  findArticles "/repo/scripts/lib" jotting disk_world
  = (Ok ∅, logged (Log ("Directory not found: "
                        +:+ Path.join [CONTENT_DIR "/repo/scripts/lib"; type_name jotting]))
                  disk_world).
Proof.
  apply (findArticles_records "/repo/scripts/lib" jotting disk_world).
  vm_compute. reflexivity.
Defined.

Lemma scanned_locales_are_found_witness :
  (exists path,
      getArticlePath "/repo/scripts/lib" disk_demo "ja" disk_world = (Ok path, disk_world)
      /\ is_Some (fs disk_world !! path))
  \/ (hasSubdirectory disk_demo !! "ja" = Some false
      /\ ("ja" = ".md" \/ "ja" = ".mdx")
      /\ exists content,
           fs disk_world !! Path.join [baseDir "/repo/scripts/lib" disk_demo; "ja"]
           = Some (File content)).
Proof.
  apply (scanned_locales_are_found "/repo/scripts/lib" note (<["demo" := disk_demo]> ∅)
           disk_world disk_world "demo" disk_demo "ja").
  - vm_compute. reflexivity.
  - vm_compute. reflexivity.
  - discriminate.
  - vm_compute. reflexivity.
Defined.

(** A file named [.md] is scanned as the locale [.md], which
    [getArticlePath] then looks for as [.md.md]. *)
Example hidden_md_is_not_found :
  fst (findArticles (H := odd_listing) "/repo/scripts/lib" note odd_world)
  = Ok (<["odd" := odd_article]> ∅)
  /\ exists e, getArticlePath "/repo/scripts/lib" odd_article ".md" odd_world = (Throw e, odd_world).
Proof. split; [vm_compute; reflexivity | eexists; vm_compute; reflexivity]. Qed.

End ScanWitnesses.

Section ArticlePathWitness.
Import Sys Scanner ArticleFiles Fixture.

Lemma written_translation_is_found_witness :
  let rescanned :=
    {| id := id demo; type := type demo;
       locales := {["ja"]} ∪ locales demo;
       hasSubdirectory :=
         <["ja" := get_truthy (hasSubdirectory demo) "en"]> (hasSubdirectory demo) |} in
  let w2 := snd (writeFileSync "/repo/src/content/note/demo/ja.md" "translated" demo_world) in
  getArticlePath "/repo/scripts/lib" rescanned "ja" w2
  = (Ok "/repo/src/content/note/demo/ja.md", w2)
  /\ fs w2 !! "/repo/src/content/note/demo/ja.md" = Some (File "translated")
  /\ "/repo/src/content/note/demo/ja.md"
     = (if get_truthy (hasSubdirectory demo) "en"
        then Path.join [baseDir "/repo/scripts/lib" demo; "ja"; "index.md"]
        else Path.join [baseDir "/repo/scripts/lib" demo; "ja.md"]).
Proof.
  apply (written_translation_is_found "/repo/scripts/lib" demo "en" "ja" "translated"
           "/repo/src/content/note/demo/ja.md" demo_world demo_world).
  - vm_compute. reflexivity.
  - vm_compute. reflexivity.
Defined.

End ArticlePathWitness.

(** ** The translation loop: what it leaves alone *)

Section LoopFrame.
Import Sys Scanner Translator Script Shape PathShape.
Context `{GrayMatter}.
Variable dirname : string.
Variable cfg : Config.SiteConfig.
Variable translator : Translator.
Variable article : Article.
Variable sourceLocale : string.
Variable sourceContent : string.

Abbreviation loop := (translation_loop dirname cfg translator article sourceLocale sourceContent).
Abbreviation target_path targetLocale :=
  (if get_truthy (hasSubdirectory article) sourceLocale
   then Path.join [Path.join [baseDir dirname article; targetLocale%string]; "index.md"]
   else Path.join [baseDir dirname article; (targetLocale +:+ ".md")%string]).

(** X17.  The loop writes nowhere but at the target paths of the
    requested locales that the article does not have: every other path
    holds the same regular file after the loop as before, the source
    article among them. *)
Theorem loop_writes_only_targets (targetLocales : list string) (stats : Stats) (w : World) :
  exists stats' w',
    loop targetLocales stats w = (Ok stats', w')
    /\ forall path content,
         (forall targetLocale,
             In targetLocale targetLocales ->
             targetExists article targetLocale = false ->
             path <> target_path targetLocale) ->
         (fs w' !! path = Some (File content) <-> fs w !! path = Some (File content)).
Proof.
  revert stats w.
  induction targetLocales as [|targetLocale rest IH]; intros stats w.
  - exists stats, w. split; [reflexivity|]. intros. reflexivity.
  - destruct (loop_body_cases dirname cfg translator article sourceLocale sourceContent
                stats targetLocale w) as (stats1 & w1 & Hbody & Hcases).
    destruct (IH stats1 w1) as (stats' & w' & Hloop & Hframe).
    exists stats', w'. split.
    + now rewrite (translation_loop_cons _ _ _ _ _ _ _ _ _ _ _ _ Hbody).
    + intros path content Hother.
      rewrite (Hframe path content) by (intros t Hin; apply Hother; now right).
      destruct Hcases as [(_ & _ & Hfs) | [(_ & _ & Hsame) | (Hnew & _ & _ & _ & _ & _ & Hrest)]].
      * now rewrite Hfs.
      * apply Hsame.
      * apply Hrest. apply Hother; [now left | exact Hnew].
Qed.

End LoopFrame.

Section LoopFrameWitness.
Import Sys Scanner Translator Script Fixture.

Lemma loop_writes_only_targets_witness :
  exists stats' w',
    translation_loop "/repo/scripts/lib" Config.config body_only_translator demo "en" "Body"
                     ["ja"] {| success := []; failed := [] |} demo_world
    = (Ok stats', w')
    /\ (fs w' !! "/repo/src/content/note/demo/en.md" = Some (File "Body")
        <-> fs demo_world !! "/repo/src/content/note/demo/en.md" = Some (File "Body")).
Proof.
  destruct (loop_writes_only_targets "/repo/scripts/lib" Config.config body_only_translator
              demo "en" "Body" ["ja"] {| success := []; failed := [] |} demo_world)
    as (stats' & w' & Hloop & Hframe).
  exists stats', w'. split; [exact Hloop|].
  apply Hframe. intros targetLocale [<- | []] _. vm_compute. discriminate.
Defined.

End LoopFrameWitness.

(** ** The article scanner: nothing is missed *)

Section ScanComplete.
Import Sys Scanner ArticleFiles Shape PathShape.
Context `{Listing}.
Variable dirname : string.

(** The locales cover a listed name: the locale of a markdown file, or
    the name of a directory with an index. *)
Abbreviation covers files articleDir locales file :=
  ((forall content,
       files !! Path.join [articleDir; file%string] = Some (File content) ->
       PathName.endsWith file ".md" || PathName.endsWith file ".mdx" = true ->
       PathName.basename file (PathName.extname file) ∈ locales)
   /\ (files !! Path.join [articleDir; file%string] = Some Dir ->
       is_Some (files !! Path.join [Path.join [articleDir; file%string]; "index.md"]) ->
       file%string ∈ locales)).

Lemma scan_file_adds (articleDir : string) (found found' : gset string * gmap string bool)
    (file : string) (w w' : World) :
  scan_file articleDir found file w = (Ok found', w') ->
  fst found ⊆ fst found' /\ covers (fs w) articleDir (fst found') file.
Proof.
  destruct found as [locales hasSub]. unfold scan_file, bind, statSync.
  destruct (fs w !! Path.join [articleDir; file]) as [stat|] eqn:Hstat; [|discriminate].
  destruct stat as [content|]; cbn [isFile isDirectory andb].
  - destruct (PathName.endsWith file ".md" || PathName.endsWith file ".mdx") eqn:Hends.
    + unfold ret. intros [= <- <-]. simpl. split; [set_solver|].
      split; [intros; set_solver | discriminate].
    + unfold ret. intros [= <- <-]. simpl. split; [set_solver|].
      split; [intros; congruence | discriminate].
  - unfold existsSync.
    destruct (fs w !! Path.join [Path.join [articleDir; file]; "index.md"]) as [index|].
    + unfold ret. intros [= <- <-]. simpl. split; [set_solver|].
      split; [discriminate | intros; set_solver].
    + unfold ret. intros [= <- <-]. simpl. split; [set_solver|].
      split; [discriminate | intros _ [? ?]; discriminate].
Qed.

Lemma scan_files_complete (articleDir : string) (files : list string)
    (found found' : gset string * gmap string bool) (w w' : World) :
  for_of (scan_file articleDir) files found w = (Ok found', w') ->
  fst found ⊆ fst found'
  /\ forall file, In file files -> covers (fs w) articleDir (fst found') file.
Proof.
  revert found w. induction files as [|file files IH]; intros found w Hrun.
  - injection Hrun as <- <-. split; [reflexivity | intros file []].
  - simpl in Hrun. unfold bind in Hrun.
    destruct (scan_file articleDir found file w) as [[found1|e] w1] eqn:Hstep; [|discriminate].
    destruct (scan_file_records _ _ _ _ _ _ Hstep) as [-> _].
    destruct (scan_file_adds _ _ _ _ _ _ Hstep) as [Hsub1 [Hfile1 Hdir1]].
    destruct (IH _ _ Hrun) as [Hsub Hrest].
    split; [now transitivity (fst found1)|].
    intros name [<- | Hin]; [|now apply Hrest].
    split.
    + intros content Hlook Hends. apply Hsub. now apply (Hfile1 content).
    + intros Hlook Hindex. apply Hsub. now apply Hdir1.
Qed.

Lemma scan_entry_complete (collection : ContentType) (dir : string)
    (articles articles' : gmap string Article) (entry : string * bool) (w w' : World)
    (P : string -> Article -> Prop) :
  (forall name locales,
      (forall file, In file (entries (fs w) (Path.join [dir; name])) ->
                    covers (fs w) (Path.join [dir; name]) locales file) ->
      forall hasSub,
        P name {| id := name; type := collection; locales := locales;
                  hasSubdirectory := hasSub |}) ->
  scan_entry collection dir articles entry w = (Ok articles', w') ->
  (forall articleId article, articles !! articleId = Some article -> P articleId article) ->
  forall articleId article, articles' !! articleId = Some article -> P articleId article.
Proof.
  intros HP. destruct entry as [name isDir]. unfold scan_entry.
  destruct isDir; cbn [negb]; [|unfold ret; intros [= <- <-]; auto].
  unfold bind at 1. unfold readdirSync.
  destruct (fs w !! Path.join [dir; name]) as [[content|]|] eqn:Hdir; try discriminate.
  unfold bind at 1.
  destruct (for_of (scan_file (Path.join [dir; name])) (entries (fs w) (Path.join [dir; name]))
                   (∅, ∅) w) as [[[locales hasSub]|e] w1] eqn:Hfiles; [|discriminate].
  destruct (scan_files_complete _ _ _ _ _ _ Hfiles) as [_ Hcovers]. simpl in Hcovers.
  destruct (0 <? size locales)%nat; unfold ret; intros [= <- <-]; [|auto].
  intros Hold articleId article Hlook.
  destruct (decide (name = articleId)) as [<- | Hne].
  - rewrite lookup_insert_eq in Hlook. injection Hlook as <-. now apply HP.
  - rewrite lookup_insert_ne in Hlook by exact Hne. now apply Hold.
Qed.

Lemma findArticles_complete (collection : ContentType) (articles : gmap string Article)
    (w w' : World) (articleId : string) (article : Article) :
  findArticles dirname collection w = (Ok articles, w') ->
  articles !! articleId = Some article ->
  forall file,
    In file (entries (fs w) (Path.join [Path.join [CONTENT_DIR dirname; type_name collection];
                                        articleId])) ->
    covers (fs w) (Path.join [Path.join [CONTENT_DIR dirname; type_name collection]; articleId])
           (locales article) file.
Proof.
  unfold findArticles. cbv zeta.
  set (dir := Path.join [CONTENT_DIR dirname; type_name collection]).
  unfold bind at 1. unfold existsSync.
  destruct (fs w !! dir) as [node|] eqn:Hdir; cbn [negb].
  2:{ rewrite (bind_Ok _ _ _ _ _ (console_log_run _ w)). intros [= <- <-] Hlook.
      rewrite lookup_empty in Hlook. discriminate. }
  unfold bind at 1. unfold readdirSync_withFileTypes.
  destruct (readdirSync dir w) as [[names|e] w1] eqn:Hnames; [|discriminate].
  assert (w1 = w) as ->.
  { unfold readdirSync in Hnames. destruct (fs w !! dir) as [[?|]|]; congruence. }
  intros Hrun. revert articleId article.
  match type of Hrun with
  | for_of _ ?dirents _ _ = _ =>
      destruct (for_of_reads (scan_entry collection dir)
                  (fun arts => forall articleId article,
                       arts !! articleId = Some article ->
                       forall file,
                         In file (entries (fs w) (Path.join [dir; articleId])) ->
                         covers (fs w) (Path.join [dir; articleId]) (locales article) file)
                  (fun _ => True) dirents w) with
        (state := (∅ : gmap string Article)) (state' := articles) (w' := w')
        as [_ Hall]
  end.
  - intros state x state' w0' _ Hstep.
    destruct (scan_entry_records _ _ _ _ _ _ _ Hstep) as [-> _].
    split; [reflexivity|].
    apply (scan_entry_complete collection dir state state' x w w
             (fun articleId article =>
                forall file,
                  In file (entries (fs w) (Path.join [dir; articleId])) ->
                  covers (fs w) (Path.join [dir; articleId]) (locales article) file));
      [|exact Hstep].
    intros name locales Hcovers hasSub. exact Hcovers.
  - apply Forall_forall. auto.
  - exact Hrun.
  - apply Hall. intros articleId article Hlook. rewrite lookup_empty in Hlook. discriminate.
Qed.

End ScanComplete.

Section FreshTarget.
Import Sys Scanner ArticleFiles Shape PathShape.
Context `{Listing}.
Variable dirname : string.

(** X18.  A new locale never lands on an existing file.  Take an article
    as the scan returned it and a locale, a proper name, that it does not
    have.  If the listing of the article's directory shows every entry that
    is there, and an [index.md] only exists inside a directory, then
    whatever the source locale, the path [getTargetArticlePath] returns
    holds no regular file: the loop's write creates a file and overwrites
    none. *)
Theorem new_locale_path_is_free (collection : ContentType) (articles : gmap string Article)
    (w w' : World) (articleId : string) (article : Article)
    (sourceLocale targetLocale : string) :
  findArticles dirname collection w = (Ok articles, w') ->
  articles !! articleId = Some article ->
  articleId <> "" ->
  plain targetLocale = true ->
  targetExists article targetLocale = false ->
  (forall name,
      plain name = true ->
      is_Some (fs w !! Path.join [baseDir dirname article; name]) ->
      In name (entries (fs w) (baseDir dirname article))) ->
  (is_Some (fs w !! Path.join [Path.join [baseDir dirname article; targetLocale]; "index.md"]) ->
   fs w !! Path.join [baseDir dirname article; targetLocale] = Some Dir) ->
  forall path w1,
    getTargetArticlePath dirname article sourceLocale targetLocale w = (Ok path, w1) ->
    forall content, fs w !! path <> Some (File content).
Proof.
  intros Hrun Hlook Hid Hplain Hnew Hlisted Htree path w1 Hpath content Hfile.
  destruct (findArticles_scans dirname collection articles w w' Hrun) as [_ Hwell].
  destruct (Hwell articleId article Hlook) as (Hsame & Htype & _).
  pose proof (findArticles_complete dirname collection articles w w' articleId article
                Hrun Hlook) as Hcovers.
  subst articleId.
  rewrite (scanned_dir_is_base dirname collection article Htype Hid) in Hcovers.
  assert (Habsent : targetLocale ∉ locales article).
  { unfold targetExists in Hnew. now apply bool_decide_eq_false in Hnew. }
  apply Habsent.
  destruct (plain_inv targetLocale Hplain) as (Hno & _).
  pose proof (plain_truthy targetLocale Hplain) as Htruthy.
  rewrite (getTargetArticlePath_path _ _ _ _ _ _ _ Hpath) in Hfile.
  destruct (get_truthy (hasSubdirectory article) sourceLocale).
  - assert (Hindex : is_Some (fs w !! Path.join [Path.join [baseDir dirname article;
                                                              targetLocale]; "index.md"]))
      by (rewrite Hfile; eauto).
    pose proof (Htree Hindex) as Hdir.
    assert (Hin : In targetLocale (entries (fs w) (baseDir dirname article)))
      by (apply Hlisted; [exact Hplain | rewrite Hdir; eauto]).
    destruct (Hcovers targetLocale Hin) as [_ Hdircase]. now apply Hdircase.
  - assert (Hin : In (targetLocale +:+ ".md") (entries (fs w) (baseDir dirname article))).
    { apply Hlisted; [now apply plain_md | rewrite Hfile; eauto]. }
    destruct (Hcovers _ Hin) as [Hfilecase _].
    specialize (Hfilecase content Hfile).
    rewrite endsWith_app_r in Hfilecase. specialize (Hfilecase eq_refl).
    rewrite stem_of_extension in Hfilecase; try reflexivity; try discriminate.
    + exact Hfilecase.
    + now apply truthy_str_neq.
    + apply from_last_dot_md.
Qed.

End FreshTarget.

Section FreshTargetWitness.
Import Sys Scanner ArticleFiles Shape Sample.

Lemma demo_dir_entry : PathShape.names_entry ["/repo/src/content/note/demo"].
Proof. repeat split; vm_compute; discriminate. Qed.

Lemma under_demo (name : string) :
  PathShape.plain name = true ->
  Path.join ["/repo/src/content/note/demo"; name] = "/repo/src/content/note/demo/" +:+ name.
Proof.
  intros Hplain.
  destruct (path_join_snoc ["/repo/src/content/note/demo"] name demo_dir_entry Hplain)
    as [Hjoin _].
  exact Hjoin.
Qed.

Lemma disk_listing_complete (name : string) :
  PathShape.plain name = true ->
  is_Some (disk !! Path.join ["/repo/src/content/note/demo"; name]) ->
  In name ["en.md"; "ja"; "notes.txt"].
Proof.
  intros Hplain [node Hnode]. rewrite (under_demo name Hplain) in Hnode.
  destruct (plain_inv name Hplain) as (Hno & _).
  unfold disk in Hnode.
  repeat (rewrite lookup_insert in Hnode;
          match type of Hnode with
          | context [decide ?P] => destruct (decide P) as [Hkey | _]
          end;
          [vm_compute in Hkey; try discriminate Hkey |]).
  - injection Hkey as <-. now left.
  - injection Hkey as <-. right; right; now left.
  - injection Hkey as <-. right; now left.
  - injection Hkey as <-. discriminate Hno.
  - rewrite lookup_empty in Hnode. discriminate.
Qed.

Lemma new_locale_path_is_free_witness :
  fs disk_world !! "/repo/src/content/note/demo/zh-cn.md" <> Some (File "old").
Proof.
  apply (new_locale_path_is_free "/repo/scripts/lib" note (<["demo" := disk_demo]> ∅)
           disk_world disk_world "demo" disk_demo "en" "zh-cn") with (w1 := disk_world).
  - vm_compute. reflexivity.
  - vm_compute. reflexivity.
  - discriminate.
  - reflexivity.
  - vm_compute. reflexivity.
  - intros name Hplain Hsome. now apply disk_listing_complete.
  - vm_compute. intros [? ?]. discriminate.
  - vm_compute. reflexivity.
Defined.

End FreshTargetWitness.
